(** * A shallow embedding of the editing core of the terminal editor

    The Go sources (display.go, undo.go, canvas.go, brackets.go and the
    file that declares [Editor] and [NewEditor]) are rendered as Rocq
    functions over an explicit [Editor] record.  Methods on [*Editor]
    become functions [Editor -> option Editor]: the record is threaded
    through, and [None] stands for a run-time panic (an index or a slice
    expression out of range).

    Conventions.
    - Go's [int] is modelled by [Z].  Every [int] of the modelled code is
      an index, a length or a counter bounded by the length of a slice
      held in memory, so the 64-bit wrap-around is never reached.
    - A Go [string] that holds well-formed UTF-8 is modelled by the list
      of its Unicode scalar values ([gostring]); the conversions
      [[]rune(s)] and [string(rs)] are then the identity and [len] of the
      rune slice is the length of the list.
    - A slice is modelled by a list; [nil] and the empty slice coincide. *)

From Stdlib Require Strings.String Strings.Ascii.
From stdpp Require Import base numbers option list gmap.
Import Ascii.AsciiSyntax String.StringSyntax.
Local Open Scope Z_scope.

(** ** Runes, strings and slices *)

Definition rune := Z.
Abbreviation gostring := (list rune).

(** [len(s)] *)
Definition len {A} (l : list A) : Z := Z.of_nat (length l).

(** [s[i]]: panics unless [0 <= i < len(s)]. *)
Definition index {A} (l : list A) (i : Z) : option A :=
  if decide (0 ≤ i) then l !! Z.to_nat i else None.

(** [s[lo:hi]].  The model fails unless [0 <= lo <= hi <= len(s)]; Go
    itself allows [hi] up to the capacity. *)
Definition slice {A} (l : list A) (lo hi : Z) : option (list A) :=
  if decide (0 ≤ lo ∧ lo ≤ hi ∧ hi ≤ len l)
  then Some (take (Z.to_nat (hi - lo)) (drop (Z.to_nat lo) l))
  else None.

(** [s[:hi]] and [s[lo:]] *)
Definition slice_to {A} (l : list A) (hi : Z) : option (list A) := slice l 0 hi.
Definition slice_from {A} (l : list A) (lo : Z) : option (list A) := slice l lo (len l).

(** [s[i] = v]: panics unless [0 <= i < len(s)]. *)
Definition store {A} (l : list A) (i : Z) (v : A) : option (list A) :=
  if decide (0 ≤ i ∧ i < len l) then Some (<[Z.to_nat i := v]> l) else None.

(** [for i := lo; i < hi; i++ { body }] for a body that neither assigns
    [i] nor leaves the loop early. *)
Fixpoint for_range {S} (n : nat) (i : Z) (body : Z → S → option S) (s : S) : option S :=
  match n with
  | O => Some s
  | Datatypes.S n' => s' ← body i s; for_range n' (i + 1) body s'
  end.

Definition for_upto {S} (lo hi : Z) (body : Z → S → option S) (s : S) : option S :=
  for_range (Z.to_nat (hi - lo)) lo body s.

(** Rune and string literals: ['('] is [ch "("] and ["abc"] is
    [str "abc"]. *)
Definition rune_of_ascii (c : Ascii.ascii) : rune := Z.of_nat (Ascii.nat_of_ascii c).

Definition ch (c : Ascii.ascii) : rune := rune_of_ascii c.
Arguments ch c%_char_scope.

Fixpoint str (s : String.string) : gostring :=
  match s with
  | String.EmptyString => []
  | String.String c s' => rune_of_ascii c :: str s'
  end.
Arguments str s%_string_scope.

Definition TAB : rune := 9.
Definition LF : rune := 10.
Definition CR : rune := 13.
Definition SPACE : rune := 32.
Definition DQUOTE : rune := 34.
Definition SQUOTE : rune := 39.

(** ** The parts of Go's standard library the editor calls *)

Module utf8.
  (** [utf8.RuneLen]: the number of bytes of the UTF-8 encoding of [r],
      or [-1] when [r] is not a valid value to encode. *)
Definition RuneLen (r : rune) : Z :=
  if r <? 0 then -1
  else if r <=? 0x7F then 1
  else if r <=? 0x7FF then 2
  else if (0xD800 <=? r) && (r <=? 0xDFFF) then -1
  else if r <=? 0xFFFF then 3
  else if r <=? 0x10FFFF then 4
  else -1.
End utf8.

Module unicode.
  (** [unicode.IsSpace]: the Latin-1 spaces, then the White_Space
      property of the other planes. *)
Definition IsSpace (r : rune) : bool :=
  if (0 <=? r) && (r <=? 0xFF) then
    (r =? 9) || (r =? 10) || (r =? 11) || (r =? 12) || (r =? 13) || (r =? 32)
    || (r =? 0x85) || (r =? 0xA0)
  else
    (r =? 0x1680) || ((0x2000 <=? r) && (r <=? 0x200A)) || (r =? 0x2028)
    || (r =? 0x2029) || (r =? 0x202F) || (r =? 0x205F) || (r =? 0x3000).
End unicode.

Module strings.
  (** [strings.HasPrefix] *)
Fixpoint HasPrefix (s prefix : gostring) : bool :=
  match prefix, s with
  | [], _ => true
  | p :: prefix', c :: s' => (c =? p) && HasPrefix s' prefix'
  | _ :: _, [] => false
  end.

  (** [strings.Split(s, sep)] for a separator of one rune: the pieces of
      [s] between the separators, always at least one piece. *)
Fixpoint Split (s : gostring) (sep : rune) : list gostring :=
  match s with
  | [] => [[]]
  | c :: s' =>
      if c =? sep then [] :: Split s' sep
      else match Split s' sep with
           | [] => [[c]]
           | p :: ps => (c :: p) :: ps
           end
  end.

  (** [strings.Join] *)
Fixpoint Join (elems : list gostring) (sep : gostring) : gostring :=
  match elems with
  | [] => []
  | [a] => a
  | a :: rest => a ++ sep ++ Join rest sep
  end.

  (** [strings.ReplaceAll(s, old, new)] for a non-empty [old]: the
      occurrences are found left to right and do not overlap.  [skip]
      counts the runes of a matched occurrence still to be dropped. *)
Fixpoint replace_from (s old new : gostring) (skip : nat) : gostring :=
  match s with
  | [] => []
  | c :: s' =>
      match skip with
      | S k => replace_from s' old new k
      | O =>
          if HasPrefix s old then new ++ replace_from s' old new (length old - 1)
          else c :: replace_from s' old new 0
      end
  end.

  (** With an empty [old], Go inserts [new] before every rune and at the
      end. *)
Definition ReplaceAll (s old new : gostring) : gostring :=
  match old with
  | [] => new ++ flat_map (λ c, c :: new) s
  | _ :: _ => replace_from s old new 0
  end.

  (** [strings.Count(s, substr)]: the occurrences counted are the ones
      [ReplaceAll] replaces; with an empty [substr] Go returns the number
      of runes plus one. *)
Fixpoint count_from (s substr : gostring) (skip : nat) : Z :=
  match s with
  | [] => 0
  | c :: s' =>
      match skip with
      | S k => count_from s' substr k
      | O =>
          if HasPrefix s substr then 1 + count_from s' substr (length substr - 1)
          else count_from s' substr 0
      end
  end.

Definition Count (s substr : gostring) : Z :=
  match substr with
  | [] => len s + 1
  | _ :: _ => count_from s substr 0
  end.

  (** [strings.Repeat(s, count)]; a negative [count] panics. *)
Definition Repeat (s : gostring) (count : Z) : option gostring :=
  if count <? 0 then None else Some (concat (replicate (Z.to_nat count) s)).

Fixpoint trim_left (s : gostring) : gostring :=
  match s with
  | [] => []
  | c :: s' => if unicode.IsSpace c then trim_left s' else s
  end.

  (** [strings.TrimSpace] *)
Definition TrimSpace (s : gostring) : gostring :=
  rev (trim_left (rev (trim_left s))).
End strings.

Module runewidth.
  (** [runewidth.RuneWidth] of the go-runewidth package: the number of
      terminal cells a rune occupies.  The table belongs to that package
      and is taken as a parameter. *)
Class Table := RuneWidth : rune → Z.
End runewidth.

(** ** The data model *)

Inductive Language :=
  | LangC | LangCpp | LangAssembly | LangFortran | LangGo | LangPython
  | LangRuby | LangKotlin | LangSwift | LangHTML | LangLisp | LangUnknown.

(** A snapshot on the undo or redo stack. *)
Record EditorState := {
  Lines : list gostring;
  Cx : Z;
  Cy : Z
}.

Module Canvas.
Record t := {
  filename : gostring;
  lines : list gostring;
  cx : Z;
  cy : Z;
  offsetX : Z;
  offsetY : Z;
  dirty : bool;
  language : Language;
  undoStack : list EditorState;
  redoStack : list EditorState
}.
End Canvas.

Definition MaxCanvases : Z := 100.


Record BracketPair := {
  OpenLine : Z;
  OpenCol : Z;
  CloseLine : Z;
  CloseCol : Z
}.

(** The fields of [Editor] that the editing core reads or writes.  The
    screen handle, the three prompts, the LLM settings, the GitHub
    project and the timers are left out. *)
Record Editor := {
  filename : gostring;
  lines : list gostring;
  cx : Z;
  cy : Z;
  offsetX : Z;
  offsetY : Z;
  dirty : bool;
  clipboard : gostring;
  height : Z;
  contentWidth : Z;
  contentHeight : Z;
  language : Language;
  selectAllBeforeLLM : bool;
  ctrlAState : bool;
  ctrlLState : bool;
  selectStartX : Z;
  selectStartY : Z;
  selecting : bool;
  lineSelecting : bool;
  lastSearch : gostring;
  undoStack : list EditorState;
  redoStack : list EditorState;
  canvases : gmap Z Canvas.t;
  currentCanvas : Z
}.

(** Field assignments [e.f = v]. *)
Definition set_filename (v : gostring) (e : Editor) : Editor :=
  {| filename := v; lines := lines e; cx := cx e; cy := cy e; offsetX := offsetX e;
     offsetY := offsetY e; dirty := dirty e; clipboard := clipboard e;
     height := height e; contentWidth := contentWidth e;
     contentHeight := contentHeight e; language := language e;
     selectAllBeforeLLM := selectAllBeforeLLM e; ctrlAState := ctrlAState e;
     ctrlLState := ctrlLState e; selectStartX := selectStartX e;
     selectStartY := selectStartY e; selecting := selecting e;
     lineSelecting := lineSelecting e; lastSearch := lastSearch e;
     undoStack := undoStack e; redoStack := redoStack e; canvases := canvases e;
     currentCanvas := currentCanvas e |}.

Definition set_lines (v : list gostring) (e : Editor) : Editor :=
  {| filename := filename e; lines := v; cx := cx e; cy := cy e; offsetX := offsetX e;
     offsetY := offsetY e; dirty := dirty e; clipboard := clipboard e;
     height := height e; contentWidth := contentWidth e;
     contentHeight := contentHeight e; language := language e;
     selectAllBeforeLLM := selectAllBeforeLLM e; ctrlAState := ctrlAState e;
     ctrlLState := ctrlLState e; selectStartX := selectStartX e;
     selectStartY := selectStartY e; selecting := selecting e;
     lineSelecting := lineSelecting e; lastSearch := lastSearch e;
     undoStack := undoStack e; redoStack := redoStack e; canvases := canvases e;
     currentCanvas := currentCanvas e |}.

Definition set_cx (v : Z) (e : Editor) : Editor :=
  {| filename := filename e; lines := lines e; cx := v; cy := cy e;
     offsetX := offsetX e; offsetY := offsetY e; dirty := dirty e;
     clipboard := clipboard e; height := height e; contentWidth := contentWidth e;
     contentHeight := contentHeight e; language := language e;
     selectAllBeforeLLM := selectAllBeforeLLM e; ctrlAState := ctrlAState e;
     ctrlLState := ctrlLState e; selectStartX := selectStartX e;
     selectStartY := selectStartY e; selecting := selecting e;
     lineSelecting := lineSelecting e; lastSearch := lastSearch e;
     undoStack := undoStack e; redoStack := redoStack e; canvases := canvases e;
     currentCanvas := currentCanvas e |}.

Definition set_cy (v : Z) (e : Editor) : Editor :=
  {| filename := filename e; lines := lines e; cx := cx e; cy := v;
     offsetX := offsetX e; offsetY := offsetY e; dirty := dirty e;
     clipboard := clipboard e; height := height e; contentWidth := contentWidth e;
     contentHeight := contentHeight e; language := language e;
     selectAllBeforeLLM := selectAllBeforeLLM e; ctrlAState := ctrlAState e;
     ctrlLState := ctrlLState e; selectStartX := selectStartX e;
     selectStartY := selectStartY e; selecting := selecting e;
     lineSelecting := lineSelecting e; lastSearch := lastSearch e;
     undoStack := undoStack e; redoStack := redoStack e; canvases := canvases e;
     currentCanvas := currentCanvas e |}.

Definition set_offsetX (v : Z) (e : Editor) : Editor :=
  {| filename := filename e; lines := lines e; cx := cx e; cy := cy e; offsetX := v;
     offsetY := offsetY e; dirty := dirty e; clipboard := clipboard e;
     height := height e; contentWidth := contentWidth e;
     contentHeight := contentHeight e; language := language e;
     selectAllBeforeLLM := selectAllBeforeLLM e; ctrlAState := ctrlAState e;
     ctrlLState := ctrlLState e; selectStartX := selectStartX e;
     selectStartY := selectStartY e; selecting := selecting e;
     lineSelecting := lineSelecting e; lastSearch := lastSearch e;
     undoStack := undoStack e; redoStack := redoStack e; canvases := canvases e;
     currentCanvas := currentCanvas e |}.

Definition set_offsetY (v : Z) (e : Editor) : Editor :=
  {| filename := filename e; lines := lines e; cx := cx e; cy := cy e;
     offsetX := offsetX e; offsetY := v; dirty := dirty e; clipboard := clipboard e;
     height := height e; contentWidth := contentWidth e;
     contentHeight := contentHeight e; language := language e;
     selectAllBeforeLLM := selectAllBeforeLLM e; ctrlAState := ctrlAState e;
     ctrlLState := ctrlLState e; selectStartX := selectStartX e;
     selectStartY := selectStartY e; selecting := selecting e;
     lineSelecting := lineSelecting e; lastSearch := lastSearch e;
     undoStack := undoStack e; redoStack := redoStack e; canvases := canvases e;
     currentCanvas := currentCanvas e |}.

Definition set_dirty (v : bool) (e : Editor) : Editor :=
  {| filename := filename e; lines := lines e; cx := cx e; cy := cy e;
     offsetX := offsetX e; offsetY := offsetY e; dirty := v; clipboard := clipboard e;
     height := height e; contentWidth := contentWidth e;
     contentHeight := contentHeight e; language := language e;
     selectAllBeforeLLM := selectAllBeforeLLM e; ctrlAState := ctrlAState e;
     ctrlLState := ctrlLState e; selectStartX := selectStartX e;
     selectStartY := selectStartY e; selecting := selecting e;
     lineSelecting := lineSelecting e; lastSearch := lastSearch e;
     undoStack := undoStack e; redoStack := redoStack e; canvases := canvases e;
     currentCanvas := currentCanvas e |}.

Definition set_clipboard (v : gostring) (e : Editor) : Editor :=
  {| filename := filename e; lines := lines e; cx := cx e; cy := cy e;
     offsetX := offsetX e; offsetY := offsetY e; dirty := dirty e; clipboard := v;
     height := height e; contentWidth := contentWidth e;
     contentHeight := contentHeight e; language := language e;
     selectAllBeforeLLM := selectAllBeforeLLM e; ctrlAState := ctrlAState e;
     ctrlLState := ctrlLState e; selectStartX := selectStartX e;
     selectStartY := selectStartY e; selecting := selecting e;
     lineSelecting := lineSelecting e; lastSearch := lastSearch e;
     undoStack := undoStack e; redoStack := redoStack e; canvases := canvases e;
     currentCanvas := currentCanvas e |}.

Definition set_height (v : Z) (e : Editor) : Editor :=
  {| filename := filename e; lines := lines e; cx := cx e; cy := cy e;
     offsetX := offsetX e; offsetY := offsetY e; dirty := dirty e;
     clipboard := clipboard e; height := v; contentWidth := contentWidth e;
     contentHeight := contentHeight e; language := language e;
     selectAllBeforeLLM := selectAllBeforeLLM e; ctrlAState := ctrlAState e;
     ctrlLState := ctrlLState e; selectStartX := selectStartX e;
     selectStartY := selectStartY e; selecting := selecting e;
     lineSelecting := lineSelecting e; lastSearch := lastSearch e;
     undoStack := undoStack e; redoStack := redoStack e; canvases := canvases e;
     currentCanvas := currentCanvas e |}.

Definition set_contentWidth (v : Z) (e : Editor) : Editor :=
  {| filename := filename e; lines := lines e; cx := cx e; cy := cy e;
     offsetX := offsetX e; offsetY := offsetY e; dirty := dirty e;
     clipboard := clipboard e; height := height e; contentWidth := v;
     contentHeight := contentHeight e; language := language e;
     selectAllBeforeLLM := selectAllBeforeLLM e; ctrlAState := ctrlAState e;
     ctrlLState := ctrlLState e; selectStartX := selectStartX e;
     selectStartY := selectStartY e; selecting := selecting e;
     lineSelecting := lineSelecting e; lastSearch := lastSearch e;
     undoStack := undoStack e; redoStack := redoStack e; canvases := canvases e;
     currentCanvas := currentCanvas e |}.

Definition set_contentHeight (v : Z) (e : Editor) : Editor :=
  {| filename := filename e; lines := lines e; cx := cx e; cy := cy e;
     offsetX := offsetX e; offsetY := offsetY e; dirty := dirty e;
     clipboard := clipboard e; height := height e; contentWidth := contentWidth e;
     contentHeight := v; language := language e;
     selectAllBeforeLLM := selectAllBeforeLLM e; ctrlAState := ctrlAState e;
     ctrlLState := ctrlLState e; selectStartX := selectStartX e;
     selectStartY := selectStartY e; selecting := selecting e;
     lineSelecting := lineSelecting e; lastSearch := lastSearch e;
     undoStack := undoStack e; redoStack := redoStack e; canvases := canvases e;
     currentCanvas := currentCanvas e |}.

Definition set_language (v : Language) (e : Editor) : Editor :=
  {| filename := filename e; lines := lines e; cx := cx e; cy := cy e;
     offsetX := offsetX e; offsetY := offsetY e; dirty := dirty e;
     clipboard := clipboard e; height := height e; contentWidth := contentWidth e;
     contentHeight := contentHeight e; language := v;
     selectAllBeforeLLM := selectAllBeforeLLM e; ctrlAState := ctrlAState e;
     ctrlLState := ctrlLState e; selectStartX := selectStartX e;
     selectStartY := selectStartY e; selecting := selecting e;
     lineSelecting := lineSelecting e; lastSearch := lastSearch e;
     undoStack := undoStack e; redoStack := redoStack e; canvases := canvases e;
     currentCanvas := currentCanvas e |}.

Definition set_selectAllBeforeLLM (v : bool) (e : Editor) : Editor :=
  {| filename := filename e; lines := lines e; cx := cx e; cy := cy e;
     offsetX := offsetX e; offsetY := offsetY e; dirty := dirty e;
     clipboard := clipboard e; height := height e; contentWidth := contentWidth e;
     contentHeight := contentHeight e; language := language e; selectAllBeforeLLM := v;
     ctrlAState := ctrlAState e; ctrlLState := ctrlLState e;
     selectStartX := selectStartX e; selectStartY := selectStartY e;
     selecting := selecting e; lineSelecting := lineSelecting e;
     lastSearch := lastSearch e; undoStack := undoStack e; redoStack := redoStack e;
     canvases := canvases e; currentCanvas := currentCanvas e |}.

Definition set_ctrlAState (v : bool) (e : Editor) : Editor :=
  {| filename := filename e; lines := lines e; cx := cx e; cy := cy e;
     offsetX := offsetX e; offsetY := offsetY e; dirty := dirty e;
     clipboard := clipboard e; height := height e; contentWidth := contentWidth e;
     contentHeight := contentHeight e; language := language e;
     selectAllBeforeLLM := selectAllBeforeLLM e; ctrlAState := v;
     ctrlLState := ctrlLState e; selectStartX := selectStartX e;
     selectStartY := selectStartY e; selecting := selecting e;
     lineSelecting := lineSelecting e; lastSearch := lastSearch e;
     undoStack := undoStack e; redoStack := redoStack e; canvases := canvases e;
     currentCanvas := currentCanvas e |}.

Definition set_ctrlLState (v : bool) (e : Editor) : Editor :=
  {| filename := filename e; lines := lines e; cx := cx e; cy := cy e;
     offsetX := offsetX e; offsetY := offsetY e; dirty := dirty e;
     clipboard := clipboard e; height := height e; contentWidth := contentWidth e;
     contentHeight := contentHeight e; language := language e;
     selectAllBeforeLLM := selectAllBeforeLLM e; ctrlAState := ctrlAState e;
     ctrlLState := v; selectStartX := selectStartX e; selectStartY := selectStartY e;
     selecting := selecting e; lineSelecting := lineSelecting e;
     lastSearch := lastSearch e; undoStack := undoStack e; redoStack := redoStack e;
     canvases := canvases e; currentCanvas := currentCanvas e |}.

Definition set_selectStartX (v : Z) (e : Editor) : Editor :=
  {| filename := filename e; lines := lines e; cx := cx e; cy := cy e;
     offsetX := offsetX e; offsetY := offsetY e; dirty := dirty e;
     clipboard := clipboard e; height := height e; contentWidth := contentWidth e;
     contentHeight := contentHeight e; language := language e;
     selectAllBeforeLLM := selectAllBeforeLLM e; ctrlAState := ctrlAState e;
     ctrlLState := ctrlLState e; selectStartX := v; selectStartY := selectStartY e;
     selecting := selecting e; lineSelecting := lineSelecting e;
     lastSearch := lastSearch e; undoStack := undoStack e; redoStack := redoStack e;
     canvases := canvases e; currentCanvas := currentCanvas e |}.

Definition set_selectStartY (v : Z) (e : Editor) : Editor :=
  {| filename := filename e; lines := lines e; cx := cx e; cy := cy e;
     offsetX := offsetX e; offsetY := offsetY e; dirty := dirty e;
     clipboard := clipboard e; height := height e; contentWidth := contentWidth e;
     contentHeight := contentHeight e; language := language e;
     selectAllBeforeLLM := selectAllBeforeLLM e; ctrlAState := ctrlAState e;
     ctrlLState := ctrlLState e; selectStartX := selectStartX e; selectStartY := v;
     selecting := selecting e; lineSelecting := lineSelecting e;
     lastSearch := lastSearch e; undoStack := undoStack e; redoStack := redoStack e;
     canvases := canvases e; currentCanvas := currentCanvas e |}.

Definition set_selecting (v : bool) (e : Editor) : Editor :=
  {| filename := filename e; lines := lines e; cx := cx e; cy := cy e;
     offsetX := offsetX e; offsetY := offsetY e; dirty := dirty e;
     clipboard := clipboard e; height := height e; contentWidth := contentWidth e;
     contentHeight := contentHeight e; language := language e;
     selectAllBeforeLLM := selectAllBeforeLLM e; ctrlAState := ctrlAState e;
     ctrlLState := ctrlLState e; selectStartX := selectStartX e;
     selectStartY := selectStartY e; selecting := v; lineSelecting := lineSelecting e;
     lastSearch := lastSearch e; undoStack := undoStack e; redoStack := redoStack e;
     canvases := canvases e; currentCanvas := currentCanvas e |}.

Definition set_lineSelecting (v : bool) (e : Editor) : Editor :=
  {| filename := filename e; lines := lines e; cx := cx e; cy := cy e;
     offsetX := offsetX e; offsetY := offsetY e; dirty := dirty e;
     clipboard := clipboard e; height := height e; contentWidth := contentWidth e;
     contentHeight := contentHeight e; language := language e;
     selectAllBeforeLLM := selectAllBeforeLLM e; ctrlAState := ctrlAState e;
     ctrlLState := ctrlLState e; selectStartX := selectStartX e;
     selectStartY := selectStartY e; selecting := selecting e; lineSelecting := v;
     lastSearch := lastSearch e; undoStack := undoStack e; redoStack := redoStack e;
     canvases := canvases e; currentCanvas := currentCanvas e |}.

Definition set_lastSearch (v : gostring) (e : Editor) : Editor :=
  {| filename := filename e; lines := lines e; cx := cx e; cy := cy e;
     offsetX := offsetX e; offsetY := offsetY e; dirty := dirty e;
     clipboard := clipboard e; height := height e; contentWidth := contentWidth e;
     contentHeight := contentHeight e; language := language e;
     selectAllBeforeLLM := selectAllBeforeLLM e; ctrlAState := ctrlAState e;
     ctrlLState := ctrlLState e; selectStartX := selectStartX e;
     selectStartY := selectStartY e; selecting := selecting e;
     lineSelecting := lineSelecting e; lastSearch := v; undoStack := undoStack e;
     redoStack := redoStack e; canvases := canvases e;
     currentCanvas := currentCanvas e |}.

Definition set_undoStack (v : list EditorState) (e : Editor) : Editor :=
  {| filename := filename e; lines := lines e; cx := cx e; cy := cy e;
     offsetX := offsetX e; offsetY := offsetY e; dirty := dirty e;
     clipboard := clipboard e; height := height e; contentWidth := contentWidth e;
     contentHeight := contentHeight e; language := language e;
     selectAllBeforeLLM := selectAllBeforeLLM e; ctrlAState := ctrlAState e;
     ctrlLState := ctrlLState e; selectStartX := selectStartX e;
     selectStartY := selectStartY e; selecting := selecting e;
     lineSelecting := lineSelecting e; lastSearch := lastSearch e; undoStack := v;
     redoStack := redoStack e; canvases := canvases e;
     currentCanvas := currentCanvas e |}.

Definition set_redoStack (v : list EditorState) (e : Editor) : Editor :=
  {| filename := filename e; lines := lines e; cx := cx e; cy := cy e;
     offsetX := offsetX e; offsetY := offsetY e; dirty := dirty e;
     clipboard := clipboard e; height := height e; contentWidth := contentWidth e;
     contentHeight := contentHeight e; language := language e;
     selectAllBeforeLLM := selectAllBeforeLLM e; ctrlAState := ctrlAState e;
     ctrlLState := ctrlLState e; selectStartX := selectStartX e;
     selectStartY := selectStartY e; selecting := selecting e;
     lineSelecting := lineSelecting e; lastSearch := lastSearch e;
     undoStack := undoStack e; redoStack := v; canvases := canvases e;
     currentCanvas := currentCanvas e |}.

Definition set_canvases (v : gmap Z Canvas.t) (e : Editor) : Editor :=
  {| filename := filename e; lines := lines e; cx := cx e; cy := cy e;
     offsetX := offsetX e; offsetY := offsetY e; dirty := dirty e;
     clipboard := clipboard e; height := height e; contentWidth := contentWidth e;
     contentHeight := contentHeight e; language := language e;
     selectAllBeforeLLM := selectAllBeforeLLM e; ctrlAState := ctrlAState e;
     ctrlLState := ctrlLState e; selectStartX := selectStartX e;
     selectStartY := selectStartY e; selecting := selecting e;
     lineSelecting := lineSelecting e; lastSearch := lastSearch e;
     undoStack := undoStack e; redoStack := redoStack e; canvases := v;
     currentCanvas := currentCanvas e |}.

Definition set_currentCanvas (v : Z) (e : Editor) : Editor :=
  {| filename := filename e; lines := lines e; cx := cx e; cy := cy e;
     offsetX := offsetX e; offsetY := offsetY e; dirty := dirty e;
     clipboard := clipboard e; height := height e; contentWidth := contentWidth e;
     contentHeight := contentHeight e; language := language e;
     selectAllBeforeLLM := selectAllBeforeLLM e; ctrlAState := ctrlAState e;
     ctrlLState := ctrlLState e; selectStartX := selectStartX e;
     selectStartY := selectStartY e; selecting := selecting e;
     lineSelecting := lineSelecting e; lastSearch := lastSearch e;
     undoStack := undoStack e; redoStack := redoStack e; canvases := canvases e;
     currentCanvas := v |}.
(** ** Operations *)

Section Operations.
Context `{runewidth.Table}.

(** *** display.go: wrapping and the cursor's display position *)

(** The body of [for i, r := range runes] in [wrapLine].  [todo] is
    [runes[i:]]; the loop state is [parts], [currentWidth] and [start]. *)
Fixpoint wrapLine_range (e : Editor) (runes todo : list rune) (i : Z)
    (parts : list gostring) (currentWidth start : Z) : option (list gostring * Z) :=
  match todo with
  | [] => Some (parts, start)
  | r :: todo' =>
      let tabWidth := 4 in
      let rw :=
        if r =? TAB then tabWidth - Z.rem currentWidth tabWidth
        else if unicode.IsSpace r then 1
        else utf8.RuneLen r in
      if (currentWidth + rw >? contentWidth e) && (i >? start) then
        seg ← slice runes start i;
        wrapLine_range e runes todo' (i + 1) (parts ++ [seg]) rw i
      else
        wrapLine_range e runes todo' (i + 1) parts (currentWidth + rw) start
  end.

Definition wrapLine (e : Editor) (line : gostring) : option (list gostring) :=
  let runes := line in
  if len runes =? 0 then Some [[]]
  else
    '(parts, start) ← wrapLine_range e runes runes 0 [] 0 0;
    seg ← slice_from runes start;
    Some (parts ++ [seg]).

(** The cell offset of the first [n] runes of a segment: the loops at the
    end of [cursorDisplayPosition]. *)
Definition cells_step (segRunes : list rune) (i : Z) (offsetInSegCells : Z) : option Z :=
  r ← index segRunes i;
  if r =? TAB then Some (offsetInSegCells + (4 - Z.rem offsetInSegCells 4))
  else Some (offsetInSegCells + runewidth.RuneWidth r).

Definition cells_upto (segRunes : list rune) (n : Z) : option Z :=
  for_upto 0 n (cells_step segRunes) 0.

(** [for segIndex, seg := range segs] in [cursorDisplayPosition]: the
    result of the [return] inside the loop, or [None] when the loop runs
    to its end. *)
Fixpoint cursor_segment (cx totalBefore : Z) (segs : list gostring)
    (segIndex segmentStartRune : Z) : option (option (Z * Z * Z)) :=
  match segs with
  | [] => Some None
  | seg :: segs' =>
      let segRunes := seg in
      let segEndRune := segmentStartRune + len segRunes in
      if (cx >=? segmentStartRune) && (cx <=? segEndRune) then
        let offsetInSegRunes := cx - segmentStartRune in
        offsetInSegCells ← cells_upto segRunes offsetInSegRunes;
        let displayRow := totalBefore + segIndex in
        Some (Some (displayRow, segIndex, offsetInSegCells))
      else cursor_segment cx totalBefore segs' (segIndex + 1) segEndRune
  end.

(** The clamping prologue of [cursorDisplayPosition]. *)
Definition cursor_clamp (e : Editor) : option Editor :=
  let e := if cy e <? 0 then set_cy 0 e else e in
  let e :=
    if cy e >=? len (lines e) then
      if len (lines e) >? 0 then set_cy (len (lines e) - 1) e else set_cy 0 e
    else e in
  let e := if cx e <? 0 then set_cx 0 e else e in
  let e :=
    if len (lines e) =? 0 then set_cx 0 (set_cy 0 (set_lines [[]] e)) else e in
  if cy e <? len (lines e) then
    line ← index (lines e) (cy e);
    let lineRunes := line in
    Some (if cx e >? len lineRunes then set_cx (len lineRunes) e else e)
  else
    let e := set_cx 0 (set_cy 0 e) in
    Some (if len (lines e) =? 0 then set_lines [[]] e else e).

Definition cursorDisplayPosition (e : Editor) : option (Z * Z * Z * Editor) :=
  e ← cursor_clamp e;
  totalBefore ← for_upto 0 (cy e)
    (λ i totalBefore,
       line ← index (lines e) i;
       segs ← wrapLine e line;
       Some (totalBefore + len segs)) 0;
  line ← index (lines e) (cy e);
  segs ← wrapLine e line;
  let lineRunes := line in
  let e := if cx e >? len lineRunes then set_cx (len lineRunes) e else e in
  found ← cursor_segment (cx e) totalBefore segs 0 0;
  match found with
  | Some (displayRow, segIndex, offsetInSegCells) =>
      Some (displayRow, segIndex, offsetInSegCells, e)
  | None =>
      let displayRow := totalBefore + len segs - 1 in
      lastSeg ← index segs (len segs - 1);
      let lastSegRunes := lastSeg in
      offsetInSegCells ← cells_upto lastSegRunes (len lastSegRunes);
      Some (displayRow, len segs - 1, offsetInSegCells, e)
  end.

(** The clamping prologue of [ensureVisible]. *)
Definition visible_clamp (e : Editor) : option Editor :=
  let e :=
    if len (lines e) =? 0 then set_cx 0 (set_cy 0 (set_lines [[]] e)) else e in
  let e := if cy e <? 0 then set_cy 0 e else e in
  let e := if cy e >=? len (lines e) then set_cy (len (lines e) - 1) e else e in
  let e := if cx e <? 0 then set_cx 0 e else e in
  if cy e <? len (lines e) then
    line ← index (lines e) (cy e);
    let lineRunes := line in
    Some (if cx e >? len lineRunes then set_cx (len lineRunes) e else e)
  else Some e.

Definition ensureVisible (e : Editor) : option Editor :=
  e ← visible_clamp e;
  '(dispIdx, _, _, e) ← cursorDisplayPosition e;
  let visibleRows := contentHeight e - 4 in
  let visibleRows := if visibleRows <? 1 then 1 else visibleRows in
  if dispIdx <? offsetY e then Some (set_offsetY dispIdx e)
  else if dispIdx >=? offsetY e + visibleRows then
    Some (set_offsetY (dispIdx - visibleRows + 1) e)
  else Some e.

(** *** undo.go: the history stacks *)

(** [pushUndo]: the snapshot holds a copy of the lines. *)
Definition pushUndo (e : Editor) : Editor :=
  let state := {| Lines := lines e; Cx := cx e; Cy := cy e |} in
  let e := set_undoStack (undoStack e ++ [state]) e in
  let e := set_redoStack [] e in
  set_dirty true e.

Definition undo (e : Editor) : option Editor :=
  if len (undoStack e) =? 0 then Some e
  else
    let currentState := {| Lines := lines e; Cx := cx e; Cy := cy e |} in
    let e := set_redoStack (redoStack e ++ [currentState]) e in
    lastState ← index (undoStack e) (len (undoStack e) - 1);
    rest ← slice_to (undoStack e) (len (undoStack e) - 1);
    let e := set_undoStack rest e in
    let e := set_lines (Lines lastState) e in
    let e := set_cx (Cx lastState) e in
    let e := set_cy (Cy lastState) e in
    ensureVisible e.

Definition redo (e : Editor) : option Editor :=
  if len (redoStack e) =? 0 then Some e
  else
    let currentState := {| Lines := lines e; Cx := cx e; Cy := cy e |} in
    let e := set_undoStack (undoStack e ++ [currentState]) e in
    nextState ← index (redoStack e) (len (redoStack e) - 1);
    rest ← slice_to (redoStack e) (len (redoStack e) - 1);
    let e := set_redoStack rest e in
    let e := set_lines (Lines nextState) e in
    let e := set_cx (Cx nextState) e in
    let e := set_cy (Cy nextState) e in
    ensureVisible e.

Definition insertRune (r : rune) (e : Editor) : option Editor :=
  let e := pushUndo e in
  line ← index (lines e) (cy e);
  let lineRunes := line in
  let e := if cx e <? 0 then set_cx 0 e else e in
  left ← slice_to lineRunes (cx e);
  right ← slice_from lineRunes (cx e);
  let lineRunes := left ++ [r] ++ right in
  ls ← store (lines e) (cy e) lineRunes;
  let e := set_lines ls e in
  let e := set_cx (cx e + 1) e in
  let e := set_redoStack [] e in
  Some (set_dirty true e).

(** The search of [queryRunes] in [lineRunesFrom] inside [findAndJump]:
    the least [j <= len(lineRunesFrom) - len(queryRunes)] at which the
    query starts.  [from] is [lineRunesFrom[j:]]. *)
Fixpoint find_query (from queryRunes : list rune) (j : Z) : option Z :=
  if len queryRunes <=? len from then
    if strings.HasPrefix from queryRunes then Some j
    else match from with
         | [] => None
         | _ :: from' => find_query from' queryRunes (j + 1)
         end
  else None.

(** The loop [for i := 0; i < totalLines; i++] of [findAndJump]; [n]
    counts the iterations left.  The result is the editor after the
    [return] inside the loop, or [None] when nothing is found. *)
Fixpoint findAndJump_loop (n : nat) (i : Z) (query q : gostring)
    (startX startY totalLines : Z) (e : Editor) : option (option Editor) :=
  match n with
  | O => Some None
  | S n' =>
      line ← index (lines e) (Z.rem (startY + i) totalLines);
      let searchFrom := if i =? 0 then startX + 1 else 0 in
      let lineRunes := line in
      let searchFrom := if searchFrom >? len lineRunes then len lineRunes else searchFrom in
      let queryRunes := q in
      lineRunesFrom ← slice_from lineRunes searchFrom;
      match find_query lineRunesFrom queryRunes 0 with
      | Some pos =>
          let idx := searchFrom + pos in
          let e := set_cy (Z.rem (startY + i) totalLines) e in
          let e := set_cx idx e in
          e ← ensureVisible e;
          Some (Some (set_lastSearch (strings.TrimSpace query) e))
      | None => findAndJump_loop n' (i + 1) query q startX startY totalLines e
      end
  end.

Definition findAndJump (query : gostring) (e : Editor) : option Editor :=
  let q := strings.TrimSpace query in
  if len q =? 0 then Some e
  else
    let startY := cy e in
    let startX := cx e in
    let totalLines := len (lines e) in
    found ← findAndJump_loop (Z.to_nat totalLines) 0 query q startX startY totalLines e;
    match found with
    | Some e' => Some e'
    | None => Some e
    end.

(** *** display.go: editing primitives *)

(** [append(s[:k], append([]T{x}, s[k:]...)...)] *)
Definition insert_at {A} (l : list A) (k : Z) (x : A) : option (list A) :=
  before ← slice_to l k;
  after ← slice_from l k;
  Some (before ++ [x] ++ after).

(** [append(s[:i], s[j:]...)] *)
Definition cut_out {A} (l : list A) (i j : Z) : option (list A) :=
  before ← slice_to l i;
  after ← slice_from l j;
  Some (before ++ after).

Definition insertTextAtCursor (text : gostring) (e : Editor) : option Editor :=
  let e := pushUndo e in
  let parts := strings.Split text LF in
  if len parts =? 0 then Some e
  else
    let e := if cy e <? 0 then set_cy 0 e else e in
    (* for e.cy >= len(e.lines) { e.lines = append(e.lines, "") } *)
    let e := set_lines (lines e ++ replicate (Z.to_nat (cy e - len (lines e) + 1)) []) e in
    line ← index (lines e) (cy e);
    let lineRunes := line in
    let e := if cx e <? 0 then set_cx 0 e else e in
    let e := if cx e >? len lineRunes then set_cx (len lineRunes) e else e in
    e ← (if len parts =? 1 then
           left ← slice_to lineRunes (cx e);
           right ← slice_from lineRunes (cx e);
           part0 ← index parts 0;
           ls ← store (lines e) (cy e) (left ++ part0 ++ right);
           let e := set_lines ls e in
           Some (set_cx (cx e + len part0) e)
         else
           let origCy := cy e in
           left ← slice_to lineRunes (cx e);
           right ← slice_from lineRunes (cx e);
           part0 ← index parts 0;
           ls ← store (lines e) (cy e) (left ++ part0);
           let e := set_lines ls e in
           e ← for_upto 1 (len parts - 1)
                 (λ i e,
                    insertLine ← index parts i;
                    ls ← insert_at (lines e) (cy e + 1) insertLine;
                    Some (set_cy (cy e + 1) (set_lines ls e))) e;
           partLast ← index parts (len parts - 1);
           let last := partLast ++ right in
           ls ← insert_at (lines e) (cy e + 1) last;
           let e := set_lines ls e in
           let e := set_cy (origCy + (len parts - 1)) e in
           Some (set_cx (len partLast) e));
    let e := set_dirty true e in
    ensureVisible e.

(** [pasteFromClipboard]; [clip] is the result of [clipboard.ReadAll()],
    [None] for an error. *)
Definition pasteFromClipboard (clip : option gostring) (e : Editor) : option Editor :=
  match clip with
  | None => Some e
  | Some text =>
      let text := strings.ReplaceAll text [CR; LF] [LF] in
      let text := strings.ReplaceAll text [CR] [LF] in
      let pasteLines := strings.Split text LF in
      if len pasteLines =? 0 then Some e
      else
        let e := pushUndo e in
        currentLine ← index (lines e) (cy e);
        let lineRunes := currentLine in
        let cursorX := cx e in
        let cursorX := if cursorX >? len lineRunes then len lineRunes else cursorX in
        leftPart ← slice_to lineRunes cursorX;
        rightPart ← slice_from lineRunes cursorX;
        e ← (if len pasteLines =? 1 then
               paste0 ← index pasteLines 0;
               ls ← store (lines e) (cy e) (leftPart ++ paste0 ++ rightPart);
               let e := set_lines ls e in
               Some (set_cx (cursorX + len paste0) e)
             else
               paste0 ← index pasteLines 0;
               ls ← store (lines e) (cy e) (leftPart ++ paste0);
               let e := set_lines ls e in
               let insertIndex := cy e + 1 in
               '(e, insertIndex) ← for_upto 1 (len pasteLines - 1)
                 (λ i '(e, insertIndex),
                    pasteLine ← index pasteLines i;
                    ls ← insert_at (lines e) insertIndex pasteLine;
                    Some (set_lines ls e, insertIndex + 1)) (e, insertIndex);
               lastPastedLine ← index pasteLines (len pasteLines - 1);
               ls ← insert_at (lines e) insertIndex (lastPastedLine ++ rightPart);
               let e := set_lines ls e in
               let e := set_cy insertIndex e in
               Some (set_cx (len lastPastedLine) e));
        let e := set_dirty true e in
        let e := set_redoStack [] e in
        ensureVisible e
  end.

(** [cutLine]; a failure of [clipboard.WriteAll] only shows a message. *)
Definition cutLine (e : Editor) : option Editor :=
  if (cy e >=? 0) && (cy e <? len (lines e)) then
    let e := pushUndo e in
    line ← index (lines e) (cy e);
    let e := set_clipboard line e in
    ls ← cut_out (lines e) (cy e) (cy e + 1);
    let e := set_lines ls e in
    let e :=
      if (cy e >=? len (lines e)) && (len (lines e) >? 0)
      then set_cy (len (lines e) - 1) e else e in
    e ← (if len (lines e) =? 0 then
           Some (set_cx 0 (set_cy 0 (set_lines [[]] e)))
         else
           line ← index (lines e) (cy e);
           let lineRunes := line in
           Some (if cx e >? len lineRunes then set_cx (len lineRunes) e else e));
    let e := set_dirty true e in
    ensureVisible e
  else Some e.

Definition backspace (e : Editor) : option Editor :=
  if cx e >? 0 then
    let e := pushUndo e in
    line ← index (lines e) (cy e);
    let lineRunes := line in
    lineRunes ← cut_out lineRunes (cx e - 1) (cx e);
    ls ← store (lines e) (cy e) lineRunes;
    let e := set_lines ls e in
    let e := set_cx (cx e - 1) e in
    Some (set_dirty true e)
  else if cy e >? 0 then
    let e := pushUndo e in
    prev ← index (lines e) (cy e - 1);
    cur ← index (lines e) (cy e);
    let merged := prev ++ cur in
    ls ← store (lines e) (cy e - 1) merged;
    let e := set_lines ls e in
    ls ← cut_out (lines e) (cy e) (cy e + 1);
    let e := set_lines ls e in
    let e := set_cy (cy e - 1) e in
    let e := set_cx (len prev) e in
    Some (set_dirty true e)
  else Some e.

Definition newline (e : Editor) : option Editor :=
  let e := pushUndo e in
  line ← index (lines e) (cy e);
  let lineRunes := line in
  left ← slice_to lineRunes (cx e);
  right ← slice_from lineRunes (cx e);
  ls ← store (lines e) (cy e) left;
  let e := set_lines ls e in
  ls ← insert_at (lines e) (cy e + 1) right;
  let e := set_lines ls e in
  let e := set_cy (cy e + 1) e in
  let e := set_cx 0 e in
  Some (set_dirty true e).


(** *** display.go: the selection *)

Definition startSelection (e : Editor) : Editor :=
  if negb (selecting e) then
    let e := set_selecting true e in
    let e := set_selectStartX (cx e) e in
    set_selectStartY (cy e) e
  else e.

Definition startLineSelection (e : Editor) : Editor :=
  if negb (selecting e) then
    let e := set_selecting true e in
    let e := set_lineSelecting true e in
    let e := set_selectStartX (cx e) e in
    set_selectStartY (cy e) e
  else if negb (lineSelecting e) then
    let e := set_lineSelecting true e in
    let e := set_selectStartX (cx e) e in
    set_selectStartY (cy e) e
  else e.

Definition endSelection (e : Editor) : Editor :=
  let e := set_selecting false e in
  set_lineSelecting false e.

(** [(startLine, startCol, endLine, endCol)] *)
Definition getSelectionRange (e : Editor) : option (Z * Z * Z * Z) :=
  if negb (selecting e) then Some (0, 0, 0, 0)
  else if lineSelecting e then
    let startLine := selectStartY e in
    let endLine := cy e in
    let '(startLine, endLine) :=
      if startLine >? endLine then (endLine, startLine) else (startLine, endLine) in
    let startCol := 0 in
    endCol ← (if endLine <? len (lines e) then
                line ← index (lines e) endLine; Some (len line)
              else Some 0);
    Some (startLine, startCol, endLine, endCol)
  else
    let startLine := selectStartY e in
    let endLine := cy e in
    let startCol := selectStartX e in
    let endCol := cx e in
    if (startLine >? endLine) || ((startLine =? endLine) && (startCol >? endCol))
    then Some (endLine, endCol, startLine, startCol)
    else Some (startLine, startCol, endLine, endCol).

(** [for i := lo; i < hi; i++ { if i < len(e.lines) { sel = append(sel, e.lines[i]) } }] *)
Definition collect_lines (e : Editor) (lo hi : Z) (selectedLines : list gostring)
    : option (list gostring) :=
  for_upto lo hi
    (λ i sel,
       if i <? len (lines e) then line ← index (lines e) i; Some (sel ++ [line])
       else Some sel) selectedLines.

Definition getSelectedText (e : Editor) : option gostring :=
  '(startLine, startCol, endLine, endCol) ← getSelectionRange e;
  if (startLine =? 0) && (startCol =? 0) && (endLine =? 0) && (endCol =? 0) then Some []
  else
    selectedLines ←
      (if lineSelecting e then
         let startLine := if startLine <? 0 then 0 else startLine in
         let endLine := if endLine >=? len (lines e) then len (lines e) - 1 else endLine in
         let '(startLine, endLine) :=
           if startLine >? endLine then (endLine, startLine) else (startLine, endLine) in
         collect_lines e startLine (endLine + 1) []
       else if startLine =? endLine then
         if startLine <? len (lines e) then
           line ← index (lines e) startLine;
           let lineRunes := line in
           if (startCol <? endCol) && (endCol <=? len lineRunes) then
             seg ← slice lineRunes startCol endCol; Some [seg]
           else Some []
         else Some []
       else
         sel ← (if startLine <? len (lines e) then
                  line ← index (lines e) startLine;
                  let firstLineRunes := line in
                  if startCol <? len firstLineRunes then
                    seg ← slice_from firstLineRunes startCol; Some [seg]
                  else Some []
                else Some []);
         sel ← collect_lines e (startLine + 1) endLine sel;
         if endLine <? len (lines e) then
           line ← index (lines e) endLine;
           let lastLineRunes := line in
           if (endCol >? 0) && (endCol <=? len lastLineRunes) then
             seg ← slice_to lastLineRunes endCol; Some (sel ++ [seg])
           else Some sel
         else Some sel);
    Some (strings.Join selectedLines [LF]).

Definition deleteSelection (e : Editor) : option Editor :=
  if negb (selecting e) then Some e
  else
    let e := pushUndo e in
    '(startLine, startCol, endLine, endCol) ← getSelectionRange e;
    let startLine := if startLine <? 0 then 0 else startLine in
    let endLine := if endLine >=? len (lines e) then len (lines e) - 1 else endLine in
    let '(startLine, endLine) :=
      if startLine >? endLine then (endLine, startLine) else (startLine, endLine) in
    e ← (if lineSelecting e then
           ls ← cut_out (lines e) startLine (endLine + 1);
           let e := set_lines ls e in
           let e := set_cy startLine e in
           let e := if cy e >=? len (lines e) then set_cy (len (lines e) - 1) e else e in
           Some (if cy e <? 0 then set_cx 0 (set_cy 0 e) else set_cx 0 e)
         else if startLine =? endLine then
           if (startLine >=? 0) && (startLine <? len (lines e)) then
             line ← index (lines e) startLine;
             let lineRunes := line in
             let startCol := if startCol <? 0 then 0 else startCol in
             let endCol := if endCol >? len lineRunes then len lineRunes else endCol in
             e ← (if startCol <? endCol then
                    lineRunes ← cut_out lineRunes startCol endCol;
                    ls ← store (lines e) startLine lineRunes;
                    Some (set_lines ls e)
                  else Some e);
             let e := set_cx startCol e in
             Some (set_cy startLine e)
           else Some e
         else
           if (startLine >=? 0) && (startLine <? len (lines e))
              && (endLine >=? 0) && (endLine <? len (lines e)) then
             firstLineRunes ← index (lines e) startLine;
             lastLineRunes ← index (lines e) endLine;
             let startCol := if startCol <? 0 then 0 else startCol in
             let endCol := if endCol >? len lastLineRunes then len lastLineRunes else endCol in
             e ← (if (startCol <=? len firstLineRunes) && (endCol <=? len lastLineRunes) then
                    before ← slice_to firstLineRunes startCol;
                    after ← slice_from lastLineRunes endCol;
                    let merged := before ++ after in
                    above ← slice_to (lines e) startLine;
                    below ← slice_from (lines e) (endLine + 1);
                    Some (set_lines (above ++ [merged] ++ below) e)
                  else Some e);
             let e := set_cy startLine e in
             Some (set_cx startCol e)
           else Some e);
    let e := endSelection e in
    let e := set_dirty true e in
    let e := set_redoStack [] e in
    let e := if cy e <? 0 then set_cy 0 e else e in
    let e :=
      if cy e >=? len (lines e) then
        let e := set_cy (len (lines e) - 1) e in
        if cy e <? 0 then set_cy 0 e else e
      else e in
    let e := if cx e <? 0 then set_cx 0 e else e in
    if cy e <? len (lines e) then
      line ← index (lines e) (cy e);
      let lineRunes := line in
      Some (if cx e >? len lineRunes then set_cx (len lineRunes) e else e)
    else Some e.

(** *** canvas.go: the canvases *)

Definition syncCanvasToEditor (e : Editor) : Editor :=
  match canvases e !! currentCanvas e with
  | None => e
  | Some canvas =>
      let e := set_filename (Canvas.filename canvas) e in
      let e := set_lines (Canvas.lines canvas) e in
      let e := set_cx (Canvas.cx canvas) e in
      let e := set_cy (Canvas.cy canvas) e in
      let e := set_offsetX (Canvas.offsetX canvas) e in
      let e := set_offsetY (Canvas.offsetY canvas) e in
      let e := set_dirty (Canvas.dirty canvas) e in
      let e := set_language (Canvas.language canvas) e in
      let e := set_undoStack (Canvas.undoStack canvas) e in
      set_redoStack (Canvas.redoStack canvas) e
  end.

Definition syncEditorToCanvas (e : Editor) : Editor :=
  match canvases e !! currentCanvas e with
  | None => e
  | Some _ =>
      let canvas :=
        {| Canvas.filename := filename e; Canvas.lines := lines e;
           Canvas.cx := cx e; Canvas.cy := cy e;
           Canvas.offsetX := offsetX e; Canvas.offsetY := offsetY e;
           Canvas.dirty := dirty e; Canvas.language := language e;
           Canvas.undoStack := undoStack e; Canvas.redoStack := redoStack e |} in
      set_canvases (<[currentCanvas e := canvas]> (canvases e)) e
  end.

(** The loop of [switchToNextCanvas] that looks for the next occupied
    slot; [n] counts the iterations left. *)
Fixpoint next_occupied (n : nat) (cs : gmap Z Canvas.t) (nextCanvas : Z) : Z :=
  match n with
  | O => nextCanvas
  | S n' =>
      if decide (is_Some (cs !! nextCanvas)) then nextCanvas
      else
        let nextCanvas := nextCanvas + 1 in
        let nextCanvas := if nextCanvas >? MaxCanvases then 1 else nextCanvas in
        next_occupied n' cs nextCanvas
  end.

Definition switchToNextCanvas (e : Editor) : option Editor :=
  let e := syncEditorToCanvas e in
  let nextCanvas := currentCanvas e + 1 in
  let nextCanvas := if nextCanvas >? MaxCanvases then 1 else nextCanvas in
  let nextCanvas := next_occupied (Z.to_nat MaxCanvases) (canvases e) nextCanvas in
  if decide (is_Some (canvases e !! nextCanvas)) then
    let e := set_currentCanvas nextCanvas e in
    let e := syncCanvasToEditor e in
    ensureVisible e
  else Some e.

(** The loop of [createNewCanvas] that looks for the first free slot
    among [i, i+1, ..., MaxCanvases]; slot 1 when there is none. *)
Fixpoint first_free (n : nat) (cs : gmap Z Canvas.t) (i : Z) : Z :=
  match n with
  | O => 1
  | S n' => if decide (is_Some (cs !! i)) then first_free n' cs (i + 1) else i
  end.

Definition createNewCanvas (e : Editor) : option Editor :=
  if Z.of_nat (size (canvases e)) >=? MaxCanvases then Some e
  else
    let e := syncEditorToCanvas e in
    let newCanvasNum := first_free (Z.to_nat MaxCanvases) (canvases e) 1 in
    let canvas :=
      {| Canvas.filename := []; Canvas.lines := [[]]; Canvas.cx := 0; Canvas.cy := 0;
         Canvas.offsetX := 0; Canvas.offsetY := 0; Canvas.dirty := false;
         Canvas.language := LangUnknown;
         Canvas.undoStack := []; Canvas.redoStack := [] |} in
    let e := set_canvases (<[newCanvasNum := canvas]> (canvases e)) e in
    let e := set_currentCanvas newCanvasNum e in
    let e := syncCanvasToEditor e in
    ensureVisible e.


(** *** Loading and saving *)

(** [persist].  Both branches of the source build the same content and
    differ only in the path written to; [writeOk] tells whether the path
    checks and [os.WriteFile] succeeded.  The result holds the content
    handed to [os.WriteFile] when the call returned no error. *)
Definition persist (writeOk : bool) (e : Editor) : Editor * option gostring :=
  let content := strings.Join (lines e) [LF] in
  if writeOk then (set_dirty false e, Some content) else (e, None).

(** [save]; with no file name it only opens the "Save as" prompt. *)
Definition save (writeOk : bool) (e : Editor) : Editor * option gostring :=
  if len (filename e) =? 0 then (e, None)
  else
    let '(e, written) := persist writeOk e in
    match written with
    | Some _ => (syncEditorToCanvas e, written)
    | None => (e, written)
    end.

(** [openFile]; [data] is the result of [os.ReadFile] on the resolved
    [path] and [detected] the value of [detectLanguage(path)]. *)
Definition openFile (path : gostring) (data : option gostring) (detected : Language)
    (e : Editor) : option Editor :=
  match data with
  | None => Some e
  | Some content =>
      let content := strings.ReplaceAll content [CR; LF] [LF] in
      let e := set_filename path e in
      let e := set_lines (strings.Split content LF) e in
      let e := set_language detected e in
      let e := set_cy 0 (set_cx 0 e) in
      let e := set_offsetY 0 (set_offsetX 0 e) in
      let e := set_dirty false e in
      let e := set_undoStack [] e in
      let e := set_redoStack [] e in
      e ← ensureVisible e;
      Some (syncEditorToCanvas e)
  end.

(** [NewEditor]; the file is read twice, [read1] for the first canvas
    and [read2] for the editor itself.  A second read that fails assigns
    the lines only: the language stays the one [syncCanvasToEditor] took
    from the canvas. *)
Definition NewEditor (path : gostring) (read1 read2 : option gostring)
    (detected : Language) : Editor :=
  let loaded (read : option gostring) : list gostring * Language :=
    if len path =? 0 then ([[]], LangUnknown)
    else match read with
         | Some content =>
             let content := strings.ReplaceAll content [CR; LF] [LF] in
             (strings.Split content LF, detected)
         | None => ([[]], LangUnknown)
         end in
  let canvas :=
    {| Canvas.filename := path; Canvas.lines := fst (loaded read1);
       Canvas.cx := 0; Canvas.cy := 0; Canvas.offsetX := 0; Canvas.offsetY := 0;
       Canvas.dirty := false; Canvas.language := snd (loaded read1);
       Canvas.undoStack := []; Canvas.redoStack := [] |} in
  let e :=
    {| filename := path; lines := [[]]; cx := 0; cy := 0; offsetX := 0; offsetY := 0;
       dirty := false; clipboard := []; height := 0; contentWidth := 0;
       contentHeight := 0; language := LangUnknown; selectAllBeforeLLM := false;
       ctrlAState := false; ctrlLState := false; selectStartX := 0; selectStartY := 0;
       selecting := false; lineSelecting := false; lastSearch := [];
       undoStack := []; redoStack := []; canvases := {[ 1 := canvas ]};
       currentCanvas := 1 |} in
  let e := syncCanvasToEditor e in
  let e := set_contentWidth 115 e in
  let e := set_contentHeight 35 e in
  let e := set_height (contentHeight e) e in
  let e :=
    if len path =? 0 then e
    else match read2 with
         | Some content =>
             let content := strings.ReplaceAll content [CR; LF] [LF] in
             let e := set_lines (strings.Split content LF) e in
             set_language detected e
         | None => set_lines [[]] e
         end in
  let e := set_cy 0 (set_cx 0 e) in
  set_offsetY 0 (set_offsetX 0 e).






(** [refreshSize]; [w] and [h] are the result of [screen.Size()]. *)
Definition refreshSize (w h : Z) (e : Editor) : option Editor :=
  let w := if w <=? 0 then 1 else w in
  let h := if h <=? 0 then 1 else h in
  let w := if w >? 115 then 115 else w in
  let e := set_contentWidth w e in
  let e := set_contentHeight h e in
  let e := set_height (contentHeight e) e in
  let e := if height e <=? 0 then set_height 1 e else e in
  '(_, _, _, e) ← cursorDisplayPosition e;
  Some e.

(** *** Key dispatch *)

Definition shouldAutoCloseBracket (openBracket : rune) (e : Editor) : option bool :=
  if (cy e <? 0) || (cy e >=? len (lines e)) then Some false
  else
    line ← index (lines e) (cy e);
    let runes := line in
    if cx e >=? len runes then Some true
    else
      nextChar ← index runes (cx e);
      Some ((nextChar =? SPACE) || (nextChar =? TAB)
            || (nextChar =? ch ")") || (nextChar =? ch "]") || (nextChar =? ch "}")
            || (nextChar =? ch ";") || (nextChar =? ch ",") || (nextChar =? ch ":")).

Definition getClosingBracket (openBracket : rune) : rune :=
  if openBracket =? ch "(" then ch ")"
  else if openBracket =? ch "[" then ch "]"
  else if openBracket =? ch "{" then ch "}"
  else if openBracket =? DQUOTE then DQUOTE
  else if openBracket =? SQUOTE then SQUOTE
  else 0.

(** The table [languageTerminators]; [LangUnknown] has no entry. *)
Definition languageTerminators (lang : Language) : option gostring :=
  match lang with
  | LangC | LangCpp => Some [ch ";"]
  | LangPython => Some [ch ":"]
  | LangUnknown => None
  | _ => Some []
  end.

(** The keys of [handleKey] that the model covers. *)
Inductive KeyCode :=
  | KeyRune | KeyTab | KeyCtrlA | KeyCtrlB | KeyCtrlC | KeyCtrlE | KeyCtrlN | KeyCtrlS
  | KeyCtrlV | KeyCtrlX | KeyCtrlZ | KeyUp | KeyDown | KeyLeft | KeyRight | KeyHome
  | KeyEnd | KeyPgUp | KeyPgDn | KeyEnter | KeyBackspace | KeyEscape.

(** A [tcell.EventKey]. *)
Record EventKey := {
  Key : KeyCode;
  Rune : rune;
  ModShift : bool;
  ModAlt : bool
}.

(** What the outside world answers while one key is handled: the
    clipboard, the file system, and the three completion queries of the
    Tab key ([findKeywordCompletion], [findIdentifierCompletion] and
    [isAtEndOfIncompleteStatement], which read the language tables and
    leave the editor unchanged). *)
Record Env := {
  clipboardRead : option gostring;
  clipboardWriteOk : bool;
  writeFileOk : bool;
  keywordCompletion : gostring;
  identifierCompletion : gostring;
  incompleteStatement : bool
}.

(** How a [case] of the big [switch] ends: it falls out of the switch,
    to the [ensureVisible] that closes [handleKey], or it returns. *)
Inductive Flow :=
  | Continue (e : Editor)
  | Return (e : Editor).

Definition clear_ctrl (e : Editor) : Editor :=
  set_ctrlLState false (set_ctrlAState false e).

(** [if shiftPressed { start() } else if e.selecting { e.endSelection() }] *)
Definition shift_selection (shiftPressed : bool) (start : Editor → Editor)
    (e : Editor) : Editor :=
  if shiftPressed then start e
  else if selecting e then endSelection e
  else e.

Definition handleKey (env : Env) (ev : EventKey) (e : Editor) : option Editor :=
  let shiftPressed := ModShift ev in
  if (Rune ev =? TAB) || (match Key ev with KeyTab => true | _ => false end) then
    let completion := keywordCompletion env in
    if negb (len completion =? 0) then insertTextAtCursor completion e
    else
      let completion := identifierCompletion env in
      if negb (len completion =? 0) then insertTextAtCursor completion e
      else
        match (if incompleteStatement env then languageTerminators (language e)
               else None) with
        | Some (c :: terminator) => insertTextAtCursor (c :: terminator) e
        | _ => insertRune TAB e
        end
  else
    match Key ev with
    | KeyCtrlB =>
        e ← switchToNextCanvas e;
        Some (endSelection (clear_ctrl e))
    | key =>
        flow ←
          match key with
          | KeyCtrlN =>
              e ← createNewCanvas e;
              Some (Continue (endSelection (clear_ctrl e)))
          | KeyCtrlA =>
              e ← (if negb (selecting e) then
                     let e := set_selecting true e in
                     let e := set_selectStartX 0 e in
                     let e := set_selectStartY 0 e in
                     let e := set_cy (len (lines e) - 1) e in
                     let e := if cy e <? 0 then set_cy 0 e else e in
                     lastLine ← (if len (lines e) >? 0 then index (lines e) (cy e)
                                 else Some []);
                     let e := set_cx (len lastLine) e in
                     ensureVisible e
                   else Some e);
              Some (Continue (set_selectAllBeforeLLM true (set_ctrlAState true e)))
          | KeyCtrlS =>
              let '(e, _) := save (writeFileOk env) e in
              Some (Continue (clear_ctrl e))
          | KeyCtrlZ =>
              e ← undo e;
              Some (Continue (endSelection (clear_ctrl e)))
          | KeyCtrlE =>
              e ← redo e;
              Some (Continue (endSelection (clear_ctrl e)))
          | KeyCtrlX =>
              e ← (if selecting e then
                     selectedText ← getSelectedText e;
                     if negb (len selectedText =? 0) then
                       if clipboardWriteOk env then deleteSelection e else Some e
                     else Some e
                   else cutLine e);
              Some (Continue (clear_ctrl e))
          | KeyCtrlC =>
              e ← (if selecting e then
                     selectedText ← getSelectedText e;
                     Some (if negb (len selectedText =? 0)
                           then set_clipboard selectedText e else e)
                   else
                     curLine ← index (lines e) (cy e);
                     Some (if negb (len curLine =? 0) then set_clipboard curLine e else e));
              Some (Continue (clear_ctrl e))
          | KeyCtrlV =>
              e ← (if selecting e then deleteSelection e else Some e);
              e ← pasteFromClipboard (clipboardRead env) e;
              Some (Continue (clear_ctrl e))
          | KeyUp =>
              e ← (if cy e >? 0 then
                     let e := set_cy (cy e - 1) e in
                     curRunes ← index (lines e) (cy e);
                     Some (if cx e >? len curRunes then set_cx (len curRunes) e else e)
                   else Some e);
              e ← ensureVisible e;
              Some (Continue (clear_ctrl e))
          | KeyDown =>
              e ← (if cy e <? len (lines e) - 1 then
                     let e := set_cy (cy e + 1) e in
                     curRunes ← index (lines e) (cy e);
                     Some (if cx e >? len curRunes then set_cx (len curRunes) e else e)
                   else Some e);
              e ← ensureVisible e;
              Some (Continue (clear_ctrl e))
          | KeyLeft =>
              e ← (if cx e >? 0 then
                     let e := shift_selection shiftPressed startLineSelection e in
                     Some (set_cx (cx e - 1) e)
                   else if cy e >? 0 then
                     let e := shift_selection shiftPressed startLineSelection e in
                     let e := set_cy (cy e - 1) e in
                     prevRunes ← index (lines e) (cy e);
                     let e := set_cx (len prevRunes) e in
                     ensureVisible e
                   else if selecting e then Some (endSelection e)
                   else Some e);
              Some (Continue (clear_ctrl e))
          | KeyRight =>
              lineRunes ← index (lines e) (cy e);
              let lineLen := len lineRunes in
              e ← (if cx e <? lineLen then
                     let e := shift_selection shiftPressed startSelection e in
                     Some (set_cx (cx e + 1) e)
                   else if cy e <? len (lines e) - 1 then
                     let e := shift_selection shiftPressed startSelection e in
                     let e := set_cy (cy e + 1) e in
                     let e := set_cx 0 e in
                     ensureVisible e
                   else if selecting e then Some (endSelection e)
                   else Some e);
              Some (Continue (clear_ctrl e))
          | KeyHome =>
              let e := shift_selection shiftPressed startSelection e in
              let e := set_cx 0 e in
              Some (Continue (clear_ctrl e))
          | KeyEnd =>
              let e := shift_selection shiftPressed startSelection e in
              lineRunes ← index (lines e) (cy e);
              let e := set_cx (len lineRunes) e in
              Some (Continue (clear_ctrl e))
          | KeyPgUp =>
              let e := shift_selection shiftPressed startSelection e in
              let step := height e - 1 in
              let e := set_offsetY (offsetY e - step) e in
              let e := if offsetY e <? 0 then set_offsetY 0 e else e in
              let e := set_cy (offsetY e) e in
              let e := if cy e >? len (lines e) - 1 then set_cy (len (lines e) - 1) e else e in
              Some (Continue (clear_ctrl e))
          | KeyPgDn =>
              let e := shift_selection shiftPressed startSelection e in
              let step := height e - 1 in
              let e := set_offsetY (offsetY e + step) e in
              let e :=
                if offsetY e >? len (lines e) - 1
                then set_offsetY (len (lines e) - 1) e else e in
              let e := set_cy (offsetY e) e in
              Some (Continue (clear_ctrl e))
          | KeyEnter =>
              e ← (if selecting e then deleteSelection e else Some e);
              e ← newline e;
              Some (Continue (clear_ctrl e))
          | KeyBackspace =>
              if negb (len (lastSearch e) =? 0) && (cx e =? 0) && (cy e =? 0)
                 && negb (selecting e) then
                Some (Return (set_lastSearch [] e))
              else
                e ← (if selecting e then deleteSelection e else backspace e);
                Some (Continue (clear_ctrl e))
          | KeyEscape =>
              let e := endSelection e in
              Some (Continue (clear_ctrl e))
          | _ =>
              (* default: *)
              let r := Rune ev in
              if negb (r =? 0) && negb (ModAlt ev) then
                e ← (if selecting e then deleteSelection e else Some e);
                let isOpener :=
                  (r =? ch "(") || (r =? ch "[") || (r =? ch "{")
                  || (r =? DQUOTE) || (r =? SQUOTE) in
                autoClose ← (if isOpener then shouldAutoCloseBracket r e else Some false);
                let closing := getClosingBracket r in
                if autoClose && negb (closing =? 0) then
                  e ← insertTextAtCursor [r; closing] e;
                  Some (Return (set_cx (cx e - 1) e))
                else
                  e ← insertRune r e;
                  Some (Continue (set_ctrlAState false e))
              else Some (Continue e)
          end;
        match flow with
        | Continue e => ensureVisible e
        | Return e => Some e
        end
    end.


(** *** brackets.go: bracket matching

    The three functions return [*BracketPair]; [None] is the nil result.
    Every index in them is guarded, so none of them panics. *)

(** What the scan of one line leaves: the column of the match, or the
    nesting counter at the end of the line. *)
Inductive Scan :=
  | Found (colIdx : Z)
  | Pending (nesting : Z).

(** The inner loop [for colIdx < len(runes)] of [findClosingBracket];
    [todo] is [runes[colIdx:]].  The bound check at the head of its body
    repeats the loop condition and never fires. *)
Fixpoint closing_in_line (todo : list rune) (colIdx nesting : Z)
    (opening closing : rune) : Scan :=
  match todo with
  | [] => Pending nesting
  | char :: todo' =>
      if char =? opening then
        closing_in_line todo' (colIdx + 1) (nesting + 1) opening closing
      else if char =? closing then
        let nesting := nesting - 1 in
        if nesting =? 0 then Found colIdx
        else closing_in_line todo' (colIdx + 1) nesting opening closing
      else closing_in_line todo' (colIdx + 1) nesting opening closing
  end.

(** The outer loop [for lineIdx < len(lines)]; [todoLines] is
    [lines[lineIdx:]]. *)
Fixpoint closing_in_lines (todoLines : list gostring) (lineIdx colIdx nesting : Z)
    (opening closing : rune) : option (Z * Z) :=
  match todoLines with
  | [] => None
  | line :: todoLines' =>
      let runes := line in
      match closing_in_line (drop (Z.to_nat colIdx) runes) colIdx nesting
              opening closing with
      | Found col => Some (lineIdx, col)
      | Pending nesting =>
          closing_in_lines todoLines' (lineIdx + 1) 0 nesting opening closing
      end
  end.

Definition findClosingBracket (e : Editor) (startLine startCol : Z)
    (opening closing : rune) : option BracketPair :=
  if (startLine <? 0) || (startLine >=? len (lines e)) then None
  else
    let runes := default [] (index (lines e) startLine) in
    if (startCol <? 0) || (startCol >=? len runes) then None
    else
      match closing_in_lines (drop (Z.to_nat startLine) (lines e)) startLine
              (startCol + 1) 1 opening closing with
      | Some (lineIdx, colIdx) =>
          Some {| OpenLine := startLine; OpenCol := startCol;
                  CloseLine := lineIdx; CloseCol := colIdx |}
      | None => None
      end.

(** How the inner loop of [findOpeningBracket] ends: with the [return]
    of a pair, or by leaving the loop with the current indices. *)
Inductive BackScan :=
  | BackFound (lineIdx colIdx : Z)
  | BackExit (lineIdx colIdx nesting : Z).

(** The inner loop [for colIdx >= 0] of [findOpeningBracket].  [runes]
    stays the line the outer iteration started on, also after the loop
    has stepped [lineIdx] back.  [fuel] bounds the iterations; [None]
    means it ran out. *)
Fixpoint opening_in_line (fuel : nat) (ls : list gostring) (runes : list rune)
    (lineIdx colIdx nesting : Z) (opening closing : rune) : option BackScan :=
  match fuel with
  | O => None
  | S fuel' =>
      if colIdx >=? 0 then
        if (colIdx <? 0) || (colIdx >=? len runes) then
          Some (BackExit lineIdx colIdx nesting)
        else
          let char := default 0 (index runes colIdx) in
          let nesting :=
            if char =? closing then nesting + 1
            else if char =? opening then nesting - 1
            else nesting in
          if negb (char =? closing) && (char =? opening) && (nesting =? 0) then
            Some (BackFound lineIdx colIdx)
          else
            let colIdx := colIdx - 1 in
            if (colIdx <? 0) && (lineIdx >? 0) then
              let lineIdx := lineIdx - 1 in
              if (lineIdx >=? 0) && (lineIdx <? len ls) then
                let colIdx := len (default [] (index ls lineIdx)) - 1 in
                opening_in_line fuel' ls runes lineIdx colIdx nesting opening closing
              else Some (BackExit lineIdx colIdx nesting)
            else opening_in_line fuel' ls runes lineIdx colIdx nesting opening closing
      else Some (BackExit lineIdx colIdx nesting)
  end.

(** The outer loop [for lineIdx >= 0] of [findOpeningBracket]; the inner
    loop gets the fuel that is left.  The result is [Some None] for the
    nil pair and [None] when the fuel ran out. *)
Fixpoint opening_in_lines (fuel : nat) (ls : list gostring)
    (lineIdx colIdx nesting : Z) (opening closing : rune) : option (option (Z * Z)) :=
  match fuel with
  | O => None
  | S fuel' =>
      if lineIdx >=? 0 then
        if (lineIdx <? 0) || (lineIdx >=? len ls) then Some None
        else
          let runes := default [] (index ls lineIdx) in
          if colIdx <? 0 then
            let lineIdx := lineIdx - 1 in
            let colIdx :=
              if (lineIdx >=? 0) && (lineIdx <? len ls)
              then len (default [] (index ls lineIdx)) - 1 else colIdx in
            opening_in_lines fuel' ls lineIdx colIdx nesting opening closing
          else
            scan ← opening_in_line fuel' ls runes lineIdx colIdx nesting opening closing;
            match scan with
            | BackFound l c => Some (Some (l, c))
            | BackExit lineIdx colIdx nesting =>
                let lineIdx := lineIdx - 1 in
                let colIdx :=
                  if (lineIdx >=? 0) && (lineIdx <? len ls)
                  then len (default [] (index ls lineIdx)) - 1 else colIdx in
                opening_in_lines fuel' ls lineIdx colIdx nesting opening closing
            end
      else Some None
  end.

Definition findOpeningBracket (fuel : nat) (e : Editor) (startLine startCol : Z)
    (opening closing : rune) : option (option BracketPair) :=
  if (startLine <? 0) || (startLine >=? len (lines e)) then Some None
  else
    let runes := default [] (index (lines e) startLine) in
    if (startCol <? 0) || (startCol >=? len runes) then Some None
    else
      found ← opening_in_lines fuel (lines e) startLine (startCol - 1) 1 opening closing;
      match found with
      | Some (lineIdx, colIdx) =>
          Some (Some {| OpenLine := lineIdx; OpenCol := colIdx;
                        CloseLine := startLine; CloseCol := startCol |})
      | None => Some None
      end.

(** The maps [openBrackets] and [closeBrackets]. *)
Definition openBrackets (char : rune) : option rune :=
  if char =? ch "(" then Some (ch ")")
  else if char =? ch "[" then Some (ch "]")
  else if char =? ch "{" then Some (ch "}")
  else None.

Definition closeBrackets (char : rune) : option rune :=
  if char =? ch ")" then Some (ch "(")
  else if char =? ch "]" then Some (ch "[")
  else if char =? ch "}" then Some (ch "{")
  else None.

(** [findMatchingBracket].  [fuel] bounds the backward scan; the result
    is [None] only when it ran out, [Some None] for the nil pair. *)
Definition findMatchingBracket (fuel : nat) (e : Editor) (lineIdx colIdx : Z)
    : option (option BracketPair) :=
  if (lineIdx <? 0) || (lineIdx >=? len (lines e)) then Some None
  else
    let line := default [] (index (lines e) lineIdx) in
    if (colIdx <? 0) || (colIdx >=? len line) then Some None
    else
      let runes := line in
      let char := default 0 (index runes colIdx) in
      match openBrackets char with
      | Some closing => Some (findClosingBracket e lineIdx colIdx char closing)
      | None =>
          match closeBrackets char with
          | Some opening => findOpeningBracket fuel e lineIdx colIdx opening char
          | None => Some None
          end
      end.

(** [getBracketAtCursor] *)
Definition getBracketAtCursor (fuel : nat) (e : Editor) : option (option BracketPair) :=
  if (cy e <? 0) || (cy e >=? len (lines e)) then Some None
  else
    let runes := default [] (index (lines e) (cy e)) in
    first ← (if (cx e >=? 0) && (cx e <? len runes)
             then findMatchingBracket fuel e (cy e) (cx e) else Some None);
    match first with
    | Some bp => Some (Some bp)
    | None =>
        if (cx e >? 0) && (cx e <=? len runes)
        then findMatchingBracket fuel e (cy e) (cx e - 1)
        else Some None
    end.

End Operations.

(** ** The dispatch loop and its invariant *)

(** What [Run] feeds the editor between two renderings: a key, a resize
    of the terminal, or the callback of the search prompt and of the
    open-file prompt (both run from the key handler of the prompt). *)
Inductive Event :=
  | EvKey (env : Env) (ev : EventKey)
  | EvResize (w h : Z)
  | EvSearch (query : gostring)
  | EvOpen (path : gostring) (data : option gostring) (detected : Language).

Section Dispatch.
Context `{runewidth.Table}.

Definition step (ev : Event) (e : Editor) : option Editor :=
  match ev with
  | EvKey env key => handleKey env key e
  | EvResize w h => refreshSize w h e
  | EvSearch query => findAndJump query e
  | EvOpen path data detected => openFile path data detected e
  end.

(** The states of the loop: the editor [NewEditor] builds, and every
    state an event leads to without a panic. *)
Inductive reachable : Editor → Prop :=
  | reachable_new path read1 read2 detected :
      reachable (NewEditor path read1 read2 detected)
  | reachable_step e ev e' :
      reachable e → step ev e = Some e' → reachable e'.

End Dispatch.

(** The buffer invariant of the data model: the document has a line, the
    cursor is on a line of the document and within that line. *)
Definition cursor_in_document (e : Editor) : Prop :=
  1 ≤ len (lines e)
  ∧ (0 ≤ cy e ∧ cy e < len (lines e))
  ∧ ∃ line, index (lines e) (cy e) = Some line ∧ 0 ≤ cx e ∧ cx e ≤ len line.

(** ** Edit operations and the history *)

(** The state a snapshot records. *)
Definition snapshot (e : Editor) : EditorState :=
  {| Lines := lines e; Cx := cx e; Cy := cy e |}.


Section Edits.
Context `{runewidth.Table}.






End Edits.

(** ** Relations between states used in the statements *)

(** Two states with the same history and dirty flag. *)
Definition same_history (e e' : Editor) : Prop :=
  undoStack e' = undoStack e ∧ redoStack e' = redoStack e ∧ dirty e' = dirty e.

(** After [pushUndo] and any change that leaves the history alone, the
    undo stack has grown by the snapshot and the redo stack is empty. *)
Definition edited (e e' : Editor) : Prop :=
  undoStack e' = undoStack e ++ [snapshot e] ∧ redoStack e' = [] ∧ dirty e' = true.

(** A snapshot whose cursor lies in its own document. *)
Definition snapshot_ok (s : EditorState) : Prop :=
  ∃ line, index (Lines s) (Cy s) = Some line ∧ 0 ≤ Cx s ∧ Cx s ≤ len line.

(** ** Concrete inputs for the examples *)

(** A table that gives every rune one cell, as go-runewidth does for the
    printable ASCII runes. *)
Definition one_cell : runewidth.Table := λ _, 1.

(** An environment in which the clipboard and the file system work and
    the Tab completions find nothing. *)
Definition quiet_env : Env :=
  {| clipboardRead := Some []; clipboardWriteOk := true; writeFileOk := true;
     keywordCompletion := []; identifierCompletion := [];
     incompleteStatement := false |}.

Definition plain_key (k : KeyCode) : Event :=
  EvKey quiet_env {| Key := k; Rune := 0; ModShift := false; ModAlt := false |}.

Definition shift_key (k : KeyCode) : Event :=
  EvKey quiet_env {| Key := k; Rune := 0; ModShift := true; ModAlt := false |}.

Definition rune_key (r : rune) : Event :=
  EvKey quiet_env {| Key := KeyRune; Rune := r; ModShift := false; ModAlt := false |}.

(** The editor started on a file named [f] with the given content. *)
Definition editor_on (content : gostring) : Editor :=
  NewEditor (str "f") (Some content) (Some content) LangUnknown.

Section Runs.
Context `{runewidth.Table}.

(** The events handled one after the other. *)
Fixpoint run (evs : list Event) (e : Editor) : option Editor :=
  match evs with
  | [] => Some e
  | ev :: evs' => e' ← step ev e; run evs' e'
  end.

End Runs.

(** ** Wrapping and bracket matching as the specification words them

    These definitions follow the sentences of the specification, not the
    code; the properties below compare the code with them. *)

(** The cells a rune takes at column [col] of its segment: a tab goes to
    the next multiple of 4, any other rune takes its display width. *)
Definition spec_cells (cells : rune → Z) (col : Z) (r : rune) : Z :=
  if r =? TAB then 4 - col `mod` 4 else cells r.

(** Greedy wrapping at [W] cells: [segment] is the open segment and
    [width] its width in cells.  A rune that would make the width exceed
    [W] closes a non-empty segment and opens the next one. *)
Fixpoint spec_wrap (cells : rune → Z) (W : Z) (todo segment : list rune) (width : Z)
    : list gostring :=
  match todo with
  | [] => [segment]
  | r :: todo' =>
      if (width + spec_cells cells width r >? W) && (0 <? len segment) then
        segment :: spec_wrap cells W todo' [r] (spec_cells cells 0 r)
      else
        spec_wrap cells W todo' (segment ++ [r]) (width + spec_cells cells width r)
  end.

Definition spec_wrapLine (cells : rune → Z) (W : Z) (line : gostring) : list gostring :=
  spec_wrap cells W line [] 0.

(** The runes of a line from column [colIdx] on, with their positions. *)
Fixpoint line_positions (lineIdx colIdx : Z) (runes : list rune) : list (Z * Z * rune) :=
  match runes with
  | [] => []
  | r :: runes' => (lineIdx, colIdx, r) :: line_positions lineIdx (colIdx + 1) runes'
  end.

(** The runes of the lines [ls], the first of which is line [lineIdx]. *)
Fixpoint doc_positions (lineIdx : Z) (ls : list gostring) : list (Z * Z * rune) :=
  match ls with
  | [] => []
  | line :: ls' => line_positions lineIdx 0 line ++ doc_positions (lineIdx + 1) ls'
  end.

(** The runes that follow position [(startLine, startCol)], in document
    order, across the line boundaries. *)
Definition positions_after (ls : list gostring) (startLine startCol : Z)
    : list (Z * Z * rune) :=
  match drop (Z.to_nat startLine) ls with
  | [] => []
  | line :: below =>
      line_positions startLine (startCol + 1) (drop (Z.to_nat (startCol + 1)) line)
      ++ doc_positions (startLine + 1) below
  end.

(** The nesting counter after one more rune. *)
Definition count_bracket (opening closing : rune) (nesting : Z) (r : rune) : Z :=
  if r =? opening then nesting + 1
  else if r =? closing then nesting - 1
  else nesting.

(** The first position at which the counter reaches 0, if any. *)
Fixpoint first_balanced (opening closing : rune) (nesting : Z)
    (ps : list (Z * Z * rune)) : option (Z * Z) :=
  match ps with
  | [] => None
  | (lineIdx, colIdx, r) :: ps' =>
      let nesting := count_bracket opening closing nesting r in
      if nesting =? 0 then Some (lineIdx, colIdx)
      else first_balanced opening closing nesting ps'
  end.

(** ** More relations between states *)

(** [e'] differs from [e] at most in the cursor and in the scroll
    offset. *)
Definition same_text (e e' : Editor) : Prop :=
  set_offsetY 0 (set_cx 0 (set_cy 0 e')) = set_offsetY 0 (set_cx 0 (set_cy 0 e)).


(** * Properties *)

(** ** Slices and loops *)

Lemma len_nonneg {A} (l : list A) : 0 ≤ len l.
Proof. unfold len. lia. Qed.

Lemma len_nil {A} : len (@nil A) = 0.
Proof. reflexivity. Qed.

Lemma len_cons {A} (x : A) l : len (x :: l) = len l + 1.
Proof. unfold len. simpl. lia. Qed.

Lemma len_app {A} (l1 l2 : list A) : len (l1 ++ l2) = len l1 + len l2.
Proof. unfold len. rewrite length_app. lia. Qed.

Lemma slice_Some {A} (l : list A) lo hi :
  0 ≤ lo → lo ≤ hi → hi ≤ len l →
  slice l lo hi = Some (take (Z.to_nat (hi - lo)) (drop (Z.to_nat lo) l)).
Proof. intros. unfold slice. rewrite decide_True; [done | lia]. Qed.

Lemma slice_glue {A} (l : list A) lo hi :
  0 ≤ lo → lo ≤ hi → hi ≤ len l →
  take (Z.to_nat (hi - lo)) (drop (Z.to_nat lo) l) ++ drop (Z.to_nat hi) l
  = drop (Z.to_nat lo) l.
Proof.
  intros Hlo Hhi Hlen.
  replace (Z.to_nat hi) with (Z.to_nat lo + Z.to_nat (hi - lo))%nat by lia.
  rewrite <- drop_drop. apply take_drop.
Qed.

(** ** wrapLine *)

Lemma wrapLine_range_glue e runes todo : ∀ i parts cw start,
  0 ≤ start → start ≤ i → todo = drop (Z.to_nat i) runes → i ≤ len runes →
  ∃ parts' start',
    wrapLine_range e runes todo i parts cw start = Some (parts', start')
    ∧ 0 ≤ start' ∧ start' ≤ len runes
    ∧ concat parts' ++ drop (Z.to_nat start') runes
      = concat parts ++ drop (Z.to_nat start) runes.
Proof.
  induction todo as [|r todo IH]; intros i parts cw start Hs Hi Htodo Hlen; simpl.
  - exists parts, start. repeat split; try done. lia.
  - assert (Hi1 : i + 1 ≤ len runes).
    { assert (length (drop (Z.to_nat i) runes) = S (length todo)) as Hl
        by (rewrite <- Htodo; done).
      rewrite length_drop in Hl. unfold len. lia. }
    assert (Htodo' : todo = drop (Z.to_nat (i + 1)) runes).
    { replace (Z.to_nat (i + 1)) with (S (Z.to_nat i)) by lia.
      change (S (Z.to_nat i)) with (1 + Z.to_nat i)%nat.
      rewrite Nat.add_comm, <- drop_drop, <- Htodo. done. }
    match goal with |- context [if ?c then _ else _] => destruct c eqn:Hc end.
    + rewrite slice_Some by lia. simpl.
      destruct (IH (i + 1) (parts ++ [take (Z.to_nat (i - start)) (drop (Z.to_nat start) runes)])
                  (if r =? TAB then 4 - Z.rem cw 4
                   else if unicode.IsSpace r then 1 else utf8.RuneLen r) i)
        as (parts' & start' & Heq & H0 & H1 & Hcat); try lia; try done.
      exists parts', start'. repeat split; try done.
      rewrite Hcat, concat_app. simpl. rewrite app_nil_r, <- app_assoc.
      f_equal. apply slice_glue; lia.
    + destruct (IH (i + 1) parts
                  (cw + (if r =? TAB then 4 - Z.rem cw 4
                         else if unicode.IsSpace r then 1 else utf8.RuneLen r)) start)
        as (parts' & start' & Heq & H0 & H1 & Hcat); try lia; try done.
      exists parts', start'. repeat split; done.
Qed.

(** C3.  Concatenating the segments of [wrapLine], in order, gives the
    line back, whatever the line and the content width; and the empty
    line is wrapped into exactly one segment, the empty string. *)
Theorem wrapLine_concat_roundtrip :
  (∀ (e : Editor) (line : gostring),
     ∃ segs, wrapLine e line = Some segs ∧ concat segs = line)
  ∧ (∀ e : Editor, wrapLine e [] = Some [[]]).
Proof.
  split; [|done].
  intros e line. unfold wrapLine.
  destruct (len line =? 0) eqn:Hl.
  - exists [[]]. split; [done|]. destruct line; [done|]. rewrite len_cons in Hl.
    pose proof (len_nonneg line). lia.
  - destruct (wrapLine_range_glue e line line 0 [] 0 0)
      as (parts & start & Heq & H0 & H1 & Hcat); try lia; try done.
    { apply len_nonneg. }
    rewrite Heq. simpl. unfold slice_from. rewrite slice_Some by lia. simpl.
    eexists. split; [done|].
    rewrite concat_app. simpl. rewrite app_nil_r.
    rewrite take_ge by (rewrite length_drop; unfold len; lia).
    rewrite Hcat. done.
Qed.


(** ** Tactics for the comparisons of the model *)

Ltac zbool :=
  rewrite ?Z.gtb_ltb, ?Z.geb_leb in *;
  repeat match goal with
  | H : (_ <? _) = true |- _ => apply Z.ltb_lt in H
  | H : (_ <? _) = false |- _ => apply Z.ltb_ge in H
  | H : (_ <=? _) = true |- _ => apply Z.leb_le in H
  | H : (_ <=? _) = false |- _ => apply Z.leb_gt in H
  | H : (_ =? _) = true |- _ => apply Z.eqb_eq in H
  | H : (_ =? _) = false |- _ => apply Z.eqb_neq in H
  | H : (_ && _) = true |- _ => apply andb_true_iff in H; destruct H
  | H : (_ || _) = false |- _ => apply orb_false_iff in H; destruct H
  | H : negb _ = true |- _ => apply negb_true_iff in H
  | H : negb _ = false |- _ => apply negb_false_iff in H
  end.

(** Splits on the first [if] of the goal. *)
Ltac split_if :=
  match goal with
  | |- context [if ?c then _ else _] => destruct c eqn:?
  end; zbool.

(** Splits on every [if] of the goal and of the hypotheses. *)
Ltac split_ifs :=
  repeat (match goal with
          | |- context [if ?c then _ else _] => destruct c eqn:?
          | H : context [if ?c then _ else _] |- _ => destruct c eqn:?
          end; zbool).

Ltac rec_eq e := destruct e; simpl in *; f_equal; first [done | lia].

Lemma len_zero_nil {A} (l : list A) : len l = 0 → l = [].
Proof. destruct l; [done|]. rewrite len_cons. pose proof (len_nonneg l). lia. Qed.

Lemma index_Some {A} (l : list A) i :
  0 ≤ i → i < len l → ∃ x, index l i = Some x.
Proof.
  intros H0 H1. unfold index. rewrite decide_True by done.
  apply lookup_lt_is_Some. unfold len in H1. lia.
Qed.

Lemma index_range {A} (l : list A) i x :
  index l i = Some x → 0 ≤ i ∧ i < len l.
Proof.
  unfold index. case_decide; [|done]. intros Hl.
  apply lookup_lt_Some in Hl. unfold len. lia.
Qed.

Lemma index_singleton {A} (x : A) : index [x] 0 = Some x.
Proof. reflexivity. Qed.

Lemma for_range_total {S} (body : Z → S → option S) n : ∀ i s,
  (∀ j s', i ≤ j → j < i + Z.of_nat n → is_Some (body j s')) →
  is_Some (for_range n i body s).
Proof.
  induction n as [|n IH]; intros i s Hb; simpl; [done|].
  destruct (Hb i s) as [s' Hs']; try lia. rewrite Hs'. simpl.
  apply IH. intros j s'' ? ?. apply Hb; lia.
Qed.

Lemma for_upto_total {S} (body : Z → S → option S) lo hi s :
  (∀ j s', lo ≤ j → j < hi → is_Some (body j s')) →
  is_Some (for_upto lo hi body s).
Proof.
  intros Hb. unfold for_upto. apply for_range_total.
  intros j s' ? ?. apply Hb; lia.
Qed.

Section Visibility.
Context `{runewidth.Table}.

(** ** The cursor stays visible: [cursorDisplayPosition] and [ensureVisible] *)

Lemma wrapLine_total e line : is_Some (wrapLine e line).
Proof.
  unfold wrapLine. destruct (len line =? 0) eqn:Hl; [done|].
  destruct (wrapLine_range_glue e line line 0 [] 0 0)
    as (parts & start & Heq & H0 & H1 & _); try lia; try done.
  { apply len_nonneg. }
  rewrite Heq. simpl. unfold slice_from. rewrite slice_Some by lia. done.
Qed.

Lemma wrapLine_nonempty e line segs : wrapLine e line = Some segs → 1 ≤ len segs.
Proof.
  unfold wrapLine. split_if.
  - intros [= <-]. done.
  - destruct (wrapLine_range _ _ _ _ _ _ _) as [[parts start]|]; simpl; [|done].
    destruct (slice_from line start); simpl; [|done].
    intros [= <-]. rewrite len_app. pose proof (len_nonneg parts).
    change (len [l]) with 1. lia.
Qed.

Lemma cells_upto_total segRunes n : n ≤ len segRunes → is_Some (cells_upto segRunes n).
Proof.
  intros Hn. unfold cells_upto. apply for_upto_total.
  intros j s Hj0 Hj1. unfold cells_step.
  destruct (index_Some segRunes j) as [r Hr]; [lia..|]. rewrite Hr. simpl.
  destruct (r =? TAB); done.
Qed.

Lemma cursor_segment_total cx totalBefore segs : ∀ segIndex segmentStartRune,
  is_Some (cursor_segment cx totalBefore segs segIndex segmentStartRune).
Proof.
  induction segs as [|seg segs IH]; intros segIndex start; simpl; [done|].
  split_if; [|apply IH].
  destruct (cells_upto_total seg (cx - start)) as [c Hc]; [lia|].
  rewrite Hc. done.
Qed.

Lemma cursor_in_document_intro e line :
  index (lines e) (cy e) = Some line → 0 ≤ cx e → cx e ≤ len line →
  cursor_in_document e.
Proof.
  intros Hl H0 H1. pose proof (index_range _ _ _ Hl).
  repeat split; try lia. exists line. done.
Qed.

(** The prologue of [cursorDisplayPosition] repairs any state and leaves
    a sound one alone. *)
Lemma cursor_clamp_spec e :
  ∃ e', cursor_clamp e = Some e' ∧ cursor_in_document e'
        ∧ contentWidth e' = contentWidth e
        ∧ (cursor_in_document e → e' = e).
Proof.
  unfold cursor_clamp.
  destruct (Z.eq_dec (len (lines e)) 0) as [Hz|Hnz].
  - pose proof (len_zero_nil _ Hz) as Hnil.
    assert (Hne : cursor_in_document e → False).
    { intros (Hlen & _). lia. }
    repeat (split_if; simpl in *; rewrite ?Hnil in *; rewrite ?len_nil in *; simpl in *; try lia).
    all: try discriminate.
    all: (eexists; split; [reflexivity|]; split;
        [ eapply cursor_in_document_intro; simpl; [reflexivity|done|done]
        | split; [done | intros; exfalso; auto ] ]).
  - pose proof (len_nonneg (lines e)) as Hlen.
    remember (if cy e <? 0 then 0
              else if len (lines e) <=? cy e then len (lines e) - 1 else cy e) as c eqn:Ec.
    assert (Hc : 0 ≤ c ∧ c < len (lines e)).
    { subst c. repeat split_if; lia. }
    destruct (index_Some (lines e) c) as [line Hline]; [lia..|].
    remember (if cx e <? 0 then 0 else cx e) as x eqn:Ex.
    remember (if len line <? x then len line else x) as x' eqn:Ex'.
    assert (Hx : 0 ≤ x' ∧ x' ≤ len line).
    { subst x' x. pose proof (len_nonneg line). repeat split_if; lia. }
    exists (set_cx x' (set_cy c e)).
    split; [|split; [|split]].
    + subst c x x'.
      repeat (split_if; simpl in *; try lia).
      all: rewrite ?Hline; simpl.
      all: repeat (split_if; simpl in *; try lia).
      all: try (f_equal; destruct e; simpl in *; f_equal; lia).
      all: repeat match goal with
           | H : context [if ?c then _ else _] |- _ => destruct c eqn:?; zbool; try lia
           end.
    + eapply cursor_in_document_intro; simpl; [exact Hline|lia|lia].
    + done.
    + intros (_ & Hcy & line' & Hl' & Hcx0 & Hcx1).
      assert (c = cy e) as Hceq by (subst c; repeat split_if; first [done | lia]).
      rewrite Hceq in Hline. rewrite Hline in Hl'. injection Hl' as <-.
      assert (x' = cx e) as -> by (subst x' x; split_ifs; first [done | lia]).
      rewrite Hceq. destruct e; reflexivity.
Qed.

Lemma cursorDisplayPosition_spec e :
  ∃ row seg cell e', cursorDisplayPosition e = Some (row, seg, cell, e')
    ∧ cursor_in_document e' ∧ (cursor_in_document e → e' = e).
Proof.
  unfold cursorDisplayPosition.
  destruct (cursor_clamp_spec e) as (e1 & -> & Hinv & _ & Hfix). simpl.
  destruct Hinv as (Hlen & Hcy & line & Hline & Hcx0 & Hcx1).
  match goal with |- context [for_upto ?lo ?hi ?b ?s] =>
    destruct (for_upto_total b lo hi s) as [totalBefore ->] end.
  { intros j s' Hj0 Hj1. destruct (index_Some (lines e1) j) as [l ->]; [lia..|]. simpl.
    destruct (wrapLine_total e1 l) as [segs ->]. done. }
  simpl. rewrite Hline. simpl.
  destruct (wrapLine_total e1 line) as [segs Hsegs]. rewrite Hsegs. simpl.
  pose proof (wrapLine_nonempty _ _ _ Hsegs) as Hne.
  replace (cx e1 >? len line) with false by (symmetry; rewrite Z.gtb_ltb; apply Z.ltb_ge; lia).
  destruct (cursor_segment_total (cx e1) totalBefore segs 0 0) as [found ->]. simpl.
  destruct found as [[[row seg] cell]|].
  - exists row, seg, cell, e1. repeat split; try done; try lia. exists line. done.
  - destruct (index_Some segs (len segs - 1)) as [lastSeg ->]; [lia..|]. simpl.
    destruct (cells_upto_total lastSeg (len lastSeg)) as [cell ->]; [lia|]. simpl.
    do 3 eexists. exists e1. repeat split; try done; try lia. exists line. done.
Qed.

Lemma visible_clamp_spec e :
  ∃ e', visible_clamp e = Some e' ∧ cursor_in_document e'
        ∧ (cursor_in_document e → e' = e).
Proof.
  unfold visible_clamp.
  destruct (Z.eq_dec (len (lines e)) 0) as [Hz|Hnz].
  - assert (Hne : cursor_in_document e → False).
    { intros (Hlen & _). lia. }
    rewrite (proj2 (Z.eqb_eq _ _) Hz). simpl.
    eexists; split; [reflexivity|]. split; [|intros; exfalso; auto].
    eapply cursor_in_document_intro; simpl; [reflexivity|done|done].
  - pose proof (len_nonneg (lines e)) as Hlen.
    rewrite (proj2 (Z.eqb_neq _ _) Hnz).
    remember (if cy e <? 0 then 0
              else if len (lines e) <=? cy e then len (lines e) - 1 else cy e) as c eqn:Ec.
    assert (Hc : 0 ≤ c ∧ c < len (lines e)).
    { subst c. split_ifs; lia. }
    destruct (index_Some (lines e) c) as [line Hline]; [lia..|].
    remember (if cx e <? 0 then 0 else cx e) as x eqn:Ex.
    remember (if len line <? x then len line else x) as x' eqn:Ex'.
    assert (Hx : 0 ≤ x' ∧ x' ≤ len line).
    { subst x' x. pose proof (len_nonneg line). split_ifs; lia. }
    exists (set_cx x' (set_cy c e)).
    split; [|split].
    + subst c x x'.
      repeat (split_if; simpl in *; try lia).
      all: rewrite ?Hline; simpl.
      all: split_ifs; simpl in *; try lia.
      all: try (f_equal; rec_eq e).
    + eapply cursor_in_document_intro; simpl; [exact Hline|lia|lia].
    + intros (_ & Hcy & line' & Hl' & Hcx0 & Hcx1).
      assert (c = cy e) as Hceq by (subst c; split_ifs; first [done | lia]).
      rewrite Hceq in Hline. rewrite Hline in Hl'. injection Hl' as <-.
      assert (x' = cx e) as -> by (subst x' x; split_ifs; first [done | lia]).
      rewrite Hceq. destruct e; reflexivity.
Qed.

(** [ensureVisible] never fails and always leaves the cursor in the
    document. *)
Lemma ensureVisible_sound e :
  ∃ e', ensureVisible e = Some e' ∧ cursor_in_document e'.
Proof.
  unfold ensureVisible.
  destruct (visible_clamp_spec e) as (e1 & -> & Hinv & _). simpl.
  destruct (cursorDisplayPosition_spec e1) as (row & seg & cell & e2 & -> & Hinv2 & _).
  simpl. split_ifs; eexists; (split; [reflexivity|]); done.
Qed.

(** On a state whose cursor is in the document it changes the scroll
    offset at most. *)
Lemma ensureVisible_fix e :
  cursor_in_document e → ∃ oy, ensureVisible e = Some (set_offsetY oy e).
Proof.
  intros Hinv. unfold ensureVisible.
  destruct (visible_clamp_spec e) as (e1 & -> & _ & Hfix). rewrite (Hfix Hinv). simpl.
  destruct (cursorDisplayPosition_spec e) as (row & seg & cell & e2 & -> & _ & Hfix2).
  rewrite (Hfix2 Hinv). simpl.
  split_ifs;
    first [ eexists; reflexivity | exists (offsetY e); destruct e; reflexivity ].
Qed.

Lemma cursor_in_document_ext e e' :
  lines e' = lines e → cx e' = cx e → cy e' = cy e →
  cursor_in_document e → cursor_in_document e'.
Proof. unfold cursor_in_document. intros -> -> ->. done. Qed.

Lemma ensureVisible_inv e e' : ensureVisible e = Some e' → cursor_in_document e'.
Proof.
  destruct (ensureVisible_sound e) as (e1 & -> & Hinv). intros [= <-]. done.
Qed.

Lemma slice_inv {A} (l : list A) lo hi a :
  slice l lo hi = Some a →
  0 ≤ lo ∧ lo ≤ hi ∧ hi ≤ len l
  ∧ a = take (Z.to_nat (hi - lo)) (drop (Z.to_nat lo) l) ∧ len a = hi - lo.
Proof.
  unfold slice. case_decide; [|done]. intros [= <-].
  repeat split; try lia. unfold len in *.
  rewrite length_take, length_drop. lia.
Qed.

Lemma slice_to_inv {A} (l : list A) k a :
  slice_to l k = Some a → 0 ≤ k ∧ k ≤ len l ∧ a = take (Z.to_nat k) l ∧ len a = k.
Proof.
  intros Hs. apply slice_inv in Hs as (? & ? & ? & -> & Hl).
  rewrite Z.sub_0_r in *. repeat split; try lia. 
Qed.

Lemma slice_from_inv {A} (l : list A) k b :
  slice_from l k = Some b →
  0 ≤ k ∧ k ≤ len l ∧ b = drop (Z.to_nat k) l ∧ len b = len l - k.
Proof.
  intros Hs. apply slice_inv in Hs as (? & ? & ? & -> & Hl).
  repeat split; try lia.
  apply take_ge. rewrite length_drop. unfold len. lia.
Qed.

Lemma store_inv {A} (l : list A) i v l' :
  store l i v = Some l' →
  0 ≤ i ∧ i < len l ∧ l' = <[Z.to_nat i := v]> l ∧ len l' = len l
  ∧ index l' i = Some v.
Proof.
  unfold store. case_decide; [|done]. intros [= <-].
  repeat split; try lia.
  - unfold len. rewrite length_insert. done.
  - unfold index. rewrite decide_True by lia.
    apply list_lookup_insert_eq. unfold len in *. lia.
Qed.

Lemma insertRune_inv r e e' :
  cursor_in_document e → insertRune r e = Some e' → cursor_in_document e'.
Proof.
  intros (Hlen & Hcy & line & Hline & Hcx0 & Hcx1). unfold insertRune. simpl.
  rewrite Hline. simpl.
  replace (cx e <? 0) with false by (symmetry; apply Z.ltb_ge; lia). simpl.
  intros Hr.
  apply bind_Some in Hr as (left & Hleft & Hr).
  apply bind_Some in Hr as (right & Hright & Hr).
  apply bind_Some in Hr as (ls & Hls & Hr). injection Hr as <-.
  apply slice_to_inv in Hleft as (_ & _ & _ & Hl).
  apply slice_from_inv in Hright as (_ & _ & _ & Hrl).
  apply store_inv in Hls as (_ & _ & _ & Hlen' & Hidx).
  eapply cursor_in_document_intro; simpl; [exact Hidx|lia|].
  rewrite len_app, len_cons. lia.
Qed.

Lemma insert_at_Some {A} (l : list A) k x :
  0 ≤ k → k ≤ len l →
  insert_at l k x = Some (take (Z.to_nat k) l ++ [x] ++ drop (Z.to_nat k) l).
Proof.
  intros H0 H1. unfold insert_at, slice_to, slice_from.
  rewrite !slice_Some by lia. simpl. rewrite Z.sub_0_r.
  rewrite (take_ge (drop (Z.to_nat k) l))
    by (rewrite length_drop; unfold len in *; lia).
  done.
Qed.

Lemma store_Some {A} (l : list A) i v :
  0 ≤ i → i < len l →
  store l i v = Some (take (Z.to_nat i) l ++ [v] ++ drop (Z.to_nat (i + 1)) l).
Proof.
  intros H0 H1. unfold store. rewrite decide_True by lia. f_equal.
  rewrite insert_take_drop by (unfold len in H1; lia).
  replace (Z.to_nat (i + 1)) with (S (Z.to_nat i)) by lia. done.
Qed.

Lemma index_app_r {A} (l1 l2 : list A) i :
  len l1 ≤ i → index (l1 ++ l2) i = index l2 (i - len l1).
Proof.
  intros Hi. pose proof (len_nonneg l1). unfold index.
  rewrite !decide_True by lia.
  rewrite lookup_app_r by (unfold len in *; lia).
  f_equal. unfold len. lia.
Qed.

Lemma index_app_l {A} (l1 l2 : list A) i :
  i < len l1 → index (l1 ++ l2) i = index l1 i.
Proof.
  intros Hi. unfold index. case_decide; [|done].
  apply lookup_app_l. unfold len in *. lia.
Qed.

Lemma index_cons_0 {A} (x : A) l : index (x :: l) 0 = Some x.
Proof. reflexivity. Qed.

(** The loop of [insertTextAtCursor] that inserts the middle parts. *)
Lemma insert_middle_loop parts middle : ∀ before after k pre post e,
  parts = before ++ middle ++ after → k = len before →
  lines e = pre ++ post → cy e + 1 = len pre →
  ∃ e',
    for_range (length middle) k
      (λ i e,
         insertLine ← index parts i;
         ls ← insert_at (lines e) (cy e + 1) insertLine;
         Some (set_cy (cy e + 1) (set_lines ls e))) e = Some e'
    ∧ lines e' = pre ++ middle ++ post
    ∧ cy e' = cy e + len middle
    ∧ cx e' = cx e.
Proof.
  induction middle as [|m middle IH]; intros before after k pre post e Hparts Hk Hl Hcy.
  - simpl. exists e. rewrite len_nil. repeat split; try done. lia.
  - simpl. pose proof (len_nonneg before). pose proof (len_nonneg pre).
    assert (index parts k = Some m) as ->.
    { rewrite Hparts, index_app_r by lia.
      replace (k - len before) with 0 by lia. done. }
    simpl. rewrite Hl, insert_at_Some by (rewrite ?len_app; pose proof (len_nonneg post); lia).
    simpl.
    replace (Z.to_nat (cy e + 1)) with (length pre) by (unfold len in Hcy; lia).
    rewrite take_app_length, drop_app_length.
    destruct (IH (before ++ [m]) after (k + 1) (pre ++ [m]) post
                (set_cy (cy e + 1) (set_lines (pre ++ m :: post) e)))
      as (e' & He' & Hl' & Hcy' & Hcx').
    + rewrite Hparts, <- app_assoc. done.
    + rewrite len_app. change (len [m]) with 1. lia.
    + simpl. rewrite <- app_assoc. done.
    + simpl. rewrite len_app. change (len [m]) with 1. lia.
    + exists e'. rewrite He'. split; [done|]. simpl in *.
      rewrite Hl', <- app_assoc. repeat split; try done.
      rewrite Hcy', len_cons. lia.
Qed.

Lemma insertTextAtCursor_multi e text first middle last line :
  cursor_in_document e → index (lines e) (cy e) = Some line →
  strings.Split text LF = first :: middle ++ [last] →
  ∃ e', insertTextAtCursor text e = Some e'
    ∧ lines e' = take (Z.to_nat (cy e)) (lines e)
                 ++ [take (Z.to_nat (cx e)) line ++ first] ++ middle
                 ++ [last ++ drop (Z.to_nat (cx e)) line]
                 ++ drop (Z.to_nat (cy e + 1)) (lines e)
    ∧ cy e' = cy e + len middle + 1
    ∧ cx e' = len last.
Proof.
  intros (Hlen & Hcy & line' & Hline' & Hcx0 & Hcx1) Hline HSplit.
  rewrite Hline in Hline'. injection Hline' as <-.
  unfold insertTextAtCursor.
  assert (Hparts : len (first :: middle ++ [last]) = len middle + 2).
  { rewrite len_cons, len_app. change (len [last]) with 1. lia. }
  pose proof (len_nonneg middle) as Hmid.
  rewrite HSplit, Hparts. 
  replace (len middle + 2 =? 0) with false by (symmetry; apply Z.eqb_neq; lia).
  replace (len middle + 2 =? 1) with false by (symmetry; apply Z.eqb_neq; lia).
  simpl.
  replace (cy e <? 0) with false by (symmetry; apply Z.ltb_ge; lia).
  simpl.
  replace (Z.to_nat (cy e - len (lines e) + 1)) with 0%nat by lia.
  simpl. rewrite app_nil_r, Hline. simpl.
  replace (cx e <? 0) with false by (symmetry; apply Z.ltb_ge; lia).
  simpl.
  replace (cx e >? len line) with false by (symmetry; rewrite Z.gtb_ltb; apply Z.ltb_ge; lia).
  simpl.
  unfold slice_to, slice_from. rewrite !slice_Some by lia. simpl.
  rewrite Z.sub_0_r. change (Z.to_nat 0) with 0%nat. rewrite drop_0.
  rewrite (take_ge (drop (Z.to_nat (cx e)) line))
    by (rewrite length_drop; unfold len in *; lia).
  rewrite store_Some by lia. simpl.
  set (left := take (Z.to_nat (cx e)) line).
  set (right := drop (Z.to_nat (cx e)) line).
  set (above := take (Z.to_nat (cy e)) (lines e)).
  set (below := drop (Z.to_nat (cy e + 1)) (lines e)).
  assert (Habove : len above = cy e).
  { unfold above, len. rewrite length_take. unfold len in *. lia. }
  unfold for_upto.
  replace (Z.to_nat (len middle + 2 - 1 - 1)) with (length middle)
    by (unfold len; lia).
  match goal with |- context [for_range _ _ _ ?e0] =>
    destruct (insert_middle_loop (first :: middle ++ [last]) middle [first] [last] 1
                (above ++ [left ++ first]) below e0)
      as (e2 & -> & Hl2 & Hy2 & Hx2) end; try done.
  { simpl. rewrite <- app_assoc. done. }
  { simpl. rewrite len_app. change (len [left ++ first]) with 1. lia. }
  simpl in *.
  assert (index (first :: middle ++ [last]) (len middle + 2 - 1) = Some last) as ->.
  { change (first :: middle ++ [last]) with ([first] ++ middle ++ [last]).
    rewrite index_app_r by (change (len [first]) with 1; lia).
    rewrite index_app_r by (change (len [first]) with 1; lia).
    change (len [first]) with 1.
    replace (len middle + 2 - 1 - 1 - len middle) with 0 by lia. done. }
  simpl. rewrite Hl2, Hy2.
  assert (Hpre : len ((above ++ [left ++ first]) ++ middle) = cy e + len middle + 1).
  { rewrite !len_app. change (len [left ++ first]) with 1. lia. }
  rewrite (app_assoc (above ++ [left ++ first]) middle below).
  rewrite insert_at_Some
    by (rewrite ?len_app; change (len [left ++ first]) with 1;
        pose proof (len_nonneg below); lia).
  simpl.
  replace (Z.to_nat (cy e + len middle + 1))
    with (length ((above ++ [left ++ first]) ++ middle)) by (unfold len in *; lia).
  rewrite take_app_length, drop_app_length.
  match goal with |- context [ensureVisible ?e0] =>
    destruct (ensureVisible_fix e0) as [oy ->] end.
  { eapply cursor_in_document_intro; simpl.
    - rewrite index_app_r by lia.
      replace (cy e + (len middle + 2 - 1) - _) with 0 by lia. done.
    - apply len_nonneg.
    - rewrite len_app. pose proof (len_nonneg right). lia. }
  eexists. split; [reflexivity|]. simpl.
  repeat split; try lia.
  rewrite <- !app_assoc. done.
Qed.

Lemma insertTextAtCursor_single e text part line :
  0 ≤ cy e → cy e < len (lines e) → index (lines e) (cy e) = Some line →
  strings.Split text LF = [part] →
  ∃ e' x, insertTextAtCursor text e = Some e'
    ∧ 0 ≤ x ∧ x ≤ len line
    ∧ (0 ≤ cx e → cx e ≤ len line → x = cx e)
    ∧ lines e' = take (Z.to_nat (cy e)) (lines e)
                 ++ [take (Z.to_nat x) line ++ part ++ drop (Z.to_nat x) line]
                 ++ drop (Z.to_nat (cy e + 1)) (lines e)
    ∧ cy e' = cy e
    ∧ cx e' = x + len part.
Proof.
  intros Hcy0 Hcy1 Hline HSplit.
  unfold insertTextAtCursor. rewrite HSplit. change (len [part]) with 1. simpl.
  replace (cy e <? 0) with false by (symmetry; apply Z.ltb_ge; lia).
  simpl.
  replace (Z.to_nat (cy e - len (lines e) + 1)) with 0%nat by lia.
  simpl. rewrite app_nil_r, Hline. simpl.
  pose proof (len_nonneg line) as Hll.
  assert (Hgo : ∀ x e1, 0 ≤ x → x ≤ len line →
            lines e1 = lines e → cy e1 = cy e → cx e1 = x →
            ∃ e', (slice_to line (cx e1)
                   ≫= λ left, slice_from line (cx e1)
                   ≫= λ right, store (lines e1) (cy e1) (left ++ part ++ right)
                   ≫= λ ls, Some (set_cx (cx e1 + len part) (set_lines ls e1)))
                  ≫= (λ e0, ensureVisible (set_dirty true e0)) = Some e'
              ∧ lines e' = take (Z.to_nat (cy e)) (lines e)
                   ++ [take (Z.to_nat x) line ++ part ++ drop (Z.to_nat x) line]
                   ++ drop (Z.to_nat (cy e + 1)) (lines e)
              ∧ cy e' = cy e ∧ cx e' = x + len part).
  { intros x e1 Hx0 Hx1 Hl1 Hy1 Hx.
    rewrite Hx, Hl1, Hy1.
    unfold slice_to, slice_from. rewrite !slice_Some by lia. simpl.
    rewrite Z.sub_0_r. change (Z.to_nat 0) with 0%nat. rewrite drop_0.
    rewrite (take_ge (drop (Z.to_nat x) line))
      by (rewrite length_drop; unfold len in *; lia).
    rewrite store_Some by lia. simpl.
    match goal with |- context [ensureVisible ?e0] =>
      destruct (ensureVisible_fix e0) as [oy ->] end.
    { eapply cursor_in_document_intro; simpl.
      - rewrite Hy1, index_app_r
          by (unfold len; rewrite length_take; unfold len in *; lia).
        replace (cy e - _) with 0
          by (unfold len; rewrite length_take; unfold len in *; lia).
        done.
      - pose proof (len_nonneg part). lia.
      - rewrite !len_app. unfold len at 2. rewrite length_take.
        pose proof (len_nonneg (drop (Z.to_nat x) line)). unfold len in *. lia. }
    eexists. split; [reflexivity|]. simpl. rewrite Hy1. done. }
  destruct (cx e <? 0) eqn:Hneg; zbool; simpl.
  - replace (len line <? 0) with false by (symmetry; apply Z.ltb_ge; lia).
    destruct (Hgo 0 (set_cx 0 (set_lines (lines e) (pushUndo e))))
      as (e' & He' & Hl' & Hy' & Hx'); try lia; try done.
    exists e', 0. repeat split; try done; try lia.
  - destruct (len line <? cx e) eqn:Hbig; zbool; simpl.
    + destruct (Hgo (len line) (set_cx (len line) (set_lines (lines e) (pushUndo e))))
        as (e' & He' & Hl' & Hy' & Hx'); try lia; try done.
      exists e', (len line). repeat split; try done; try lia.
    + destruct (Hgo (cx e) (set_lines (lines e) (pushUndo e)))
        as (e' & He' & Hl' & Hy' & Hx'); try lia; try done.
      exists e', (cx e). repeat split; try done; try lia.
Qed.

Lemma Split_nonempty s sep : 1 ≤ len (strings.Split s sep).
Proof.
  induction s as [|c s IH]; simpl; [done|].
  destruct (c =? sep).
  - rewrite len_cons. pose proof (len_nonneg (strings.Split s sep)). lia.
  - destruct (strings.Split s sep); [done|].
    rewrite len_cons in *. lia.
Qed.

Lemma insertTextAtCursor_inv text e e' :
  insertTextAtCursor text e = Some e' → cursor_in_document e'.
Proof.
  unfold insertTextAtCursor. pose proof (Split_nonempty text LF) as Hne.
  replace (len (strings.Split text LF) =? 0) with false
    by (symmetry; apply Z.eqb_neq; lia).
  simpl. intros Hr.
  apply bind_Some in Hr as (line & _ & Hr).
  apply bind_Some in Hr as (e1 & _ & Hr).
  eapply ensureVisible_inv, Hr.
Qed.

(** The end of [handleKey]: a case that falls out of the switch runs
    into [ensureVisible]. *)
Lemma flow_inv (m : option Flow) e' :
  (flow ← m; match flow with
             | Continue e => ensureVisible e
             | Return e => Some e
             end) = Some e' →
  (∀ e1, m = Some (Return e1) → cursor_in_document e1) →
  cursor_in_document e'.
Proof.
  intros Hr Hret. apply bind_Some in Hr as ([e1|e1] & Hm & Hr).
  - eapply ensureVisible_inv, Hr.
  - injection Hr as <-. auto.
Qed.

Lemma shouldAutoCloseBracket_true r e :
  shouldAutoCloseBracket r e = Some true →
  ∃ line, 0 ≤ cy e ∧ cy e < len (lines e) ∧ index (lines e) (cy e) = Some line.
Proof.
  unfold shouldAutoCloseBracket. split_if; [done|].
  destruct (index (lines e) (cy e)) as [line|] eqn:Hline; [|done].
  intros _. exists line. repeat split; try done; lia.
Qed.

Lemma switchToNextCanvas_inv e e' :
  cursor_in_document e → switchToNextCanvas e = Some e' → cursor_in_document e'.
Proof.
  intros Hinv. unfold switchToNextCanvas. case_decide.
  - apply ensureVisible_inv.
  - intros [= <-]. revert Hinv. apply cursor_in_document_ext;
      unfold syncEditorToCanvas; destruct (canvases e !! currentCanvas e); done.
Qed.

Lemma index_middle {A} (l : list A) i v post :
  0 ≤ i → i < len l → index (take (Z.to_nat i) l ++ [v] ++ post) i = Some v.
Proof.
  intros H0 H1.
  assert (len (take (Z.to_nat i) l) = i)
    by (unfold len in *; rewrite length_take; lia).
  rewrite index_app_r by lia. replace (i - _) with 0 by lia. done.
Qed.

(** The case of an opening bracket or quote that is closed at once:
    [insertTextAtCursor] of the pair, then one step back. *)
Lemma autoclose_inv r e e3 :
  (r =? ch "(") || (r =? ch "[") || (r =? ch "{") || (r =? DQUOTE) || (r =? SQUOTE) = true →
  shouldAutoCloseBracket r e = Some true →
  insertTextAtCursor [r; getClosingBracket r] e = Some e3 →
  cursor_in_document (set_cx (cx e3 - 1) e3).
Proof.
  intros Hop Hauto Hins.
  apply shouldAutoCloseBracket_true in Hauto as (line & Hcy0 & Hcy1 & Hline).
  assert (HSplit : strings.Split [r; getClosingBracket r] LF = [[r; getClosingBracket r]]).
  { repeat (apply orb_true_iff in Hop as [Hop|Hop]);
      apply Z.eqb_eq in Hop; subst r; reflexivity. }
  destruct (insertTextAtCursor_single e _ _ line Hcy0 Hcy1 Hline HSplit)
    as (e' & x & He' & Hx0 & Hx1 & _ & Hl' & Hy' & Hx').
  rewrite Hins in He'. injection He' as <-.
  eapply cursor_in_document_intro; simpl.
  - rewrite Hl', Hy'. apply index_middle; lia.
  - rewrite Hx'. change (len [r; getClosingBracket r]) with 2. lia.
  - rewrite Hx', !len_app. change (len [r; getClosingBracket r]) with 2.
    unfold len. rewrite length_take, length_drop. unfold len in *. lia.
Qed.

(** No case of the switch other than the two singled out below ends in a
    [return]. *)
Ltac no_return H :=
  repeat first
    [ discriminate H
    | apply bind_Some in H as (? & ? & H)
    | match type of H with
      | context [if ?c then _ else _] => destruct c eqn:?
      | context [let '(_, _) := ?p in _] => destruct p eqn:?
      end
    | progress simpl in H ].

Lemma default_return r (m : option Editor) e1 :
  (m ≫= λ e,
     (if (r =? ch "(") || (r =? ch "[") || (r =? ch "{")
         || (r =? DQUOTE) || (r =? SQUOTE)
      then shouldAutoCloseBracket r e else Some false)
     ≫= λ autoClose : bool,
          if autoClose && negb (getClosingBracket r =? 0)
          then insertTextAtCursor [r; getClosingBracket r] e
               ≫= λ e0, Some (Return (set_cx (cx e0 - 1) e0))
          else insertRune r e
               ≫= λ e0, Some (Continue (set_ctrlAState false e0)))
  = Some (Return e1) →
  cursor_in_document e1.
Proof.
  intros Hret.
  apply bind_Some in Hret as (e2 & _ & Hret).
  apply bind_Some in Hret as (autoClose & Hauto & Hret).
  destruct (autoClose && negb (getClosingBracket r =? 0)) eqn:Hclose.
  - apply bind_Some in Hret as (e3 & Hins & Hret). injection Hret as <-.
    apply andb_true_iff in Hclose as [-> _].
    destruct ((r =? ch "(") || (r =? ch "[") || (r =? ch "{")
              || (r =? DQUOTE) || (r =? SQUOTE)) eqn:Hop; [|discriminate Hauto].
    eapply autoclose_inv; eauto.
  - apply bind_Some in Hret as (e3 & _ & Hret). discriminate Hret.
Qed.

Lemma handleKey_inv env ev e e' :
  cursor_in_document e → handleKey env ev e = Some e' → cursor_in_document e'.
Proof.
  intros Hinv. unfold handleKey.
  destruct ((Rune ev =? TAB) || match Key ev with KeyTab => true | _ => false end).
  { (* the Tab key *)
    destruct (negb (len (keywordCompletion env) =? 0));
      [apply insertTextAtCursor_inv|].
    destruct (negb (len (identifierCompletion env) =? 0));
      [apply insertTextAtCursor_inv|].
    destruct (if incompleteStatement env then languageTerminators (language e) else None)
      as [[|c t]|]; try apply insertTextAtCursor_inv; apply insertRune_inv; done. }
  destruct (Key ev) eqn:Hkey.
  4: { (* Ctrl-B *)
    intros Hr. apply bind_Some in Hr as (e1 & Hsw & Hr). injection Hr as <-.
    apply (switchToNextCanvas_inv _ _ Hinv) in Hsw. revert Hsw.
    apply cursor_in_document_ext; done. }
  all: intros Hr; apply flow_inv in Hr; [exact Hr|]; clear Hr; intros e1 Hret.
  all: try solve [no_return Hret].
  - destruct (negb (Rune ev =? 0) && negb (ModAlt ev)); [|discriminate Hret].
    eapply default_return, Hret.
  - destruct (negb (Rune ev =? 0) && negb (ModAlt ev)); [|discriminate Hret].
    eapply default_return, Hret.
  - (* Backspace that only clears the last search *)
    match type of Hret with
    | (if ?c then _ else _) = _ => destruct c
    end.
    + injection Hret as <-. revert Hinv. apply cursor_in_document_ext; done.
    + no_return Hret.
Qed.

Lemma findAndJump_loop_inv n : ∀ i query q startX startY totalLines e e',
  findAndJump_loop n i query q startX startY totalLines e = Some (Some e') →
  cursor_in_document e'.
Proof.
  induction n as [|n IH]; intros i query q startX startY totalLines e e'; simpl; [done|].
  intros Hr.
  apply bind_Some in Hr as (line & _ & Hr).
  apply bind_Some in Hr as (from & _ & Hr).
  destruct (find_query from q 0) as [pos|].
  - apply bind_Some in Hr as (e1 & Hvis & Hr). injection Hr as <-.
    apply ensureVisible_inv in Hvis. revert Hvis.
    apply cursor_in_document_ext; done.
  - eapply IH, Hr.
Qed.

Lemma findAndJump_inv query e e' :
  cursor_in_document e → findAndJump query e = Some e' → cursor_in_document e'.
Proof.
  intros Hinv. unfold findAndJump. destruct (len (strings.TrimSpace query) =? 0).
  - intros [= <-]. done.
  - intros Hr. apply bind_Some in Hr as ([e1|] & Hloop & Hr); injection Hr as <-.
    + eapply findAndJump_loop_inv, Hloop.
    + done.
Qed.

Lemma refreshSize_inv w h e e' : refreshSize w h e = Some e' → cursor_in_document e'.
Proof.
  unfold refreshSize. intros Hr.
  apply bind_Some in Hr as ([[[row seg] cell] e1] & Hpos & Hr). injection Hr as <-.
  match type of Hpos with cursorDisplayPosition ?x = _ =>
    destruct (cursorDisplayPosition_spec x) as (? & ? & ? & e2 & Hpos' & Hinv & _) end.
  rewrite Hpos in Hpos'. injection Hpos' as <- <- <- <-. done.
Qed.

Lemma openFile_inv path data detected e e' :
  cursor_in_document e → openFile path data detected e = Some e' →
  cursor_in_document e'.
Proof.
  intros Hinv. unfold openFile. destruct data as [content|].
  - intros Hr. apply bind_Some in Hr as (e1 & Hvis & Hr). injection Hr as <-.
    apply ensureVisible_inv in Hvis. revert Hvis.
    apply cursor_in_document_ext;
      unfold syncEditorToCanvas; destruct (canvases e1 !! currentCanvas e1); done.
  - intros [= <-]. done.
Qed.

Lemma NewEditor_inv path read1 read2 detected :
  cursor_in_document (NewEditor path read1 read2 detected).
Proof.
  unfold NewEditor. simpl.
  destruct (len path =? 0); simpl.
  - eapply cursor_in_document_intro; simpl; rewrite ?lookup_singleton_eq; simpl; try done.
  - destruct read2 as [content|]; simpl.
    + pose proof (Split_nonempty (strings.ReplaceAll content [CR; LF] [LF]) LF) as Hne.
      destruct (index_Some (strings.Split (strings.ReplaceAll content [CR; LF] [LF]) LF) 0)
        as [line Hline]; [lia..|].
      eapply cursor_in_document_intro; simpl; [exact Hline|done|apply len_nonneg].
    + eapply cursor_in_document_intro; simpl; try done.
Qed.

Lemma step_inv ev e e' :
  cursor_in_document e → step ev e = Some e' → cursor_in_document e'.
Proof.
  intros Hinv. destruct ev; simpl.
  - apply handleKey_inv; done.
  - apply refreshSize_inv.
  - apply findAndJump_inv; done.
  - apply openFile_inv; done.
Qed.

(** Between two events: in the state [NewEditor] builds and in every
    state that an event leaves behind when it is handled to its end, the
    document has at least one line, the cursor line is a line of the
    document, and the cursor column lies between 0 and the rune length
    of that line.  The states inside one call of [handleKey] are not
    covered, nor the events that fail. *)
Lemma reachable_cursor_in_document e :
  reachable e →
  1 ≤ len (lines e)
  ∧ (0 ≤ cy e ∧ cy e < len (lines e))
  ∧ ∃ line, index (lines e) (cy e) = Some line ∧ 0 ≤ cx e ∧ cx e ≤ len line.
Proof.
  intros Hreach. change (cursor_in_document e).
  induction Hreach as [path read1 read2 detected | e ev e' _ IH Hstep].
  - apply NewEditor_inv.
  - eapply step_inv; eauto.
Qed.

(** ** What the operations leave alone *)

(** Decomposes a hypothesis [m = Some x] along the binds and branches of [m]. *)
Ltac unbind H :=
  repeat first
    [ apply bind_Some in H as (? & ? & H)
    | match type of H with
      | context [if ?c then _ else _] => destruct c eqn:?
      | context [match ?p with (_, _) => _ end] => destruct p eqn:?
      end
    | progress simpl in H ].



Lemma same_history_trans e1 e2 e3 :
  same_history e1 e2 → same_history e2 e3 → same_history e1 e3.
Proof. intros (?&?&?) (?&?&?). repeat split; congruence. Qed.

Lemma cursor_clamp_history e e' : cursor_clamp e = Some e' → same_history e e'.
Proof. unfold cursor_clamp. intros Hr. unbind Hr; injection Hr as <-; done. Qed.

Lemma visible_clamp_history e e' : visible_clamp e = Some e' → same_history e e'.
Proof. unfold visible_clamp. intros Hr. unbind Hr; injection Hr as <-; done. Qed.

Lemma cursorDisplayPosition_history e row seg cell e' :
  cursorDisplayPosition e = Some (row, seg, cell, e') → same_history e e'.
Proof.
  unfold cursorDisplayPosition. intros Hr.
  apply bind_Some in Hr as (e1 & Hclamp & Hr).
  apply cursor_clamp_history in Hclamp.
  apply bind_Some in Hr as (total & _ & Hr).
  apply bind_Some in Hr as (line & _ & Hr).
  apply bind_Some in Hr as (segs & _ & Hr).
  apply bind_Some in Hr as (found & _ & Hr).
  eapply same_history_trans; [exact Hclamp|].
  destruct found as [[[? ?] ?]|].
  - injection Hr as <- <- <- <-. split_ifs; done.
  - unbind Hr; injection Hr as <- <- <- <-; done.
Qed.

Lemma ensureVisible_history e e' : ensureVisible e = Some e' → same_history e e'.
Proof.
  unfold ensureVisible. intros Hr.
  apply bind_Some in Hr as (e1 & Hclamp & Hr).
  apply visible_clamp_history in Hclamp.
  apply bind_Some in Hr as ([[[row seg] cell] e2] & Hpos & Hr).
  apply cursorDisplayPosition_history in Hpos.
  eapply same_history_trans; [exact Hclamp|].
  eapply same_history_trans; [exact Hpos|].
  unbind Hr; injection Hr as <-; done.
Qed.











(** ** undo and redo *)


Lemma snapshot_ok_of e : cursor_in_document e → snapshot_ok (snapshot e).
Proof. intros (_ & _ & line & ? & ? & ?). exists line. done. Qed.

Lemma index_last {A} (l : list A) x : index (l ++ [x]) (len (l ++ [x]) - 1) = Some x.
Proof.
  rewrite len_app. change (len [x]) with 1. pose proof (len_nonneg l).
  rewrite index_app_r by lia. replace (len l + 1 - 1 - len l) with 0 by lia. done.
Qed.

Lemma slice_to_last {A} (l : list A) x : slice_to (l ++ [x]) (len (l ++ [x]) - 1) = Some l.
Proof.
  rewrite len_app. change (len [x]) with 1. pose proof (len_nonneg l).
  unfold slice_to. rewrite slice_Some by (rewrite ?len_app; change (len [x]) with 1; lia).
  change (Z.to_nat 0) with 0%nat. rewrite drop_0.
  replace (Z.to_nat (len l + 1 - 1 - 0)) with (length l) by (unfold len; lia).
  rewrite take_app_length. done.
Qed.

Lemma len_snoc_nonzero {A} (l : list A) x : (len (l ++ [x]) =? 0) = false.
Proof.
  apply Z.eqb_neq. rewrite len_app. change (len [x]) with 1.
  pose proof (len_nonneg l). lia.
Qed.

Lemma undo_pops e U s :
  undoStack e = U ++ [s] →
  ∃ e', undo e = Some e'
    ∧ undoStack e' = U
    ∧ redoStack e' = redoStack e ++ [snapshot e]
    ∧ dirty e' = dirty e
    ∧ cursor_in_document e'
    ∧ (snapshot_ok s → lines e' = Lines s ∧ cx e' = Cx s ∧ cy e' = Cy s).
Proof.
  intros HU. unfold undo. rewrite HU, len_snoc_nonzero. simpl.
  rewrite HU, index_last, slice_to_last. simpl.
  match goal with |- context [ensureVisible ?x] => set (e1 := x) end.
  destruct (ensureVisible_sound e1) as (e' & He' & Hinv).
  pose proof (ensureVisible_history _ _ He') as (Hu & Hr & Hd).
  exists e'. split; [done|]. split; [done|]. split; [done|]. split; [done|].
  split; [done|].
  intros (line & Hline & Hx0 & Hx1).
  destruct (ensureVisible_fix e1) as [oy Hfix];
    [ eapply cursor_in_document_intro; simpl; eauto |].
  rewrite He' in Hfix. injection Hfix as ->. done.
Qed.











(** C7.  Multi-line text inserted at the cursor: the first piece joins
    the part of the current line left of the cursor, the last piece
    comes before the part right of it, the pieces in between become
    lines of their own, and the cursor ends right after the last piece.
    In particular "x\ny\nz" typed at column 2 of the only line "ab"
    gives the lines "abx", "y", "z" with the cursor after "z". *)
Theorem insertTextAtCursor_multiline :
  (∀ e text first middle last line,
     cursor_in_document e → index (lines e) (cy e) = Some line →
     strings.Split text LF = first :: middle ++ [last] →
     ∃ e', insertTextAtCursor text e = Some e'
       ∧ lines e' = take (Z.to_nat (cy e)) (lines e)
                    ++ [take (Z.to_nat (cx e)) line ++ first] ++ middle
                    ++ [last ++ drop (Z.to_nat (cx e)) line]
                    ++ drop (Z.to_nat (cy e + 1)) (lines e)
       ∧ cy e' = cy e + len middle + 1
       ∧ cx e' = len last)
  ∧ (∀ e,
       lines e = [str "ab"] → cy e = 0 → cx e = 2 →
       ∃ e', insertTextAtCursor (str "x" ++ [LF] ++ str "y" ++ [LF] ++ str "z") e = Some e'
         ∧ lines e' = [str "abx"; str "y"; str "z"]
         ∧ cy e' = 2 ∧ cx e' = len (str "z")).
Proof.
  split; [apply insertTextAtCursor_multi|].
  intros e Hl Hy Hx.
  destruct (insertTextAtCursor_multi e (str "x" ++ [LF] ++ str "y" ++ [LF] ++ str "z")
              (str "x") [str "y"] (str "z") (str "ab"))
    as (e' & He' & Hl' & Hy' & Hx').
  - eapply cursor_in_document_intro; rewrite ?Hl, ?Hy, ?Hx; [reflexivity|done|done].
  - rewrite Hl, Hy. reflexivity.
  - reflexivity.
  - exists e'. rewrite He', Hl', Hy', Hx', Hl, Hy, Hx. repeat split; reflexivity.
Qed.


Lemma set_offsetY_cursor oy e :
  cursor_in_document e → cursor_in_document (set_offsetY oy e).
Proof. apply cursor_in_document_ext; done. Qed.

(** C10, as the code has it.  Without a selection [getSelectionRange]
    returns (0,0,0,0), and [getSelectedText] returns the empty string
    whenever the range is (0,0,0,0).  So select-all on a document that
    is one empty line, although it makes the selection active, gives the
    range and the text of no selection. *)
Theorem selection_sentinel :
  (∀ e, selecting e = false → getSelectionRange e = Some (0, 0, 0, 0))
  ∧ (∀ e, getSelectionRange e = Some (0, 0, 0, 0) → getSelectedText e = Some [])
  ∧ (∀ env ev e e',
       lines e = [[]] → selecting e = false →
       Key ev = KeyCtrlA → Rune ev ≠ TAB →
       handleKey env ev e = Some e' →
       selecting e' = true
       ∧ getSelectionRange e' = Some (0, 0, 0, 0)
       ∧ getSelectedText e' = Some []).
Proof.
  assert (Hzero : ∀ e, getSelectionRange e = Some (0, 0, 0, 0) →
                       getSelectedText e = Some []).
  { intros e Hr. unfold getSelectedText. rewrite Hr. done. }
  split; [|split; [exact Hzero|]].
  - intros e Hsel. unfold getSelectionRange. rewrite Hsel. done.
  - intros env ev e e' Hl Hsel Hkey Hrune. unfold handleKey.
    rewrite Hkey, orb_false_r, (proj2 (Z.eqb_neq _ _) Hrune), Hsel. simpl.
    rewrite ?Hl. simpl. rewrite ?Hl. simpl.
    change (len [[]] - 1) with 0. change (len []) with 0.
    match goal with |- context [ensureVisible ?x] =>
      destruct (ensureVisible_fix x) as [oy ->] end.
    { eapply cursor_in_document_intro; simpl; rewrite ?Hl; [reflexivity|done|done]. }
    simpl.
    match goal with |- context [ensureVisible ?x] =>
      destruct (ensureVisible_fix x) as [oy' ->] end.
    { eapply cursor_in_document_intro; simpl; rewrite ?Hl; [reflexivity|done|done]. }
    intros [= <-].
    assert (Hrange : getSelectionRange
              (set_offsetY oy'
                 (set_selectAllBeforeLLM true
                    (set_ctrlAState true
                       (set_offsetY oy
                          (set_cx 0
                             (set_cy 0
                                (set_selectStartY 0
                                   (set_selectStartX 0 (set_selecting true e)))))))))
              = Some (0, 0, 0, 0)).
    { unfold getSelectionRange. simpl. rewrite Hl. destruct (lineSelecting e); done. }
    split; [done|]. split; [exact Hrange|]. apply Hzero, Hrange.
Qed.

(** ** Loading and saving *)




(** ** wrapLine against the specification *)

Lemma spec_wrap_fits cells W todo : ∀ segment width,
  (∀ r, r ∈ todo → r ≠ TAB ∧ 0 ≤ cells r ∧ cells r ≤ 2) →
  width + 2 * len todo ≤ W →
  spec_wrap cells W todo segment width = [segment ++ todo].
Proof.
  induction todo as [|r todo IH]; intros segment width Hc Hw; simpl.
  - rewrite app_nil_r. done.
  - destruct (Hc r) as (Htab & H0 & H2); [left|].
    rewrite len_cons in Hw. pose proof (len_nonneg todo).
    unfold spec_cells. replace (r =? TAB) with false by (symmetry; apply Z.eqb_neq; done).
    replace (width + cells r >? W) with false
      by (symmetry; rewrite Z.gtb_ltb; apply Z.ltb_ge; lia).
    simpl. rewrite IH.
    + rewrite <- app_assoc. done.
    + intros r' Hr'. apply Hc. right. done.
    + lia.
Qed.

Lemma spec_wrap_ext cells1 cells2 W todo :
  (∀ r, r ∈ todo → r ≠ TAB → cells1 r = cells2 r) →
  ∀ segment width,
    spec_wrap cells1 W todo segment width = spec_wrap cells2 W todo segment width.
Proof.
  induction todo as [|r todo IH]; intros Hc segment width; [done|].
  assert (Hr : ∀ col, spec_cells cells1 col r = spec_cells cells2 col r).
  { intros col. unfold spec_cells. destruct (r =? TAB) eqn:Ht; [done|].
    apply Hc; [left|apply Z.eqb_neq, Ht]. }
  simpl. rewrite !Hr.
  rewrite !IH by (intros r' Hr'; apply Hc; right; done). done.
Qed.

(** C4 at its failing inputs.  Four CJK glyphs of two cells each fit a
    width of 10 cells, and the specification keeps them in one segment;
    [wrapLine] charges each its three UTF-8 bytes and wraps after the
    third.  A tab that opens a segment is charged what it took at the
    column it left, so the segment after "abcde" at width 5 holds a tab
    and two letters, six cells; the specification wraps before the
    second letter. *)
Theorem wrapLine_charges_bytes :
  (∀ e, wrapLine (set_contentWidth 10 e) (replicate 4 0x4E2D)
        = Some [replicate 3 0x4E2D; [0x4E2D]])
  ∧ (∀ cells, 0 ≤ cells 0x4E2D ∧ cells 0x4E2D ≤ 2 →
       spec_wrapLine cells 10 (replicate 4 0x4E2D) = [replicate 4 0x4E2D])
  ∧ (∀ e, wrapLine (set_contentWidth 5 e) (str "abcde" ++ [TAB] ++ str "xy")
          = Some [str "abcde"; [TAB] ++ str "xy"])
  ∧ (∀ cells, (∀ r, 32 ≤ r ∧ r < 127 → cells r = 1) →
       spec_wrapLine cells 5 (str "abcde" ++ [TAB] ++ str "xy")
       = [str "abcde"; [TAB] ++ str "x"; str "y"]).
Proof.
  split; [|split; [|split]].
  - intros e. vm_compute. reflexivity.
  - intros cells Hc. unfold spec_wrapLine. rewrite spec_wrap_fits; [done| |done].
    intros r Hr. apply elem_of_replicate in Hr as [-> _]. split; [done|]. done.
  - intros e. vm_compute. reflexivity.
  - intros cells Hc. unfold spec_wrapLine.
    rewrite (spec_wrap_ext cells (λ _, 1)); [vm_compute; reflexivity|].
    intros r Hr Htab. apply Hc.
    repeat (apply elem_of_cons in Hr as [->|Hr]; [vm_compute; split; congruence|]).
    apply elem_of_nil in Hr. done.
Qed.

(** ** Bracket matching *)

Lemma closing_in_line_spec opening closing lineIdx rest todo :
  opening ≠ closing → ∀ colIdx nesting,
  1 ≤ nesting →
  match closing_in_line todo colIdx nesting opening closing with
  | Found k =>
      first_balanced opening closing nesting
        (line_positions lineIdx colIdx todo ++ rest) = Some (lineIdx, k)
  | Pending nesting' =>
      1 ≤ nesting'
      ∧ first_balanced opening closing nesting
          (line_positions lineIdx colIdx todo ++ rest)
        = first_balanced opening closing nesting' rest
  end.
Proof.
  intros Hne. induction todo as [|char todo IH]; intros colIdx nesting Hn; simpl.
  - done.
  - unfold count_bracket. destruct (char =? opening) eqn:Ho; zbool.
    + replace (nesting + 1 =? 0) with false by (symmetry; apply Z.eqb_neq; lia).
      apply IH. lia.
    + destruct (char =? closing) eqn:Hc; zbool.
      * destruct (nesting - 1 =? 0) eqn:Hz; zbool; [done|]. apply IH. lia.
      * replace (nesting =? 0) with false by (symmetry; apply Z.eqb_neq; lia).
        apply IH. lia.
Qed.

Lemma closing_in_lines_spec opening closing todoLines :
  opening ≠ closing → ∀ lineIdx colIdx nesting,
  1 ≤ nesting →
  closing_in_lines todoLines lineIdx colIdx nesting opening closing
  = match todoLines with
    | [] => None
    | line :: below =>
        first_balanced opening closing nesting
          (line_positions lineIdx colIdx (drop (Z.to_nat colIdx) line)
           ++ doc_positions (lineIdx + 1) below)
    end.
Proof.
  intros Hne. induction todoLines as [|line below IH]; intros lineIdx colIdx nesting Hn.
  - done.
  - simpl.
    pose proof (closing_in_line_spec opening closing lineIdx
                  (doc_positions (lineIdx + 1) below)
                  (drop (Z.to_nat colIdx) line) Hne colIdx nesting Hn) as Hline.
    destruct (closing_in_line _ _ _ _ _) as [k|nesting'].
    + rewrite Hline. done.
    + destruct Hline as [Hn' ->]. rewrite IH by done.
      destruct below as [|line' below']; [done|]. done.
Qed.

Lemma openBrackets_distinct opening closing :
  openBrackets opening = Some closing → opening ≠ closing.
Proof.
  unfold openBrackets. intros Hb Heq. subst closing.
  destruct (opening =? ch "(") eqn:H1; zbool;
    [subst opening; vm_compute in Hb; discriminate Hb|].
  destruct (opening =? ch "[") eqn:H2; zbool;
    [subst opening; vm_compute in Hb; discriminate Hb|].
  destruct (opening =? ch "{") eqn:H3; zbool;
    [subst opening; vm_compute in Hb; discriminate Hb|].
  discriminate Hb.
Qed.

Lemma index_drop {A} (l : list A) i x :
  index l i = Some x → ∃ below, drop (Z.to_nat i) l = x :: below.
Proof.
  unfold index. case_decide; [|done]. intros Hl.
  exists (drop (S (Z.to_nat i)) l). apply drop_S, Hl.
Qed.

(** C8.  From an opening bracket [findMatchingBracket] returns the first
    position after it, in document order and across lines, at which a
    counter started at 1, raised by every bracket of the same kind and
    lowered by every matching closing one, reaches 0; when it never does,
    the result is the nil pair and no failure.  In "(a(b)c)" the bracket
    at column 0 is matched with the one at column 6, and the one at
    column 6 with the one at column 0. *)
Theorem findMatchingBracket_forward :
  (∀ fuel e startLine startCol line opening closing,
     index (lines e) startLine = Some line →
     index line startCol = Some opening →
     openBrackets opening = Some closing →
     findMatchingBracket fuel e startLine startCol
     = Some match first_balanced opening closing 1
                    (positions_after (lines e) startLine startCol) with
            | Some (lineIdx, colIdx) =>
                Some {| OpenLine := startLine; OpenCol := startCol;
                        CloseLine := lineIdx; CloseCol := colIdx |}
            | None => None
            end)
  ∧ (∀ fuel e,
       lines e = [str "(a(b)c)"] →
       findMatchingBracket fuel e 0 0
       = Some (Some {| OpenLine := 0; OpenCol := 0; CloseLine := 0; CloseCol := 6 |}))
  ∧ (∀ fuel e,
       lines e = [str "(a(b)c)"] → (8 ≤ fuel)%nat →
       findMatchingBracket fuel e 0 6
       = Some (Some {| OpenLine := 0; OpenCol := 0; CloseLine := 0; CloseCol := 6 |})).
Proof.
  split; [|split].
  - intros fuel e startLine startCol line opening closing Hline Hchar Hopen.
    pose proof (index_range _ _ _ Hline) as [Hl0 Hl1].
    pose proof (index_range _ _ _ Hchar) as [Hc0 Hc1].
    pose proof (openBrackets_distinct _ _ Hopen) as Hne.
    unfold findMatchingBracket.
    replace ((startLine <? 0) || (startLine >=? len (lines e))) with false
      by (symmetry; apply orb_false_iff; split;
          [apply Z.ltb_ge|rewrite Z.geb_leb; apply Z.leb_gt]; lia).
    rewrite Hline. simpl.
    replace ((startCol <? 0) || (startCol >=? len line)) with false
      by (symmetry; apply orb_false_iff; split;
          [apply Z.ltb_ge|rewrite Z.geb_leb; apply Z.leb_gt]; lia).
    rewrite Hchar. simpl. rewrite Hopen. f_equal.
    unfold findClosingBracket.
    replace ((startLine <? 0) || (startLine >=? len (lines e))) with false
      by (symmetry; apply orb_false_iff; split;
          [apply Z.ltb_ge|rewrite Z.geb_leb; apply Z.leb_gt]; lia).
    rewrite Hline. simpl.
    replace ((startCol <? 0) || (startCol >=? len line)) with false
      by (symmetry; apply orb_false_iff; split;
          [apply Z.ltb_ge|rewrite Z.geb_leb; apply Z.leb_gt]; lia).
    rewrite closing_in_lines_spec by (done || lia).
    unfold positions_after.
    destruct (index_drop _ _ _ Hline) as (below & ->).
    destruct (first_balanced _ _ _ _) as [[lineIdx colIdx]|]; done.
  - intros fuel e Hl. unfold findMatchingBracket, findClosingBracket.
    rewrite Hl. reflexivity.
  - intros fuel e Hl Hfuel.
    do 8 (destruct fuel as [|fuel]; [lia|]).
    unfold findMatchingBracket, findOpeningBracket. rewrite Hl. reflexivity.
Qed.

(** ** Runs of events and of edits *)

Lemma run_reachable evs : ∀ e e', reachable e → run evs e = Some e' → reachable e'.
Proof.
  induction evs as [|ev evs IH]; intros e e' Hreach; simpl.
  - intros [= <-]. done.
  - intros Hr. apply bind_Some in Hr as (e1 & Hstep & Hr).
    eapply IH; [|exact Hr]. eapply reachable_step; eauto.
Qed.


Lemma reachable_editor_on content : reachable (editor_on content).
Proof. unfold editor_on. apply reachable_new. Qed.

Lemma editor_on_inv content : cursor_in_document (editor_on content).
Proof. unfold editor_on. apply NewEditor_inv. Qed.

End Visibility.


(** * Further properties of the code *)

(** ** wrapLine: the shape of the segments *)

Lemma len_concat_ge {A} (segs : list (list A)) :
  Forall (λ seg, seg ≠ []) segs → len segs ≤ len (concat segs).
Proof.
  induction 1 as [|seg segs Hseg _ IH]; simpl; [done|].
  rewrite len_cons, len_app. destruct seg as [|x seg]; [done|].
  rewrite len_cons. pose proof (len_nonneg seg). lia.
Qed.

Lemma wrapLine_range_nonempty e runes todo : ∀ i parts cw start parts' start',
  0 ≤ start → start ≤ i → todo = drop (Z.to_nat i) runes → i ≤ len runes →
  Forall (λ seg, seg ≠ []) parts →
  wrapLine_range e runes todo i parts cw start = Some (parts', start') →
  Forall (λ seg, seg ≠ []) parts' ∧ (start' = start ∨ start' < len runes).
Proof.
  induction todo as [|r todo IH]; intros i parts cw start parts' start' Hs Hi Htodo Hlen Hparts.
  - simpl. intros [= <- <-]. auto.
  - assert (Hi1 : i + 1 ≤ len runes).
    { assert (length (drop (Z.to_nat i) runes) = S (length todo)) as Hl
        by (rewrite <- Htodo; done).
      rewrite length_drop in Hl. unfold len. lia. }
    assert (Htodo' : todo = drop (Z.to_nat (i + 1)) runes).
    { replace (Z.to_nat (i + 1)) with (1 + Z.to_nat i)%nat by lia.
      rewrite Nat.add_comm, <- drop_drop, <- Htodo. done. }
    simpl.
    match goal with |- context [if ?c then _ else _] => destruct c eqn:Hc end.
    + zbool. rewrite slice_Some by lia. simpl. intros Hr.
      apply IH in Hr as [Hne Hst]; try lia; try done.
      * split; [done|]. right. lia.
      * apply Forall_app. split; [done|]. apply Forall_singleton.
        intros Hnil. apply (f_equal length) in Hnil.
        rewrite length_take, length_drop in Hnil. simpl in Hnil. unfold len in *. lia.
    + intros Hr. apply IH in Hr; try lia; done.
Qed.

Lemma wrapLine_concat e line segs : wrapLine e line = Some segs → concat segs = line.
Proof.
  unfold wrapLine. destruct (len line =? 0) eqn:Hl; zbool.
  - intros [= <-]. apply len_zero_nil in Hl. subst. done.
  - destruct (wrapLine_range_glue e line line 0 [] 0 0)
      as (parts & start & Heq & H0 & H1 & Hcat); try lia; try done.
    { apply len_nonneg. }
    rewrite Heq. simpl. unfold slice_from. rewrite slice_Some by lia. simpl.
    intros [= <-]. rewrite concat_app. simpl. rewrite app_nil_r.
    rewrite take_ge by (rewrite length_drop; unfold len; lia).
    rewrite Hcat. done.
Qed.

Lemma wrapLine_segments_nonempty e line segs :
  line ≠ [] → wrapLine e line = Some segs → Forall (λ seg, seg ≠ []) segs.
Proof.
  intros Hne Hw.
  unfold wrapLine in Hw. destruct (len line =? 0) eqn:Hl; zbool.
  { apply len_zero_nil in Hl. done. }
  apply bind_Some in Hw as ([parts start] & Hr & Hw).
  apply bind_Some in Hw as (seg & Hseg & [= <-]).
  apply slice_from_inv in Hseg as (Hs0 & Hs1 & -> & Hlen).
  apply wrapLine_range_nonempty in Hr as [Hparts Hst];
    try lia; try done.
  apply Forall_app. split; [done|]. apply Forall_singleton.
  intros Hnil. apply (f_equal length) in Hnil. rewrite length_drop in Hnil.
  simpl in Hnil. pose proof (len_nonneg line). unfold len in *. lia.
Qed.

(** X2.  A line that is not empty is never wrapped into an empty
    segment, so it takes at most as many display rows as it has
    runes. *)
Theorem wrapLine_no_empty_segment e line segs :
  line ≠ [] → wrapLine e line = Some segs →
  Forall (λ seg, seg ≠ []) segs ∧ len segs ≤ len line.
Proof.
  intros Hne Hw.
  pose proof (wrapLine_segments_nonempty e line segs Hne Hw) as Hall.
  split; [done|].
  pose proof (len_concat_ge segs Hall) as Hle.
  rewrite (wrapLine_concat e line segs Hw) in Hle. done.
Qed.

(** The width [wrapLine] charges an ASCII rune other than a tab. *)
Lemma ascii_width r (cw : Z) :
  0 ≤ r → r ≤ 127 → r ≠ TAB →
  (if r =? TAB then 4 - Z.rem cw 4
   else if unicode.IsSpace r then 1 else utf8.RuneLen r) = 1.
Proof.
  intros H0 H1 Ht. replace (r =? TAB) with false by (symmetry; apply Z.eqb_neq; done).
  destruct (unicode.IsSpace r); [done|]. unfold utf8.RuneLen.
  replace (r <? 0) with false by (symmetry; apply Z.ltb_ge; done).
  replace (r <=? 127) with true by (symmetry; apply Z.leb_le; done). done.
Qed.

Lemma wrapLine_range_ascii e (runes todo : list rune) : ∀ i parts cw start parts' start',
  1 ≤ contentWidth e →
  0 ≤ start → start ≤ i → todo = drop (Z.to_nat i) runes → i ≤ len runes →
  Forall (λ r : rune, 0 ≤ r ∧ r ≤ 127 ∧ r ≠ TAB) todo →
  cw = i - start → cw ≤ contentWidth e →
  Forall (λ seg, len seg = contentWidth e) parts →
  wrapLine_range e runes todo i parts cw start = Some (parts', start') →
  Forall (λ seg, len seg = contentWidth e) parts'
  ∧ 0 ≤ start' ∧ len runes - start' ≤ contentWidth e.
Proof.
  induction todo as [|r todo IH];
    intros i parts cw start parts' start' HW Hs Hi Htodo Hlen Hascii Hcw Hle Hparts.
  - simpl. intros [= <- <-]. split; [done|]. split; [done|].
    assert (length (drop (Z.to_nat i) runes) = 0%nat) as Hl by (rewrite <- Htodo; done).
    rewrite length_drop in Hl. unfold len in *. lia.
  - assert (Hi1 : i + 1 ≤ len runes).
    { assert (length (drop (Z.to_nat i) runes) = S (length todo)) as Hl
        by (rewrite <- Htodo; done).
      rewrite length_drop in Hl. unfold len. lia. }
    assert (Htodo' : todo = drop (Z.to_nat (i + 1)) runes).
    { replace (Z.to_nat (i + 1)) with (1 + Z.to_nat i)%nat by lia.
      rewrite Nat.add_comm, <- drop_drop, <- Htodo. done. }
    apply Forall_cons in Hascii as [(Hr0 & Hr1 & Hrt) Hascii].
    simpl. rewrite ascii_width by done.
    match goal with |- context [if ?c then _ else _] => destruct c eqn:Hc end.
    + zbool. rewrite slice_Some by lia. simpl. intros Hr.
      apply IH in Hr; try lia; try done.
      apply Forall_app. split; [done|]. apply Forall_singleton.
      unfold len. rewrite length_take, length_drop. unfold len in *. lia.
    + intros Hr. apply andb_false_iff in Hc.
      apply IH in Hr; try lia; done.
Qed.

(** X3.  A line of ASCII runes without tabs is cut into pieces of
    exactly [contentWidth] runes, the last piece holding what is left,
    between one rune and [contentWidth]. *)
Theorem wrapLine_ascii_chunks e (line : gostring) segs :
  1 ≤ contentWidth e → line ≠ [] →
  Forall (λ r : rune, 0 ≤ r ∧ r ≤ 127 ∧ r ≠ TAB) line →
  wrapLine e line = Some segs →
  ∃ full last,
    segs = full ++ [last]
    ∧ Forall (λ seg, len seg = contentWidth e) full
    ∧ 1 ≤ len last ∧ len last ≤ contentWidth e
    ∧ concat full ++ last = line.
Proof.
  intros HW Hne Hascii Hw.
  pose proof (wrapLine_concat e line segs Hw) as Hcat.
  pose proof (wrapLine_segments_nonempty e line segs Hne Hw) as Hall.
  unfold wrapLine in Hw. destruct (len line =? 0) eqn:Hl; zbool.
  { apply len_zero_nil in Hl. done. }
  apply bind_Some in Hw as ([parts start] & Hr & Hw).
  apply bind_Some in Hw as (seg & Hseg & [= <-]).
  apply slice_from_inv in Hseg as (Hs0 & Hs1 & -> & Hlen).
  apply wrapLine_range_ascii in Hr as (Hfull & Hst0 & Hst); try lia; try done.
  exists parts, (drop (Z.to_nat start) line).
  split; [done|]. split; [done|].
  rewrite Forall_app, Forall_singleton in Hall. destruct Hall as [_ Hlast].
  split; [|split; [lia|]].
  - destruct (drop (Z.to_nat start) line) eqn:Hd; [done|].
    rewrite len_cons. pose proof (len_nonneg l). lia.
  - rewrite concat_app in Hcat. simpl in Hcat. rewrite app_nil_r in Hcat. done.
Qed.

Section Window.
Context `{runewidth.Table}.

(** ** ensureVisible: the cursor's row and the window *)

Lemma for_range_ext {S} (body1 body2 : Z → S → option S) n :
  (∀ i s, body1 i s = body2 i s) →
  ∀ i s, for_range n i body1 s = for_range n i body2 s.
Proof.
  intros Hext. induction n as [|n IH]; intros i s; simpl; [done|].
  rewrite Hext. destruct (body2 i s); simpl; [apply IH|done].
Qed.

Lemma wrapLine_range_ext e1 e2 runes todo :
  contentWidth e1 = contentWidth e2 →
  ∀ i parts cw start,
    wrapLine_range e1 runes todo i parts cw start
    = wrapLine_range e2 runes todo i parts cw start.
Proof.
  intros HW. induction todo as [|r todo IH]; intros i parts cw start; simpl; [done|].
  rewrite HW. destruct (_ && _); [|apply IH].
  destruct (slice runes start i); simpl; [apply IH|done].
Qed.

Lemma wrapLine_ext e1 e2 line :
  contentWidth e1 = contentWidth e2 → wrapLine e1 line = wrapLine e2 line.
Proof.
  intros HW. unfold wrapLine. rewrite (wrapLine_range_ext e1 e2) by done. done.
Qed.

Lemma cursorDisplayPosition_offsetY oy e row seg cell :
  cursor_in_document e →
  cursorDisplayPosition e = Some (row, seg, cell, e) →
  cursorDisplayPosition (set_offsetY oy e) = Some (row, seg, cell, set_offsetY oy e).
Proof.
  intros Hinv. unfold cursorDisplayPosition.
  destruct (cursor_clamp_spec e) as (e1 & -> & _ & _ & Hfix). rewrite (Hfix Hinv).
  destruct (cursor_clamp_spec (set_offsetY oy e)) as (e2 & -> & _ & _ & Hfix2).
  rewrite (Hfix2 (set_offsetY_cursor oy e Hinv)). simpl.
  unfold for_upto.
  rewrite (for_range_ext
             (λ i totalBefore,
                index (lines e) i ≫= λ line,
                  wrapLine (set_offsetY oy e) line ≫= λ segs, Some (totalBefore + len segs))
             (λ i totalBefore,
                index (lines e) i ≫= λ line,
                  wrapLine e line ≫= λ segs, Some (totalBefore + len segs)))
    by (intros i s; destruct (index (lines e) i); simpl; [|done];
        rewrite (wrapLine_ext (set_offsetY oy e) e) by done; done).
  destruct (for_range _ _ _ _) as [totalBefore|]; simpl; [|done].
  destruct Hinv as (_ & _ & line & Hline & Hx0 & Hx1). rewrite Hline. simpl.
  rewrite (wrapLine_ext (set_offsetY oy e) e) by done.
  destruct (wrapLine e line) as [segs|]; simpl; [|done].
  replace (cx e >? len line) with false by (symmetry; rewrite Z.gtb_ltb; apply Z.ltb_ge; done).
  destruct (cursor_segment _ _ _ _ _) as [[[[r s] c]|]|]; simpl; try done.
  - intros [= <- <- <-]. done.
  - destruct (index segs _); simpl; [|done]. destruct (cells_upto _ _); simpl; [|done].
    intros [= <- <- <-]. done.
Qed.

(** X4.  [ensureVisible] never fails.  After it the cursor is in the
    document, its display row lies inside the window of
    [max(1, contentHeight-4)] rows that starts at [offsetY], and a
    second call changes nothing. *)
Theorem ensureVisible_shows_cursor e :
  ∃ e' row seg cell,
    ensureVisible e = Some e'
    ∧ cursor_in_document e'
    ∧ cursorDisplayPosition e' = Some (row, seg, cell, e')
    ∧ offsetY e' ≤ row
    ∧ row < offsetY e' + Z.max 1 (contentHeight e' - 4)
    ∧ ensureVisible e' = Some e'.
Proof.
  unfold ensureVisible at 1.
  destruct (visible_clamp_spec e) as (e1 & -> & Hinv1 & _). simpl.
  destruct (cursorDisplayPosition_spec e1) as (row & seg & cell & e2 & Hd & _ & Hfix).
  rewrite (Hfix Hinv1) in Hd. rewrite Hd. simpl.
  assert (Hgoal : ∀ oy,
            offsetY (set_offsetY oy e1) ≤ row →
            row < offsetY (set_offsetY oy e1) + Z.max 1 (contentHeight e1 - 4) →
            cursor_in_document (set_offsetY oy e1)
            ∧ cursorDisplayPosition (set_offsetY oy e1)
              = Some (row, seg, cell, set_offsetY oy e1)
            ∧ offsetY (set_offsetY oy e1) ≤ row
            ∧ row < offsetY (set_offsetY oy e1)
                    + Z.max 1 (contentHeight (set_offsetY oy e1) - 4)
            ∧ ensureVisible (set_offsetY oy e1) = Some (set_offsetY oy e1)).
  { intros oy Hlo Hhi.
    pose proof (set_offsetY_cursor oy e1 Hinv1) as Hinv.
    pose proof (cursorDisplayPosition_offsetY oy e1 row seg cell Hinv1 Hd) as Hd'.
    split; [done|]. split; [done|]. split; [done|]. split; [done|].
    unfold ensureVisible.
    destruct (visible_clamp_spec (set_offsetY oy e1)) as (e3 & -> & _ & Hfix3).
    rewrite (Hfix3 Hinv). simpl. rewrite Hd'. simpl in *.
    split_ifs; first [done | lia]. }
  assert (Hsame : set_offsetY (offsetY e1) e1 = e1) by (destruct e1; done).
  exists (if row <? offsetY e1 then set_offsetY row e1
          else if row >=? offsetY e1
                          + (if contentHeight e1 - 4 <? 1 then 1 else contentHeight e1 - 4)
               then set_offsetY
                      (row - (if contentHeight e1 - 4 <? 1 then 1 else contentHeight e1 - 4) + 1)
                      e1
               else e1), row, seg, cell.
  split; [split_ifs; done|].
  split_ifs.
  - apply Hgoal; simpl; lia.
  - apply Hgoal; simpl; lia.
  - apply Hgoal; simpl; lia.
  - rewrite <- Hsame. apply Hgoal; simpl; lia.
  - rewrite <- Hsame. apply Hgoal; simpl; lia.
Qed.

End Window.

(** ** Slices of a list cut at a known place *)

(** [lia] that reads lengths of rune lists and of lists of integers as
    the same terms. *)
Ltac rlia := unfold rune in *; lia.

(** Decides the condition of the first [if] of the goal by arithmetic. *)
Ltac decide_if :=
  match goal with
  | |- context [if ?c then _ else _] =>
      first [ replace c with true by (symmetry; rlia)
            | replace c with false by (symmetry; rlia) ]
  end; simpl.

Lemma slice_to_Some {A} (l : list A) k :
  0 ≤ k → k ≤ len l → slice_to l k = Some (take (Z.to_nat k) l).
Proof.
  intros H0 H1. unfold slice_to. rewrite slice_Some by lia.
  rewrite drop_0, Z.sub_0_r. done.
Qed.

Lemma slice_from_Some {A} (l : list A) k :
  0 ≤ k → k ≤ len l → slice_from l k = Some (drop (Z.to_nat k) l).
Proof.
  intros H0 H1. unfold slice_from. rewrite slice_Some by lia.
  rewrite take_ge; [done|]. rewrite length_drop. unfold len. lia.
Qed.

Lemma len_take {A} (l : list A) k : 0 ≤ k → k ≤ len l → len (take (Z.to_nat k) l) = k.
Proof. intros. unfold len in *. rewrite length_take. lia. Qed.

Lemma len_drop {A} (l : list A) k : 0 ≤ k → k ≤ len l → len (drop (Z.to_nat k) l) = len l - k.
Proof. intros. unfold len in *. rewrite length_drop. lia. Qed.

Lemma len_pos {A} (l : list A) : l ≠ [] → 1 ≤ len l.
Proof. destruct l as [|x l]; [done|]. intros _. rewrite len_cons. pose proof (len_nonneg l). lia. Qed.

Lemma index_at {A} (a b : list A) x : index (a ++ x :: b) (len a) = Some x.
Proof.
  unfold index. case_decide as Hd; [|pose proof (len_nonneg a); lia].
  unfold len. rewrite Nat2Z.id. apply list_lookup_middle. done.
Qed.

Lemma store_at {A} (a b : list A) x v : store (a ++ x :: b) (len a) v = Some (a ++ v :: b).
Proof.
  unfold store. case_decide as Hd.
  - unfold len. rewrite Nat2Z.id. f_equal.
    rewrite <- (Nat.add_0_r (length a)), insert_app_r. done.
  - exfalso. apply Hd. pose proof (len_nonneg a). pose proof (len_nonneg b).
    rewrite len_app, len_cons. lia.
Qed.

Lemma slice_to_at {A} (a b : list A) : slice_to (a ++ b) (len a) = Some a.
Proof.
  pose proof (len_nonneg a). pose proof (len_nonneg b).
  unfold slice_to. rewrite slice_Some by (rewrite ?len_app; lia).
  rewrite drop_0, Z.sub_0_r. unfold len. rewrite Nat2Z.id, take_app_length. done.
Qed.

Lemma slice_from_at {A} (a b : list A) : slice_from (a ++ b) (len a) = Some b.
Proof.
  pose proof (len_nonneg a). pose proof (len_nonneg b).
  unfold slice_from. rewrite slice_Some by (rewrite ?len_app; lia).
  unfold len. rewrite Nat2Z.id, drop_app_length, take_ge; [done|].
  rewrite length_app. lia.
Qed.

Lemma slice_at {A} (a m b : list A) :
  slice (a ++ m ++ b) (len a) (len a + len m) = Some m.
Proof.
  pose proof (len_nonneg a). pose proof (len_nonneg m). pose proof (len_nonneg b).
  rewrite slice_Some by (rewrite ?len_app; lia).
  unfold len. rewrite Nat2Z.id, drop_app_length.
  replace (Z.to_nat (Z.of_nat (length a) + Z.of_nat (length m) - Z.of_nat (length a)))
    with (length m) by lia.
  rewrite take_app_length. done.
Qed.

Lemma insert_at_at {A} (a b : list A) x : insert_at (a ++ b) (len a) x = Some (a ++ x :: b).
Proof. unfold insert_at. rewrite slice_to_at, slice_from_at. done. Qed.

Lemma cut_out_at {A} (a m b : list A) :
  cut_out (a ++ m ++ b) (len a) (len a + len m) = Some (a ++ b).
Proof.
  unfold cut_out. rewrite slice_to_at. simpl.
  rewrite app_assoc, <- len_app, slice_from_at. done.
Qed.

Lemma index_at' {A} (a b : list A) x i l :
  l = a ++ x :: b → i = len a → index l i = Some x.
Proof. intros -> ->. apply index_at. Qed.

Lemma store_at' {A} (a b : list A) x v i l :
  l = a ++ x :: b → i = len a → store l i v = Some (a ++ v :: b).
Proof. intros -> ->. apply store_at. Qed.

Lemma insert_at_at' {A} (a b : list A) x i l :
  l = a ++ b → i = len a → insert_at l i x = Some (a ++ x :: b).
Proof. intros -> ->. apply insert_at_at. Qed.

Lemma cut_out_at' {A} (a m b : list A) i j l :
  l = a ++ m ++ b → i = len a → j = len a + len m → cut_out l i j = Some (a ++ b).
Proof. intros -> -> ->. apply cut_out_at. Qed.

Lemma slice_at' {A} (a m b : list A) i j l :
  l = a ++ m ++ b → i = len a → j = len a + len m → slice l i j = Some m.
Proof. intros -> -> ->. apply slice_at. Qed.

Lemma slice_to_at' {A} (a b : list A) i l :
  l = a ++ b → i = len a → slice_to l i = Some a.
Proof. intros -> ->. apply slice_to_at. Qed.

Lemma slice_from_at' {A} (a b : list A) i l :
  l = a ++ b → i = len a → slice_from l i = Some b.
Proof. intros -> ->. apply slice_from_at. Qed.

Lemma split_at {A} (l : list A) i x :
  index l i = Some x → ∃ a b, l = a ++ x :: b ∧ len a = i.
Proof.
  intros Hi. pose proof (index_range _ _ _ Hi) as [H0 H1].
  unfold index in Hi. case_decide; [|done].
  exists (take (Z.to_nat i) l), (drop (S (Z.to_nat i)) l). split.
  - symmetry. apply take_drop_middle. done.
  - unfold len in *. rewrite length_take. lia.
Qed.

Lemma split_col {A} (l : list A) k :
  0 ≤ k → k ≤ len l → ∃ a b, l = a ++ b ∧ len a = k.
Proof.
  intros H0 H1. exists (take (Z.to_nat k) l), (drop (Z.to_nat k) l). split.
  - symmetry. apply take_drop.
  - unfold len in *. rewrite length_take. lia.
Qed.

(** Decides, by arithmetic, an [if] of the goal whose condition holds no
    other [if]. *)
Ltac decide_inner :=
  match goal with
  | |- context [if ?c then _ else _] =>
      lazymatch c with
      | context [if _ then _ else _] => fail
      | _ => first [ replace c with true by (symmetry; rlia)
                   | replace c with false by (symmetry; rlia) ]
      end
  end; simpl.

(** Spells out the lengths of the concatenations of the goal. *)
Ltac len_goal := repeat first [rewrite len_app | rewrite len_cons | rewrite len_nil].

(** Takes apart a hypothesis that a chain of binds and conditionals
    returned a value. *)
Ltac unbind H :=
  repeat first
    [ apply bind_Some in H as (? & ? & H)
    | match type of H with
      | context [if ?c then _ else _] => destruct c eqn:?
      | context [match ?p with (_, _) => _ end] => destruct p eqn:?
      end
    | progress simpl in H ].

(** ** Typing and deleting *)

Lemma insertRune_at r e above left right below :
  lines e = above ++ (left ++ right) :: below → cy e = len above → cx e = len left →
  ∃ e', insertRune r e = Some e'
    ∧ lines e' = above ++ (left ++ r :: right) :: below
    ∧ cx e' = cx e + 1 ∧ cy e' = cy e ∧ edited e e'.
Proof.
  intros Hl Hy Hx. pose proof (len_nonneg left).
  unfold insertRune. simpl. rewrite ?Hl, ?Hy, index_at. simpl.
  decide_if. rewrite ?Hx, slice_to_at, slice_from_at. simpl.
  rewrite ?Hl, ?Hy, store_at. simpl.
  eexists. split; [reflexivity|]. simpl. done.
Qed.

Lemma newline_at e above left right below :
  lines e = above ++ (left ++ right) :: below → cy e = len above → cx e = len left →
  ∃ e', newline e = Some e'
    ∧ lines e' = above ++ left :: right :: below
    ∧ cx e' = 0 ∧ cy e' = cy e + 1 ∧ edited e e'.
Proof.
  intros Hl Hy Hx.
  unfold newline. simpl. rewrite ?Hl, ?Hy, index_at. simpl.
  rewrite ?Hx, slice_to_at, slice_from_at. simpl.
  rewrite ?Hl, ?Hy, store_at. simpl.
  replace (above ++ left :: below) with ((above ++ [left]) ++ below)
    by (rewrite <- app_assoc; done).
  replace (len above + 1) with (len (above ++ [left])) by (rewrite len_app, len_cons, len_nil; lia).
  rewrite insert_at_at. simpl.
  eexists. split; [reflexivity|]. simpl. rewrite <- app_assoc. done.
Qed.

Lemma backspace_in_line e above left r right below :
  lines e = above ++ (left ++ r :: right) :: below → cy e = len above →
  cx e = len left + 1 →
  ∃ e', backspace e = Some e'
    ∧ lines e' = above ++ (left ++ right) :: below
    ∧ cx e' = len left ∧ cy e' = cy e ∧ edited e e'.
Proof.
  intros Hl Hy Hx. pose proof (len_nonneg left).
  unfold backspace. decide_if. rewrite ?Hl, ?Hy, index_at. simpl.
  rewrite Hx. replace (len left + 1 - 1) with (len left) by lia.
  change (left ++ r :: right) with (left ++ [r] ++ right).
  replace (len left + 1) with (len left + len [r]) by done.
  rewrite cut_out_at. simpl. rewrite ?Hl, ?Hy, store_at. simpl.
  eexists. split; [reflexivity|]. simpl. done.
Qed.

Lemma backspace_joins e above prev cur below :
  lines e = above ++ prev :: cur :: below → cy e = len above + 1 → cx e ≤ 0 →
  ∃ e', backspace e = Some e'
    ∧ lines e' = above ++ (prev ++ cur) :: below
    ∧ cx e' = len prev ∧ cy e' = len above ∧ edited e e'.
Proof.
  intros Hl Hy Hx. pose proof (len_nonneg above).
  unfold backspace. decide_if. decide_if.
  rewrite ?Hl, ?Hy. replace (len above + 1 - 1) with (len above) by lia.
  rewrite index_at. simpl.
  rewrite (index_at' (above ++ [prev]) below cur (len above + 1)
             (above ++ prev :: cur :: below))
    by (rewrite <- ?app_assoc, ?len_app, ?len_cons, ?len_nil; first [done | lia]).
  simpl. rewrite ?Hl, ?Hy.
  replace (len above + 1 - 1) with (len above) by lia.
  rewrite store_at. simpl.
  rewrite (cut_out_at' (above ++ [prev ++ cur]) [cur] below
             (len above + 1) (len above + 1 + 1)
             (above ++ (prev ++ cur) :: cur :: below))
    by (rewrite <- ?app_assoc, ?len_app, ?len_cons, ?len_nil; first [done | lia]).
  simpl.
  eexists. split; [reflexivity|]. simpl. rewrite <- app_assoc. simpl. done.
Qed.

(** X5.  With the cursor in the document, a rune typed at the cursor
    lands at column [cx] and moves the cursor one column to the right,
    and [newline] breaks the line at the cursor and moves the cursor to
    the start of the new line; in both cases [backspace] right after
    gives back the lines and the cursor. *)
Theorem backspace_reverts_typing e above left right below :
  lines e = above ++ (left ++ right) :: below → cy e = len above → cx e = len left →
  (∀ r, ∃ e1 e2,
     insertRune r e = Some e1
     ∧ lines e1 = above ++ (left ++ r :: right) :: below
     ∧ cx e1 = cx e + 1 ∧ cy e1 = cy e
     ∧ backspace e1 = Some e2
     ∧ lines e2 = lines e ∧ cx e2 = cx e ∧ cy e2 = cy e)
  ∧ (∃ e1 e2,
       newline e = Some e1
       ∧ lines e1 = above ++ left :: right :: below
       ∧ cx e1 = 0 ∧ cy e1 = cy e + 1
       ∧ backspace e1 = Some e2
       ∧ lines e2 = lines e ∧ cx e2 = cx e ∧ cy e2 = cy e).
Proof.
  intros Hl Hy Hx. split.
  - intros r.
    destruct (insertRune_at r e above left right below Hl Hy Hx)
      as (e1 & He1 & Hl1 & Hx1 & Hy1 & _).
    destruct (backspace_in_line e1 above left r right below)
      as (e2 & He2 & Hl2 & Hx2 & Hy2 & _); [done|lia|lia|].
    exists e1, e2. repeat split; try done; congruence.
  - destruct (newline_at e above left right below Hl Hy Hx)
      as (e1 & He1 & Hl1 & Hx1 & Hy1 & _).
    destruct (backspace_joins e1 above left right below)
      as (e2 & He2 & Hl2 & Hx2 & Hy2 & _); [done|lia|lia|].
    exists e1, e2. repeat split; try done; congruence.
Qed.

Section Selection.
Context `{runewidth.Table}.

(** ** Deleting a line selection *)

Ltac len_norm := rewrite ?len_app, ?len_cons, ?len_nil in *.

Lemma getSelectionRange_lines e lo hi :
  selecting e = true → lineSelecting e = true →
  0 ≤ lo → lo ≤ hi → hi < len (lines e) →
  (selectStartY e = lo ∧ cy e = hi) ∨ (selectStartY e = hi ∧ cy e = lo) →
  ∃ endCol, getSelectionRange e = Some (lo, 0, hi, endCol).
Proof.
  intros Hsel Hline H0 H1 H2 Hends. unfold getSelectionRange. rewrite Hsel, Hline. simpl.
  destruct (index_Some (lines e) hi) as [line Hl]; [lia..|].
  destruct Hends as [[-> ->]|[-> ->]].
  - destruct (lo >? hi) eqn:Hgt; zbool; [lia|].
    decide_if. rewrite Hl. simpl. eauto.
  - destruct (hi >? lo) eqn:Hgt; zbool.
    + decide_if. rewrite Hl. simpl. eauto.
    + assert (hi = lo) as -> by lia. decide_if. rewrite Hl. simpl. eauto.
Qed.

Lemma deleteSelection_lines e above sel below :
  selecting e = true → lineSelecting e = true →
  lines e = above ++ sel ++ below → 1 ≤ len sel →
  (selectStartY e = len above ∧ cy e = len above + len sel - 1)
  ∨ (selectStartY e = len above + len sel - 1 ∧ cy e = len above) →
  ∃ e', deleteSelection e = Some e'
    ∧ lines e' = above ++ below
    ∧ cx e' = 0
    ∧ cy e' = (if len below =? 0 then Z.max 0 (len above - 1) else len above)
    ∧ selecting e' = false ∧ lineSelecting e' = false
    ∧ edited e e'.
Proof.
  intros Hsel Hline Hl Hn Hends.
  pose proof (len_nonneg above). pose proof (len_nonneg below).
  assert (Hlen : len (lines e) = len above + len sel + len below)
    by (rewrite Hl, !len_app; lia).
  destruct (getSelectionRange_lines e (len above) (len above + len sel - 1))
    as [endCol Hr]; try done; try lia.
  unfold deleteSelection. rewrite Hsel. simpl.
  change (getSelectionRange (pushUndo e)) with (getSelectionRange e). rewrite Hr. simpl.
  rewrite Hline. simpl. rewrite Hlen.
  decide_if. decide_if. decide_if.
  rewrite (cut_out_at' above sel below _ _ (lines e))
    by (first [done | lia]).
  simpl. len_norm.
  destruct (len below =? 0) eqn:Hb; zbool.
  - destruct (len above =? 0) eqn:Ha; zbool.
    + repeat (decide_inner; len_norm).
      eexists. split; [reflexivity|]. simpl. split; [done|]. split; [done|].
      split; [lia|]. done.
    + repeat (decide_inner; len_norm).
      destruct (index_Some (above ++ below) (len above + len below - 1)) as [line Hidx];
        [lia|len_norm; lia|].
      rewrite Hidx. simpl. pose proof (len_nonneg line). decide_inner.
      eexists. split; [reflexivity|]. simpl. split; [done|]. split; [done|].
      split; [lia|]. done.
  - repeat (decide_inner; len_norm).
    destruct (index_Some (above ++ below) (len above)) as [line Hidx];
      [lia|len_norm; lia|].
    rewrite Hidx. simpl. pose proof (len_nonneg line). decide_inner.
    eexists. split; [reflexivity|]. simpl. done.
Qed.


(** X6.  In line mode [deleteSelection] takes out the whole lines from
    the first to the last selected one, whatever the columns of anchor
    and cursor; the cursor goes to column 0 of the line that followed
    them, or of the last line left, and the selection ends.  One [undo]
    brings the lines and the cursor back. *)
Theorem deleteSelection_whole_lines e above sel below :
  cursor_in_document e → selecting e = true → lineSelecting e = true →
  lines e = above ++ sel ++ below → 1 ≤ len sel →
  (selectStartY e = len above ∧ cy e = len above + len sel - 1)
  ∨ (selectStartY e = len above + len sel - 1 ∧ cy e = len above) →
  ∃ e' e'',
    deleteSelection e = Some e'
    ∧ lines e' = above ++ below
    ∧ cx e' = 0
    ∧ cy e' = (if len below =? 0 then Z.max 0 (len above - 1) else len above)
    ∧ selecting e' = false
    ∧ undo e' = Some e''
    ∧ lines e'' = lines e ∧ cx e'' = cx e ∧ cy e'' = cy e.
Proof.
  intros Hinv Hsel Hline Hl Hn Hends.
  destruct (deleteSelection_lines e above sel below)
    as (e' & Hdel & Hl' & Hx' & Hy' & Hs' & _ & Hu & _); try done.
  destruct (undo_pops e' (undoStack e) (snapshot e) Hu)
    as (e'' & Hundo & _ & _ & _ & _ & Hback).
  destruct (Hback (snapshot_ok_of e Hinv)) as (Hl'' & Hx'' & Hy'').
  exists e', e''. done.
Qed.

Lemma index_nil {A} i : index (@nil A) i = None.
Proof. unfold index. case_decide; done. Qed.

Lemma ensureVisible_empty e :
  lines e = [] →
  ∃ e', ensureVisible e = Some e' ∧ lines e' = [[]] ∧ cx e' = 0 ∧ cy e' = 0
        ∧ same_history e e' ∧ selecting e' = selecting e.
Proof.
  intros Hl. unfold ensureVisible, visible_clamp. rewrite Hl. simpl.
  repeat split_if; (eexists; split; [reflexivity|]; unfold same_history; simpl; done).
Qed.

End Selection.

Section Moves.
Context `{runewidth.Table}.

(** ** Moving the cursor *)

Lemma same_text_refl e : same_text e e.
Proof. done. Qed.

Lemma same_text_trans e1 e2 e3 : same_text e1 e2 → same_text e2 e3 → same_text e1 e3.
Proof. unfold same_text. congruence. Qed.

Lemma same_text_lines e e' : same_text e e' → lines e' = lines e.
Proof. intros Hs. apply (f_equal lines) in Hs. done. Qed.

Lemma cursor_clamp_same_text e e' :
  lines e ≠ [] → cursor_clamp e = Some e' → same_text e e'.
Proof.
  intros Hne. assert (Hlen : len (lines e) ≠ 0).
  { intros Hz. apply len_zero_nil in Hz. done. }
  unfold cursor_clamp. intros Hr.
  unbind Hr; zbool; simpl in *; try lia; injection Hr as <-; done.
Qed.

Lemma visible_clamp_same_text e e' :
  lines e ≠ [] → visible_clamp e = Some e' → same_text e e'.
Proof.
  intros Hne. assert (Hlen : len (lines e) ≠ 0).
  { intros Hz. apply len_zero_nil in Hz. done. }
  unfold visible_clamp. intros Hr.
  unbind Hr; zbool; simpl in *; try lia; injection Hr as <-; done.
Qed.

Lemma cursorDisplayPosition_same_text e row seg cell e' :
  lines e ≠ [] → cursorDisplayPosition e = Some (row, seg, cell, e') → same_text e e'.
Proof.
  intros Hne. unfold cursorDisplayPosition. intros Hr.
  apply bind_Some in Hr as (e1 & Hclamp & Hr).
  apply cursor_clamp_same_text in Hclamp; [|done].
  apply bind_Some in Hr as (total & _ & Hr).
  apply bind_Some in Hr as (line & _ & Hr).
  apply bind_Some in Hr as (segs & _ & Hr).
  apply bind_Some in Hr as (found & _ & Hr).
  eapply same_text_trans; [exact Hclamp|].
  destruct found as [[[? ?] ?]|].
  - injection Hr as <- <- <- <-. split_ifs; done.
  - unbind Hr; injection Hr as <- <- <- <-; done.
Qed.

Lemma ensureVisible_same_text e e' :
  lines e ≠ [] → ensureVisible e = Some e' → same_text e e'.
Proof.
  intros Hne. unfold ensureVisible. intros Hr.
  apply bind_Some in Hr as (e1 & Hclamp & Hr).
  apply visible_clamp_same_text in Hclamp; [|done].
  apply bind_Some in Hr as ([[[row seg] cell] e2] & Hd & Hr).
  apply cursorDisplayPosition_same_text in Hd;
    [|rewrite (same_text_lines _ _ Hclamp); done].
  eapply same_text_trans; [exact Hclamp|].
  eapply same_text_trans; [exact Hd|].
  unbind Hr; injection Hr as <-; done.
Qed.


(** The end of a [switch] case that falls through to the closing
    [ensureVisible]. *)
Lemma ensureVisible_after e e0 :
  lines e0 = lines e → lines e ≠ [] →
  dirty e0 = dirty e → undoStack e0 = undoStack e → redoStack e0 = redoStack e →
  clipboard e0 = clipboard e →
  ∃ e', ensureVisible e0 = Some e'
    ∧ lines e' = lines e ∧ dirty e' = dirty e
    ∧ undoStack e' = undoStack e ∧ redoStack e' = redoStack e
    ∧ clipboard e' = clipboard e
    ∧ cursor_in_document e'.
Proof.
  intros Hl Hne Hd Hu Hr Hc.
  destruct (ensureVisible_sound e0) as (e' & He & Hinv).
  pose proof (ensureVisible_same_text e0 e' ltac:(rewrite Hl; done) He) as Hs.
  exists e'. split; [done|].
  pose proof (f_equal lines Hs) as H1. pose proof (f_equal dirty Hs) as H2.
  pose proof (f_equal undoStack Hs) as H3. pose proof (f_equal redoStack Hs) as H4.
  pose proof (f_equal clipboard Hs) as H5. simpl in *.
  split; [congruence|]. split; [congruence|]. split; [congruence|].
  split; [congruence|]. split; [congruence|]. done.
Qed.

Lemma shift_selection_frame b start e :
  start = startSelection ∨ start = startLineSelection →
  let e0 := shift_selection b start e in
  lines e0 = lines e ∧ cx e0 = cx e ∧ cy e0 = cy e ∧ dirty e0 = dirty e
  ∧ undoStack e0 = undoStack e ∧ redoStack e0 = redoStack e
  ∧ clipboard e0 = clipboard e.
Proof.
  intros [-> | ->]; unfold shift_selection, startSelection, startLineSelection, endSelection;
    split_ifs; simpl; done.
Qed.

(** Replaces the state after [shift_selection] by a name and the fields
    it shares with [e]. *)
Ltac frame_shift e :=
  match goal with
  | |- context [shift_selection ?b ?st e] =>
      destruct (shift_selection_frame b st e) as (Hl' & Hx' & Hy' & Hd' & Hu' & Hr' & Hc');
      [auto|];
      generalize dependent (shift_selection b st e); intros e0; intros
  end.

Ltac nav_side :=
  first [ done
        | simpl; done
        | simpl; congruence
        | split_ifs; simpl; congruence
        | unfold shift_selection, startSelection, startLineSelection, endSelection;
          split_ifs; simpl; done ].

(** Runs the next [ensureVisible] of the goal. *)
Ltac nav_step e :=
  match goal with
  | |- context [ensureVisible ?X] =>
      let e1 := fresh "e1" in
      destruct (ensureVisible_after e X)
        as (e1 & -> & ? & ? & ? & ? & ? & ?); [nav_side..|]; simpl
  end.

Ltac nav_done e := repeat nav_step e; eexists; split; [reflexivity|]; done.

(** X7.  The arrow keys, Home, End, Page Up, Page Down and Escape never
    fail on a state whose cursor is in the document, and they leave the
    lines, the dirty flag, both history stacks and the clipboard as they
    were. *)
Theorem navigation_keeps_the_text env ev e :
  cursor_in_document e → Rune ev ≠ TAB →
  Key ev ∈ [KeyUp; KeyDown; KeyLeft; KeyRight; KeyHome; KeyEnd; KeyPgUp; KeyPgDn;
            KeyEscape] →
  ∃ e', handleKey env ev e = Some e'
    ∧ lines e' = lines e ∧ dirty e' = dirty e
    ∧ undoStack e' = undoStack e ∧ redoStack e' = redoStack e
    ∧ clipboard e' = clipboard e
    ∧ cursor_in_document e'.
Proof.
  intros (Hlen & [Hy0 Hy1] & line & Hline & Hx0 & Hx1) Htab Hkey.
  assert (Hne : lines e ≠ []).
  { intros Hnil. rewrite Hnil, len_nil in Hlen. lia. }
  assert (Hnotab : (Rune ev =? TAB) = false) by (apply Z.eqb_neq; done).
  unfold handleKey. rewrite Hnotab.
  repeat (apply elem_of_cons in Hkey as [->|Hkey]); [..|by apply elem_of_nil in Hkey];
    simpl.
  - (* KeyUp *)
    destruct (Z.lt_ge_cases 0 (cy e)); repeat decide_inner.
    + destruct (index_Some (lines e) (cy e - 1)) as [prev Hprev]; [lia..|].
      rewrite Hprev. simpl. nav_done e.
    + nav_done e.
  - (* KeyDown *)
    destruct (Z.lt_ge_cases (cy e) (len (lines e) - 1)); repeat decide_inner.
    + destruct (index_Some (lines e) (cy e + 1)) as [next Hnext]; [lia..|].
      rewrite Hnext. simpl. nav_done e.
    + nav_done e.
  - (* KeyLeft *)
    frame_shift e.
    destruct (Z.lt_ge_cases 0 (cx e)); repeat decide_inner; [nav_done e|].
    destruct (Z.lt_ge_cases 0 (cy e)); repeat decide_inner.
    + destruct (index_Some (lines e) (cy e - 1)) as [prev Hprev]; [lia..|].
      rewrite Hy', Hl', Hprev. simpl. nav_done e.
    + destruct (selecting e); simpl; nav_done e.
  - (* KeyRight *)
    frame_shift e. rewrite Hline. simpl.
    destruct (Z.lt_ge_cases (cx e) (len line)); repeat decide_inner; [nav_done e|].
    destruct (Z.lt_ge_cases (cy e) (len (lines e) - 1)); repeat decide_inner;
      [nav_done e|].
    destruct (selecting e); simpl; nav_done e.
  - (* KeyHome *)
    frame_shift e. nav_done e.
  - (* KeyEnd *)
    frame_shift e. rewrite Hy', Hl', Hline. simpl. nav_done e.
  - (* KeyPgUp *)
    frame_shift e. nav_done e.
  - (* KeyPgDn *)
    frame_shift e. nav_done e.
  - (* KeyEscape *)
    nav_done e.
Qed.

End Moves.

Section Brackets.
Context `{runewidth.Table}.

(** ** Typing an opening bracket *)

Lemma take_at {A} (a b : list A) : take (Z.to_nat (len a)) (a ++ b) = a.
Proof. unfold len. rewrite Nat2Z.id. apply take_app_length. Qed.

Lemma drop_at {A} (a b : list A) : drop (Z.to_nat (len a)) (a ++ b) = b.
Proof. unfold len. rewrite Nat2Z.id. apply drop_app_length. Qed.

Lemma drop_after {A} (a b : list A) x : drop (Z.to_nat (len a + 1)) (a ++ x :: b) = b.
Proof.
  replace (len a + 1) with (len (a ++ [x])) by (rewrite len_app, len_cons, len_nil; lia).
  rewrite (cons_middle x a b), app_assoc. apply drop_at.
Qed.

Lemma insertTextAtCursor_at text part e above left right below :
  lines e = above ++ (left ++ right) :: below → cy e = len above → cx e = len left →
  strings.Split text LF = [part] →
  ∃ e', insertTextAtCursor text e = Some e'
    ∧ lines e' = above ++ (left ++ part ++ right) :: below
    ∧ cx e' = cx e + len part ∧ cy e' = cy e.
Proof.
  intros Hl Hy Hx Hsplit.
  pose proof (len_nonneg above). pose proof (len_nonneg left). pose proof (len_nonneg right).
  pose proof (len_nonneg below).
  destruct (insertTextAtCursor_single e text part (left ++ right))
    as (e' & x & He & _ & _ & Hfix & Hl' & Hy' & Hx'); try done.
  - lia.
  - rewrite Hl, Hy, !len_app, len_cons. lia.
  - rewrite Hl, Hy. apply index_at.
  - exists e'. split; [done|].
    assert (x = cx e) as -> by (apply Hfix; rewrite ?len_app; lia).
    rewrite Hl', Hx', Hy'. split; [|done].
    rewrite Hl, Hy, Hx, take_at, drop_after, take_at, drop_at. done.
Qed.

Lemma shouldAutoCloseBracket_at r e above left right below :
  lines e = above ++ (left ++ right) :: below → cy e = len above → cx e = len left →
  shouldAutoCloseBracket r e
  = Some match right with
         | [] => true
         | c :: _ =>
             bool_decide (c ∈ [SPACE; TAB; ch ")"; ch "]"; ch "}"; ch ";"; ch ","; ch ":"])
         end.
Proof.
  intros Hl Hy Hx.
  pose proof (len_nonneg above). pose proof (len_nonneg left). pose proof (len_nonneg right).
  pose proof (len_nonneg below).
  unfold shouldAutoCloseBracket. rewrite Hl, Hy, Hx, index_at. simpl.
  rewrite !len_app, len_cons.
  replace ((len above <? 0) || (len above >=? len above + (len below + 1))) with false
    by (symmetry; apply orb_false_iff; split; lia).
  destruct right as [|c rest].
  - rewrite len_nil. decide_inner. done.
  - rewrite len_cons. pose proof (len_nonneg rest). decide_inner.
    rewrite index_at. simpl. f_equal.
    repeat (match goal with
            | |- context [c =? ?k] =>
                destruct (c =? k) eqn:?; zbool; [subst c; vm_compute; reflexivity|]
            end).
    simpl. symmetry. apply bool_decide_eq_false_2. intros Hin.
    repeat (apply elem_of_cons in Hin as [?|Hin]; [done|]). by apply elem_of_nil in Hin.
Qed.

(** X8.  Without a selection, an opening bracket or quote typed at the
    end of a line, or right before a blank, a closing bracket or one of
    [; , :], is inserted together with its closing partner and the
    cursor is left between the two; before any other rune only the
    typed one is inserted.  In both cases the cursor moves one column to
    the right. *)
Theorem opening_bracket_is_closed env ev r e above left right below :
  lines e = above ++ (left ++ right) :: below → cy e = len above → cx e = len left →
  selecting e = false →
  Key ev = KeyRune → Rune ev = r → ModAlt ev = false →
  r ∈ [ch "("; ch "["; ch "{"; DQUOTE; SQUOTE] →
  ∃ e', handleKey env ev e = Some e'
    ∧ cx e' = cx e + 1 ∧ cy e' = cy e
    ∧ lines e'
      = above
        ++ (left
            ++ (if match right with
                   | [] => true
                   | c :: _ =>
                       bool_decide (c ∈ [SPACE; TAB; ch ")"; ch "]"; ch "}";
                                          ch ";"; ch ","; ch ":"])
                   end
                then [r; getClosingBracket r] else [r])
            ++ right) :: below.
Proof.
  intros Hl Hy Hx Hsel Hkey Hr Halt Hopen.
  pose proof (shouldAutoCloseBracket_at r e above left right below Hl Hy Hx) as Hauto.
  set (closes := match right with
                 | [] => true
                 | c :: _ =>
                     bool_decide (c ∈ [SPACE; TAB; ch ")"; ch "]"; ch "}";
                                        ch ";"; ch ","; ch ":"])
                 end) in *.
  clearbody closes.
  assert (Hclose : (getClosingBracket r =? 0) = false ∧ strings.Split [r; getClosingBracket r] LF
                                                      = [[r; getClosingBracket r]]).
  { repeat (apply elem_of_cons in Hopen as [->|Hopen]); [..|by apply elem_of_nil in Hopen];
      done. }
  destruct Hclose as [Hnz Hsplit].
  assert (Hcond : (r =? TAB) = false ∧ (r =? 0) = false
                  ∧ (r =? ch "(") || (r =? ch "[") || (r =? ch "{")
                    || (r =? DQUOTE) || (r =? SQUOTE) = true).
  { repeat (apply elem_of_cons in Hopen as [->|Hopen]); [..|by apply elem_of_nil in Hopen];
      done. }
  destruct Hcond as (Hnt & Hn0 & Hop).
  unfold handleKey. rewrite Hkey, Hr, Halt, Hsel, Hnt. simpl.
  rewrite Hn0, Hop. simpl. rewrite Hauto. simpl. rewrite Hnz. simpl.
  destruct closes; simpl.
  - destruct (insertTextAtCursor_at [r; getClosingBracket r] [r; getClosingBracket r]
                e above left right below) as (e1 & -> & Hl1 & Hx1 & Hy1); try done.
    simpl. eexists. split; [reflexivity|]. simpl.
    rewrite Hx1, Hy1, Hl1, !len_cons, len_nil. split; [lia|]. done.
  - destruct (insertRune_at r e above left right below) as (e1 & -> & Hl1 & Hx1 & Hy1 & _);
      try done.
    simpl.
    destruct (ensureVisible_fix (set_ctrlAState false e1)) as [oy ->].
    { eapply cursor_in_document_intro; simpl.
      - rewrite Hl1, Hy1, Hy. apply index_at.
      - pose proof (len_nonneg left). lia.
      - rewrite Hx1, Hx, len_app, len_cons. pose proof (len_nonneg right). lia. }
    eexists. split; [reflexivity|]. simpl. done.
Qed.

End Brackets.

Section Search.
Context `{runewidth.Table}.

(** ** findAndJump *)

Lemma rem_row startY i total :
  0 ≤ startY → startY < total → 0 ≤ i → i < total →
  0 ≤ Z.rem (startY + i) total ∧ Z.rem (startY + i) total < total
  ∧ (1 ≤ i → Z.rem (startY + i) total ≠ startY)
  ∧ (i = 0 → Z.rem (startY + i) total = startY).
Proof.
  intros. rewrite Z.rem_mod_nonneg by lia.
  pose proof (Z.mod_pos_bound (startY + i) total ltac:(lia)).
  split; [lia|]. split; [lia|]. split.
  - intros Hi Hm. destruct (Z.lt_ge_cases (startY + i) total).
    + rewrite Z.mod_small in Hm by lia. lia.
    + replace (startY + i) with ((startY + i - total) + 1 * total) in Hm by lia.
      rewrite Z.mod_add, Z.mod_small in Hm by lia. lia.
  - intros ->. rewrite Z.add_0_r, Z.mod_small by lia. done.
Qed.

Lemma find_query_eq from queryRunes j :
  find_query from queryRunes j
  = if len queryRunes <=? len from then
      if strings.HasPrefix from queryRunes then Some j
      else match from with
           | [] => None
           | _ :: from' => find_query from' queryRunes (j + 1)
           end
    else None.
Proof. destruct from; reflexivity. Qed.

Lemma find_query_sound queryRunes : ∀ from j pos,
  find_query from queryRunes j = Some pos →
  j ≤ pos ∧ pos - j + len queryRunes ≤ len from
  ∧ strings.HasPrefix (drop (Z.to_nat (pos - j)) from) queryRunes = true.
Proof.
  induction from as [|c from IH]; intros j pos; rewrite find_query_eq.
  - destruct (len queryRunes <=? len []) eqn:Hle; zbool; [|done].
    destruct (strings.HasPrefix [] queryRunes) eqn:Hp; [|done].
    intros [= <-]. rewrite Z.sub_diag. simpl. split; [lia|]. split; [lia|done].
  - destruct (len queryRunes <=? len (c :: from)) eqn:Hle; zbool; [|done].
    destruct (strings.HasPrefix (c :: from) queryRunes) eqn:Hp.
    + intros [= <-]. rewrite Z.sub_diag. simpl. split; [lia|]. split; [lia|done].
    + intros Hr. apply IH in Hr as (Hj & Hlen & Hpre).
      rewrite len_cons. split; [lia|]. split; [lia|].
      replace (Z.to_nat (pos - j)) with (S (Z.to_nat (pos - (j + 1)))) by lia.
      done.
Qed.

(** What one round of the search loop needs from the state. *)
Lemma findAndJump_loop_spec query q n : ∀ i e,
  cursor_in_document e → q ≠ [] → 0 ≤ i → i + Z.of_nat n ≤ len (lines e) →
  ∃ res,
    findAndJump_loop n i query q (cx e) (cy e) (len (lines e)) e = Some res
    ∧ match res with
      | None => True
      | Some e' =>
          lines e' = lines e
          ∧ lastSearch e' = strings.TrimSpace query
          ∧ 0 ≤ cx e'
          ∧ (cy e' = cy e → cx e < cx e')
          ∧ cursor_in_document e'
          ∧ ∃ line, index (lines e) (cy e') = Some line
              ∧ strings.HasPrefix (drop (Z.to_nat (cx e')) line) q = true
      end.
Proof.
  induction n as [|n IH]; intros i e Hinv Hq Hi Hn; simpl.
  { exists None. done. }
  pose proof Hinv as (Hlen & [Hy0 Hy1] & cur & Hcur & Hx0 & Hx1).
  destruct (rem_row (cy e) i (len (lines e))) as (Hr0 & Hr1 & Hother & Hsame); try lia.
  set (row := Z.rem (cy e + i) (len (lines e))) in *.
  destruct (index_Some (lines e) row) as [line Hline]; [lia..|].
  rewrite Hline. simpl.
  set (searchFrom0 := if i =? 0 then cx e + 1 else 0).
  set (searchFrom := if searchFrom0 >? len line then len line else searchFrom0).
  pose proof (len_nonneg line) as Hll.
  assert (Hsf : 0 ≤ searchFrom ∧ searchFrom ≤ len line).
  { subst searchFrom searchFrom0. split_ifs; lia. }
  rewrite slice_from_Some by lia. simpl.
  destruct (find_query (drop (Z.to_nat searchFrom) line) q 0) as [pos|] eqn:Hfind.
  - apply find_query_sound in Hfind as (Hp0 & Hplen & Hpre).
    rewrite Z.sub_0_r in *. rewrite len_drop in Hplen by lia.
    rewrite drop_drop in Hpre.
    replace (Z.to_nat searchFrom + Z.to_nat pos)%nat with (Z.to_nat (searchFrom + pos))
      in Hpre by lia.
    pose proof (len_nonneg q) as Hq0.
    assert (Hqpos : 1 ≤ len q).
    { destruct q; [done|]. rewrite len_cons. pose proof (len_nonneg q). lia. }
    assert (Hinv1 : cursor_in_document (set_cx (searchFrom + pos) (set_cy row e))).
    { eapply cursor_in_document_intro; simpl; [exact Hline|lia|lia]. }
    destruct (ensureVisible_fix _ Hinv1) as [oy ->]. simpl.
    eexists. split; [reflexivity|]. simpl.
    split; [done|]. split; [done|]. split; [lia|]. split.
    + intros Hrow. destruct (Z.eq_dec i 0) as [->|Hi0]; [|exfalso; apply Hother; [lia|done]].
      subst searchFrom searchFrom0. simpl. simpl in Hplen.
      rewrite Hsame in Hline by done. rewrite Hline in Hcur. injection Hcur as <-.
      split_ifs; lia.
    + split; [apply set_offsetY_cursor; done|]. exists line. done.
  - destruct (IH (i + 1) e) as (res & Hres & Hprop); try done; try lia.
    exists res. done.
Qed.

(** X9.  With the cursor in the document [findAndJump] never fails and
    never changes a line.  Either it returns the state as it was, or the
    cursor is on an occurrence of the trimmed query: the query starts at
    the new cursor, which lies strictly to the right of the old one when
    it is still on the same line, and the trimmed query becomes the last
    search. *)
Theorem findAndJump_lands_on_match query e :
  cursor_in_document e →
  ∃ e', findAndJump query e = Some e'
    ∧ lines e' = lines e
    ∧ cursor_in_document e'
    ∧ (e' = e
       ∨ (lastSearch e' = strings.TrimSpace query
          ∧ (cy e' = cy e → cx e < cx e')
          ∧ ∃ line, index (lines e) (cy e') = Some line
              ∧ strings.HasPrefix (drop (Z.to_nat (cx e')) line)
                  (strings.TrimSpace query) = true)).
Proof.
  intros Hinv. unfold findAndJump.
  destruct (len (strings.TrimSpace query) =? 0) eqn:Hq; zbool.
  { exists e. auto. }
  assert (Hne : strings.TrimSpace query ≠ []).
  { intros Hnil. rewrite Hnil in Hq. done. }
  pose proof Hinv as (Hlen & _).
  destruct (findAndJump_loop_spec query (strings.TrimSpace query)
              (Z.to_nat (len (lines e))) 0 e) as (res & -> & Hres); try done; try lia.
  simpl. destruct res as [e'|].
  - destruct Hres as (Hl & Hs & Hx & Hxy & Hinv' & line & Hline & Hpre).
    exists e'. split; [done|]. split; [done|]. split; [done|]. right. eauto.
  - exists e. auto.
Qed.

End Search.

(** ** strings.Split and strings.Join *)

Lemma Split_no_sep (s : gostring) sep : sep ∉ s → strings.Split s sep = [s].
Proof.
  induction s as [|c s IH]; intros Hnot; simpl; [done|].
  apply not_elem_of_cons in Hnot as [Hc Hs].
  replace (c =? sep) with false by (symmetry; apply Z.eqb_neq; done).
  rewrite IH by done. done.
Qed.

Lemma Split_app_sep (a s : gostring) sep :
  sep ∉ a → strings.Split (a ++ sep :: s) sep = a :: strings.Split s sep.
Proof.
  induction a as [|c a IH]; intros Hnot; simpl.
  - rewrite Z.eqb_refl. done.
  - apply not_elem_of_cons in Hnot as [Hc Ha].
    replace (c =? sep) with false by (symmetry; apply Z.eqb_neq; done).
    rewrite IH by done. done.
Qed.

Lemma Split_Join (pieces : list gostring) sep :
  pieces ≠ [] → Forall (λ p, sep ∉ p) pieces →
  strings.Split (strings.Join pieces [sep]) sep = pieces.
Proof.
  induction pieces as [|a rest IH]; intros Hne Hall; [done|].
  apply Forall_cons in Hall as [Ha Hrest].
  destruct rest as [|b rest].
  - simpl. apply Split_no_sep. done.
  - change (strings.Join (a :: b :: rest) [sep])
      with (a ++ sep :: strings.Join (b :: rest) [sep]).
    rewrite Split_app_sep by done. rewrite IH by done. done.
Qed.

Section CutPaste.
Context `{runewidth.Table}.

(** ** A selection of runes: copy, cut and paste *)

Lemma getSelectionRange_chars e sl sc el ec :
  selecting e = true → lineSelecting e = false →
  sl < el ∨ (sl = el ∧ sc ≤ ec) →
  (selectStartY e = sl ∧ selectStartX e = sc ∧ cy e = el ∧ cx e = ec)
  ∨ (selectStartY e = el ∧ selectStartX e = ec ∧ cy e = sl ∧ cx e = sc) →
  getSelectionRange e = Some (sl, sc, el, ec).
Proof.
  intros Hsel Hline Hord Hends. unfold getSelectionRange. rewrite Hsel, Hline. simpl.
  destruct Hends as [(-> & -> & -> & ->)|(-> & -> & -> & ->)].
  - destruct (_ || _) eqn:Hc; [|done].
    exfalso. apply orb_true_iff in Hc as [Hc|Hc]; [lia|].
    apply andb_true_iff in Hc as [Hc1 Hc2]. lia.
  - destruct (_ || _) eqn:Hc; [done|].
    apply orb_false_iff in Hc as [Hc1 Hc2]. apply andb_false_iff in Hc2.
    assert (el = sl ∧ ec = sc) as [-> ->] by lia. done.
Qed.

Lemma collect_lines_at e m : ∀ a b sel,
  lines e = a ++ m ++ b →
  for_range (length m) (len a)
    (λ i sel,
       if i <? len (lines e) then line ← index (lines e) i; Some (sel ++ [line])
       else Some sel) sel
  = Some (sel ++ m).
Proof.
  induction m as [|x m IH]; intros a b sel Hl; simpl.
  - rewrite app_nil_r. done.
  - pose proof (len_nonneg a). pose proof (len_nonneg m). pose proof (len_nonneg b).
    replace (len a <? len (lines e)) with true
      by (symmetry; rewrite Hl, !len_app, len_cons; lia).
    rewrite (index_at' a (m ++ b) x (len a) (lines e)) by done. simpl.
    replace (len a + 1) with (len (a ++ [x])) by (rewrite len_app, len_cons, len_nil; lia).
    rewrite (IH (a ++ [x]) b) by (rewrite Hl, <- app_assoc; done).
    rewrite <- app_assoc. done.
Qed.


Ltac len_norm := rewrite ?len_app, ?len_cons, ?len_nil in *.

Lemma selection_in_line e above left sel right below :
  selecting e = true → lineSelecting e = false →
  lines e = above ++ (left ++ sel ++ right) :: below →
  (selectStartY e = len above ∧ selectStartX e = len left
   ∧ cy e = len above ∧ cx e = len left + len sel)
  ∨ (selectStartY e = len above ∧ selectStartX e = len left + len sel
     ∧ cy e = len above ∧ cx e = len left) →
  getSelectedText e = Some sel
  ∧ ∃ e1, deleteSelection e = Some e1
      ∧ lines e1 = above ++ (left ++ right) :: below
      ∧ cx e1 = len left ∧ cy e1 = len above
      ∧ selecting e1 = false ∧ edited e e1.
Proof.
  intros Hsel Hline Hl Hends.
  pose proof (len_nonneg above). pose proof (len_nonneg left). pose proof (len_nonneg sel).
  pose proof (len_nonneg right). pose proof (len_nonneg below).
  assert (Hr : getSelectionRange e
               = Some (len above, len left, len above, len left + len sel)).
  { apply getSelectionRange_chars; try done; lia. }
  assert (Hlen : len (lines e) = len above + 1 + len below) by (rewrite Hl; len_norm; lia).
  assert (Hidx : index (lines e) (len above) = Some (left ++ sel ++ right))
    by (rewrite Hl; apply index_at).
  split.
  - unfold getSelectedText. rewrite Hr. simpl. rewrite Hline, Hlen, Hidx.
    destruct sel as [|c sel].
    + len_norm. rewrite Z.add_0_r. simpl.
      destruct (_ && _); [done|]. simpl.
      rewrite Z.eqb_refl. decide_inner. decide_inner. done.
    + len_norm. pose proof (len_nonneg sel).
      replace ((len above =? 0) && (len left =? 0) && (len above =? 0)
               && (len left + (len sel + 1) =? 0)) with false
        by (symmetry; apply andb_false_iff; right; lia).
      rewrite Z.eqb_refl. decide_inner. simpl.
      len_goal. decide_inner.
      rewrite (slice_at' left (c :: sel) right _ _ (left ++ c :: sel ++ right))
        by (rewrite ?len_cons; first [done | lia]).
      done.
  - unfold deleteSelection. rewrite Hsel. simpl.
    change (getSelectionRange (pushUndo e)) with (getSelectionRange e). rewrite Hr. simpl.
    rewrite Hline, Hlen. simpl.
    repeat decide_inner.
    rewrite Hidx. simpl. len_goal. repeat decide_inner.
    destruct (Z.eq_dec (len sel) 0) as [Hz|Hnz].
    + apply len_zero_nil in Hz. subst sel. simpl in *. rewrite ?len_nil, ?Z.add_0_r. decide_inner.
      repeat (decide_inner; rewrite ?Hlen; len_goal). rewrite Hidx. simpl.
      len_goal. decide_inner.
      eexists. split; [reflexivity|]. simpl. done.
    + decide_inner.
      rewrite (cut_out_at' left sel right _ _ (left ++ sel ++ right)) by done. simpl.
      rewrite (store_at' above below (left ++ sel ++ right) _ _ (lines e)) by done. simpl.
      len_goal. repeat (decide_inner; len_goal). rewrite index_at. simpl.
      len_goal. decide_inner.
      eexists. split; [reflexivity|]. simpl. done.
Qed.



Lemma selection_across_lines e above left first middle last right below :
  selecting e = true → lineSelecting e = false →
  lines e = above ++ (left ++ first) :: middle ++ (last ++ right) :: below →
  first ≠ [] → last ≠ [] →
  (selectStartY e = len above ∧ selectStartX e = len left
   ∧ cy e = len above + len middle + 1 ∧ cx e = len last)
  ∨ (selectStartY e = len above + len middle + 1 ∧ selectStartX e = len last
     ∧ cy e = len above ∧ cx e = len left) →
  getSelectedText e = Some (strings.Join (first :: middle ++ [last]) [LF])
  ∧ ∃ e1, deleteSelection e = Some e1
      ∧ lines e1 = above ++ (left ++ right) :: below
      ∧ cx e1 = len left ∧ cy e1 = len above
      ∧ selecting e1 = false ∧ edited e e1.
Proof.
  intros Hsel Hline Hl Hfirst Hlast Hends.
  pose proof (len_nonneg above). pose proof (len_nonneg left). pose proof (len_nonneg first).
  pose proof (len_nonneg middle). pose proof (len_nonneg last).
  pose proof (len_nonneg right). pose proof (len_nonneg below).
  pose proof (len_pos first Hfirst) as Hf1. pose proof (len_pos last Hlast) as Hl1.
  assert (Hr : getSelectionRange e
               = Some (len above, len left, len above + len middle + 1, len last)).
  { apply getSelectionRange_chars; try done; lia. }
  assert (Hlen : len (lines e) = len above + 1 + len middle + 1 + len below)
    by (rewrite Hl; len_goal; lia).
  assert (Hidx0 : index (lines e) (len above) = Some (left ++ first))
    by (rewrite Hl; apply index_at).
  assert (Hidx1 : index (lines e) (len above + len middle + 1) = Some (last ++ right)).
  { apply (index_at' (above ++ (left ++ first) :: middle) below).
    - rewrite Hl, <- app_assoc. done.
    - len_goal. lia. }
  split.
  - remember (strings.Join (first :: middle ++ [last]) [LF]) as text eqn:Htext.
    unfold getSelectedText. rewrite Hr. simpl. rewrite Hline.
    replace ((len above =? 0) && (len left =? 0) && (len above + len middle + 1 =? 0)
             && (len last =? 0)) with false
      by (symmetry; apply andb_false_iff; right; lia).
    repeat decide_inner. rewrite Hidx0. simpl.
    len_goal. repeat decide_inner. rewrite slice_from_at. simpl.
    unfold collect_lines, for_upto.
    replace (Z.to_nat (len above + len middle + 1 - (len above + 1))) with (length middle)
      by (unfold len; lia).
    replace (len above + 1) with (len (above ++ [left ++ first])) by (len_goal; lia).
    rewrite (collect_lines_at e middle (above ++ [left ++ first]) ((last ++ right) :: below))
      by (rewrite Hl, <- app_assoc; done).
    simpl. rewrite Hidx1. simpl.
    len_goal.
    replace ((len last >? 0) && (len last <=? len last + len right)) with true
      by (symmetry; apply andb_true_iff; split; lia).
    rewrite slice_to_at. simpl. subst text. done.
  - unfold deleteSelection. rewrite Hsel. simpl.
    change (getSelectionRange (pushUndo e)) with (getSelectionRange e). rewrite Hr. simpl.
    rewrite Hline, Hlen. simpl.
    repeat decide_inner. rewrite Hidx0, Hidx1. simpl.
    len_goal. repeat decide_inner.
    replace ((len left <=? len left + len first) && (len last <=? len last + len right))
      with true by (symmetry; apply andb_true_iff; split; lia).
    rewrite slice_to_at, slice_from_at. simpl.
    rewrite (slice_to_at' above ((left ++ first) :: middle ++ (last ++ right) :: below)
               _ (lines e)) by done.
    simpl.
    rewrite (slice_from_at' (above ++ (left ++ first) :: middle ++ [last ++ right]) below
               _ (lines e))
      by (first [rewrite Hl, <- !app_assoc; simpl; rewrite <- app_assoc; done
                | len_goal; lia]).
    simpl.
    len_goal. repeat (decide_inner; len_goal). rewrite index_at. simpl.
    len_goal. decide_inner.
    eexists. split; [reflexivity|]. simpl. done.
Qed.


(** X10.  Cutting a selection of runes and pasting it back.  For a
    selection inside one line, and for one that reaches over several
    lines, starts before the end of its first line and ends after
    column 0 of its last line, [getSelectedText] is the selected text
    with "\n" between the lines, [deleteSelection] joins what is left of
    the first line with what is right of the last, and inserting the
    text again at the cursor gives back every line, with the cursor at
    the end of the selection.  The anchor may be at either end. *)
Theorem cut_then_paste_restores :
  (∀ e above left sel right below,
     selecting e = true → lineSelecting e = false →
     lines e = above ++ (left ++ sel ++ right) :: below → LF ∉ sel →
     (selectStartY e = len above ∧ selectStartX e = len left
      ∧ cy e = len above ∧ cx e = len left + len sel)
     ∨ (selectStartY e = len above ∧ selectStartX e = len left + len sel
        ∧ cy e = len above ∧ cx e = len left) →
     ∃ e1 e2,
       getSelectedText e = Some sel
       ∧ deleteSelection e = Some e1
       ∧ lines e1 = above ++ (left ++ right) :: below
       ∧ insertTextAtCursor sel e1 = Some e2
       ∧ lines e2 = lines e ∧ cy e2 = len above ∧ cx e2 = len left + len sel)
  ∧ (∀ e above left first middle last right below,
       selecting e = true → lineSelecting e = false →
       lines e = above ++ (left ++ first) :: middle ++ (last ++ right) :: below →
       first ≠ [] → last ≠ [] →
       LF ∉ first → Forall (λ line, LF ∉ line) middle → LF ∉ last →
       (selectStartY e = len above ∧ selectStartX e = len left
        ∧ cy e = len above + len middle + 1 ∧ cx e = len last)
       ∨ (selectStartY e = len above + len middle + 1 ∧ selectStartX e = len last
          ∧ cy e = len above ∧ cx e = len left) →
       ∃ e1 e2,
         getSelectedText e = Some (strings.Join (first :: middle ++ [last]) [LF])
         ∧ deleteSelection e = Some e1
         ∧ lines e1 = above ++ (left ++ right) :: below
         ∧ insertTextAtCursor (strings.Join (first :: middle ++ [last]) [LF]) e1 = Some e2
         ∧ lines e2 = lines e
         ∧ cy e2 = len above + len middle + 1 ∧ cx e2 = len last).
Proof.
  split.
  - intros e above left sel right below Hsel Hline Hl Hlf Hends.
    destruct (selection_in_line e above left sel right below)
      as (Htext & e1 & Hdel & Hl1 & Hx1 & Hy1 & _); try done.
    destruct (insertTextAtCursor_at sel sel e1 above left right below)
      as (e2 & Hins & Hl2 & Hx2 & Hy2); try done.
    { apply Split_no_sep. done. }
    exists e1, e2. rewrite Hl2, Hx2, Hy2, Hx1, Hy1, Hl. done.
  - intros e above left first middle last right below Hsel Hline Hl Hfirst Hlast
      Hlf1 Hlfm Hlf2 Hends.
    destruct (selection_across_lines e above left first middle last right below)
      as (Htext & e1 & Hdel & Hl1 & Hx1 & Hy1 & _); try done.
    pose proof (len_nonneg above). pose proof (len_nonneg left).
    pose proof (len_nonneg right).
    assert (Hidx : index (lines e1) (cy e1) = Some (left ++ right))
      by (rewrite Hl1, Hy1; apply index_at).
    destruct (insertTextAtCursor_multi e1
                (strings.Join (first :: middle ++ [last]) [LF])
                first middle last (left ++ right))
      as (e2 & Hins & Hl2 & Hy2 & Hx2); try done.
    { eapply cursor_in_document_intro; [exact Hidx|lia|rewrite Hx1, len_app; lia]. }
    { apply (Split_Join (first :: middle ++ [last])); [done|].
      apply Forall_cons. split; [done|]. apply Forall_app. split; [done|].
      apply Forall_singleton. done. }
    exists e1, e2. split; [done|]. split; [done|]. split; [done|]. split; [done|].
    split; [|split; [lia|done]].
    rewrite Hl2, Hl1, Hy1, Hx1, take_at, drop_after, take_at, drop_at, Hl.
    simpl. done.
Qed.

End CutPaste.

Section Canvases.
Context `{runewidth.Table}.

(** ** The canvases *)

#[local] Arguments first_free : simpl never.
#[local] Arguments next_occupied : simpl never.

Lemma first_free_spec cs n : ∀ i,
  (∃ j, i ≤ j ∧ j < i + Z.of_nat n ∧ cs !! j = None) →
  i ≤ first_free n cs i ∧ first_free n cs i < i + Z.of_nat n
  ∧ cs !! first_free n cs i = None
  ∧ ∀ k, i ≤ k → k < first_free n cs i → is_Some (cs !! k).
Proof.
  induction n as [|n IH]; intros i (j & Hj0 & Hj1 & Hj); [lia|].
  unfold first_free; fold first_free. case_decide as Hocc.
  - destruct (IH (i + 1)) as (H0 & H1 & H2 & H3).
    { exists j. split; [|split; [lia|done]].
      destruct (Z.eq_dec j i) as [->|]; [|lia].
      rewrite Hj in Hocc. by destruct Hocc. }
    split; [lia|]. split; [lia|]. split; [done|].
    intros k Hk0 Hk1. destruct (Z.eq_dec k i) as [->|]; [done|]. apply H3; lia.
  - split; [lia|]. split; [lia|]. split.
    + destruct (cs !! i) eqn:Hi; [|done]. exfalso. apply Hocc. eauto.
    + intros k Hk0 Hk1. lia.
Qed.

(** Fewer than [MaxCanvases] canvases leave one of the slots free. *)
Lemma free_slot (cs : gmap Z Canvas.t) :
  Z.of_nat (size cs) < MaxCanvases →
  ∃ j, 1 ≤ j ∧ j < 1 + MaxCanvases ∧ cs !! j = None.
Proof.
  intros Hsize.
  destruct (decide (Forall (λ j, is_Some (cs !! j)) (seqZ 1 MaxCanvases))) as [Hall|Hnot].
  - exfalso.
    assert (Hsub : (list_to_set (seqZ 1 MaxCanvases) : gset Z) ⊆ dom cs).
    { intros k Hk. apply elem_of_list_to_set in Hk. apply elem_of_dom.
      rewrite Forall_forall in Hall. apply Hall. done. }
    apply subseteq_size in Hsub.
    rewrite size_list_to_set, size_dom, length_seqZ in Hsub by apply NoDup_seqZ.
    unfold MaxCanvases in *. lia.
  - apply not_Forall_Exists in Hnot; [|apply _].
    apply Exists_exists in Hnot as (j & Hin & Hj).
    apply elem_of_seqZ in Hin. exists j. split; [lia|]. split; [lia|].
    destruct (cs !! j) eqn:Hc; [|done]. exfalso. apply Hj. eauto.
Qed.


Lemma syncEditorToCanvas_Some e c :
  canvases e !! currentCanvas e = Some c →
  ∃ saved,
    syncEditorToCanvas e = set_canvases (<[currentCanvas e := saved]> (canvases e)) e
    ∧ Canvas.filename saved = filename e ∧ Canvas.lines saved = lines e
    ∧ Canvas.cx saved = cx e ∧ Canvas.cy saved = cy e
    ∧ Canvas.offsetY saved = offsetY e ∧ Canvas.dirty saved = dirty e
    ∧ Canvas.language saved = language e
    ∧ Canvas.undoStack saved = undoStack e ∧ Canvas.redoStack saved = redoStack e.
Proof.
  intros Hc. unfold syncEditorToCanvas. rewrite Hc. eexists. split; [reflexivity|]. done.
Qed.

(** X11.  With the current canvas in the table and fewer than
    [MaxCanvases] canvases, [createNewCanvas] stores the document of the
    editor under its own number, opens the least free number between 1
    and [MaxCanvases] with an empty, clean document without history, and
    leaves every other canvas alone; with [MaxCanvases] canvases it
    changes nothing. *)
Theorem createNewCanvas_opens_free_slot :
  (∀ e c,
     canvases e !! currentCanvas e = Some c →
     Z.of_nat (size (canvases e)) < MaxCanvases →
     ∃ e' saved,
       createNewCanvas e = Some e'
       ∧ 1 ≤ currentCanvas e' ∧ currentCanvas e' ≤ MaxCanvases
       ∧ canvases e !! currentCanvas e' = None
       ∧ (∀ k, 1 ≤ k → k < currentCanvas e' → is_Some (canvases e !! k))
       ∧ lines e' = [[]] ∧ cx e' = 0 ∧ cy e' = 0
       ∧ filename e' = [] ∧ dirty e' = false ∧ undoStack e' = [] ∧ redoStack e' = []
       ∧ canvases e' !! currentCanvas e = Some saved
       ∧ Canvas.filename saved = filename e ∧ Canvas.lines saved = lines e
       ∧ Canvas.cx saved = cx e ∧ Canvas.cy saved = cy e
       ∧ Canvas.dirty saved = dirty e
       ∧ Canvas.undoStack saved = undoStack e ∧ Canvas.redoStack saved = redoStack e
       ∧ (∀ k, k ≠ currentCanvas e' → k ≠ currentCanvas e →
               canvases e' !! k = canvases e !! k))
  ∧ (∀ e, MaxCanvases ≤ Z.of_nat (size (canvases e)) → createNewCanvas e = Some e).
Proof.
  split.
  - intros e c Hc Hsize.
    destruct (syncEditorToCanvas_Some e c Hc)
      as (saved & Hsync & Hf & Hl & Hx & Hy & Ho & Hd & Hla & Hu & Hr).
    unfold createNewCanvas. decide_if. rewrite Hsync. simpl.
    set (cs := <[currentCanvas e := saved]> (canvases e)).
    assert (Hsame : ∀ k, cs !! k = None ↔ canvases e !! k = None).
    { intros k. unfold cs. destruct (Z.eq_dec k (currentCanvas e)) as [->|Hne].
      - rewrite lookup_insert_eq, Hc. done.
      - rewrite lookup_insert_ne by done. done. }
    assert (Hsz : size cs = size (canvases e)).
    { unfold cs. apply map_size_insert_Some. eauto. }
    destruct (first_free_spec cs (Z.to_nat MaxCanvases) 1) as (Hn0 & Hn1 & Hfree & Hbelow).
    { destruct (free_slot cs) as (j & ? & ? & ?); [rewrite Hsz; done|].
      exists j. unfold MaxCanvases in *. split; [lia|]. split; [lia|done]. }
    set (n := first_free (Z.to_nat MaxCanvases) cs 1) in *. clearbody n.
    assert (Hne : n ≠ currentCanvas e).
    { intros ->. apply Hsame in Hfree. rewrite Hc in Hfree. done. }
    unfold syncCanvasToEditor. simpl. rewrite lookup_insert_eq. simpl.
    match goal with |- context [ensureVisible ?e0] =>
      destruct (ensureVisible_fix e0) as (oy & ->) end.
    { eapply (cursor_in_document_intro _ []); simpl; [reflexivity|lia|unfold len; simpl; lia]. }
    eexists _, saved. split; [reflexivity|]. simpl.
    unfold MaxCanvases in *.
    split; [lia|]. split; [lia|]. split; [apply Hsame; done|].
    split.
    { intros k Hk0 Hk1. destruct (Hbelow k Hk0 Hk1) as [x Hx'].
      destruct (canvases e !! k) eqn:Hk; [eauto|]. apply Hsame in Hk. congruence. }
    repeat (split; [done|]).
    split.
    { rewrite lookup_insert_ne by done. unfold cs. apply lookup_insert_eq. }
    repeat (split; [done|]).
    intros k Hk1 Hk2. rewrite lookup_insert_ne by done. unfold cs.
    rewrite lookup_insert_ne by done. done.
  - intros e Hsize. unfold createNewCanvas. decide_if. done.
Qed.


(** The slot [k] steps to in the cyclic order 1, 2, ..., [MaxCanvases], 1. *)
Lemma next_occupied_spec cs n : ∀ k,
  1 ≤ k → k ≤ MaxCanvases →
  ∃ j, 0 ≤ j ∧ j ≤ Z.of_nat n
    ∧ next_occupied n cs k = (k - 1 + j) mod MaxCanvases + 1
    ∧ (∀ i, 0 ≤ i → i < j → cs !! ((k - 1 + i) mod MaxCanvases + 1) = None)
    ∧ (j < Z.of_nat n → is_Some (cs !! ((k - 1 + j) mod MaxCanvases + 1))).
Proof.
  unfold MaxCanvases.
  induction n as [|n IH]; intros k Hk0 Hk1.
  - exists 0. unfold next_occupied.
    replace (k - 1 + 0) with (k - 1) by lia. rewrite Z.mod_small by lia.
    split; [lia|]. split; [lia|]. split; [lia|]. split; intros; lia.
  - unfold next_occupied; fold next_occupied. case_decide as Hocc.
    + exists 0. replace (k - 1 + 0) with (k - 1) by lia. rewrite Z.mod_small by lia.
      replace (k - 1 + 1) with k by lia.
      split; [lia|]. split; [lia|]. split; [lia|]. split; [intros; lia|done].
    + set (k' := if k + 1 >? MaxCanvases then 1 else k + 1).
      assert (Hk' : k' = k mod 100 + 1).
      { unfold k', MaxCanvases. destruct (Z.eq_dec k 100) as [->|].
        - reflexivity.
        - rewrite Z.mod_small by lia. decide_if. done. }
      assert (Hk'r : 1 ≤ k' ∧ k' ≤ 100).
      { rewrite Hk'. pose proof (Z.mod_pos_bound k 100). lia. }
      clearbody k'.
      destruct (IH k') as (j & Hj0 & Hj1 & Hres & Hnone & Hsome); [lia|lia|].
      assert (Hshift : ∀ i, (k' - 1 + i) mod 100 = (k - 1 + (i + 1)) mod 100).
      { intros i. rewrite Hk'. replace (k mod 100 + 1 - 1 + i) with (k mod 100 + i) by lia.
        rewrite Z.add_mod_idemp_l by lia. f_equal. lia. }
      exists (j + 1). split; [lia|]. split; [lia|]. split.
      { rewrite Hres, Hshift. done. }
      split.
      * intros i Hi0 Hi1. destruct (Z.eq_dec i 0) as [->|].
        -- replace (k - 1 + 0) with (k - 1) by lia. rewrite Z.mod_small by lia.
           replace (k - 1 + 1) with k by lia.
           destruct (cs !! k) eqn:Hc; [|done]. exfalso. apply Hocc. eauto.
        -- specialize (Hnone (i - 1)). rewrite Hshift in Hnone.
           replace (i - 1 + 1) with i in Hnone by lia. apply Hnone; lia.
      * intros Hlt. rewrite <- Hshift. apply Hsome. lia.
Qed.

Lemma ensureVisible_nil e :
  lines e = [] →
  ensureVisible e = ensureVisible (set_cx 0 (set_cy 0 (set_lines [[]] e))).
Proof.
  intros Hl. unfold ensureVisible, visible_clamp. rewrite Hl. reflexivity.
Qed.

Lemma same_text_frame e e' :
  same_text e e' →
  lines e' = lines e ∧ filename e' = filename e ∧ dirty e' = dirty e
  ∧ undoStack e' = undoStack e ∧ redoStack e' = redoStack e
  ∧ canvases e' = canvases e ∧ currentCanvas e' = currentCanvas e.
Proof.
  unfold same_text. intros Heq.
  split; [exact (f_equal lines Heq)|].
  split; [exact (f_equal filename Heq)|].
  split; [exact (f_equal dirty Heq)|].
  split; [exact (f_equal undoStack Heq)|].
  split; [exact (f_equal redoStack Heq)|].
  split; [exact (f_equal canvases Heq)|].
  exact (f_equal currentCanvas Heq).
Qed.

(** X12.  With the current canvas in the table under a number between 1
    and [MaxCanvases], [switchToNextCanvas] stores the document under
    that number and moves to the nearest occupied number after it in
    the cyclic order 1, 2, ..., [MaxCanvases], 1 (back to the current
    one when it is the only canvas); the numbers passed over are free,
    no canvas is added or removed, and a canvas that holds at least one
    line is shown with its lines, file name, dirty flag and history. *)
Theorem switchToNextCanvas_cycles e c :
  canvases e !! currentCanvas e = Some c →
  1 ≤ currentCanvas e → currentCanvas e ≤ MaxCanvases →
  ∃ e' j saved shown,
    switchToNextCanvas e = Some e'
    ∧ 1 ≤ j ∧ j ≤ MaxCanvases
    ∧ currentCanvas e' = (currentCanvas e - 1 + j) mod MaxCanvases + 1
    ∧ (∀ i, 1 ≤ i → i < j →
         canvases e !! ((currentCanvas e - 1 + i) mod MaxCanvases + 1) = None)
    ∧ canvases e' = <[currentCanvas e := saved]> (canvases e)
    ∧ Canvas.filename saved = filename e ∧ Canvas.lines saved = lines e
    ∧ Canvas.cx saved = cx e ∧ Canvas.cy saved = cy e
    ∧ Canvas.dirty saved = dirty e
    ∧ Canvas.undoStack saved = undoStack e ∧ Canvas.redoStack saved = redoStack e
    ∧ canvases e' !! currentCanvas e' = Some shown
    ∧ (Canvas.lines shown ≠ [] →
         lines e' = Canvas.lines shown ∧ filename e' = Canvas.filename shown
         ∧ dirty e' = Canvas.dirty shown
         ∧ undoStack e' = Canvas.undoStack shown
         ∧ redoStack e' = Canvas.redoStack shown
         ∧ cursor_in_document e').
Proof.
  intros Hc Hcur0 Hcur1.
  assert (HM : MaxCanvases = 100) by reflexivity.
  destruct (syncEditorToCanvas_Some e c Hc)
    as (saved & Hsync & Hf & Hl & Hx & Hy & Ho & Hd & Hla & Hu & Hr).
  unfold switchToNextCanvas. rewrite Hsync. simpl.
  set (cs := <[currentCanvas e := saved]> (canvases e)).
  set (k := if currentCanvas e + 1 >? MaxCanvases then 1 else currentCanvas e + 1).
  assert (Hk : k = currentCanvas e mod MaxCanvases + 1).
  { unfold k, MaxCanvases in *. destruct (Z.eq_dec (currentCanvas e) 100) as [->|].
    - reflexivity.
    - rewrite Z.mod_small by lia. decide_if. done. }
  assert (Hkr : 1 ≤ k ∧ k ≤ MaxCanvases).
  { rewrite Hk. unfold MaxCanvases. pose proof (Z.mod_pos_bound (currentCanvas e) 100). lia. }
  assert (Hshift : ∀ i, (k - 1 + i) mod MaxCanvases
                        = (currentCanvas e - 1 + (i + 1)) mod MaxCanvases).
  { intros i. rewrite Hk. unfold MaxCanvases.
    replace (currentCanvas e mod 100 + 1 - 1 + i) with (currentCanvas e mod 100 + i) by lia.
    rewrite Z.add_mod_idemp_l by lia. f_equal. lia. }
  destruct (next_occupied_spec cs (Z.to_nat MaxCanvases) k)
    as (j & Hj0 & Hj1 & Hres & Hnone & Hsome); [lia|lia|].
  set (n := next_occupied (Z.to_nat MaxCanvases) cs k) in *. clearbody n.
  assert (Hjlt : j < MaxCanvases).
  { destruct (Z.eq_dec j MaxCanvases) as [->|]; [|lia].
    exfalso. specialize (Hnone (MaxCanvases - 1)).
    rewrite Hshift in Hnone.
    replace (currentCanvas e - 1 + (MaxCanvases - 1 + 1))
      with (currentCanvas e - 1 + 1 * MaxCanvases) in Hnone by lia.
    rewrite Z.mod_add in Hnone by lia.
    rewrite Z.mod_small in Hnone by lia.
    replace (currentCanvas e - 1 + 1) with (currentCanvas e) in Hnone by lia.
    unfold cs in Hnone. rewrite lookup_insert_eq in Hnone.
    discriminate Hnone; lia. }
  assert (Hocc : is_Some (cs !! n)).
  { rewrite Hres. apply Hsome. lia. }
  destruct Hocc as [shown Hshown].
  rewrite decide_True by eauto.
  unfold syncCanvasToEditor. simpl. rewrite Hshown.
  match goal with |- context [ensureVisible ?e0] =>
    destruct (ensureVisible_sound e0) as (e' & Hev & Hinv);
    pose proof (ensureVisible_same_text e0 e') as Hframe end.
  simpl in Hframe.
  exists e', (j + 1), saved, shown.
  split; [exact Hev|].
  assert (Hcs : canvases e' = cs ∧ currentCanvas e' = n).
  { destruct (decide (Canvas.lines shown = [])) as [Hnil|Hne].
    - rewrite ensureVisible_nil in Hev by exact Hnil.
      apply ensureVisible_same_text in Hev; [|done].
      apply same_text_frame in Hev.
      destruct Hev as (_ & _ & _ & _ & _ & -> & ->). done.
    - apply same_text_frame in Hframe; [|done|done].
      destruct Hframe as (_ & _ & _ & _ & _ & -> & ->). done. }
  destruct Hcs as [Hcs Hn].
  split; [lia|]. split; [lia|].
  split; [rewrite Hn, Hres, Hshift; done|].
  split.
  { intros i Hi0 Hi1. specialize (Hnone (i - 1)). rewrite Hshift in Hnone.
    replace (i - 1 + 1) with i in Hnone by lia.
    assert (Hn' : cs !! ((currentCanvas e - 1 + i) mod MaxCanvases + 1) = None)
      by (apply Hnone; lia).
    unfold cs in Hn'. apply lookup_insert_None in Hn'. tauto. }
  split; [exact Hcs|].
  repeat (split; [done|]).
  split; [rewrite Hcs, Hn; exact Hshown|].
  intros Hne. apply same_text_frame in Hframe; [|done|done].
  destruct Hframe as (-> & -> & -> & -> & -> & _ & _). done.
Qed.

End Canvases.

Section CutAndPaste.
Context `{runewidth.Table}.

(** ** Cutting a line *)

(** X13.  With the cursor on a line of the document, [cutLine] puts
    that line on the clipboard and removes it from the document; the
    document that would be left without a line gets one empty line.
    The cursor stays on the same line number, or moves to the new last
    line when the last line was cut, and its column is cut back to the
    length of the line it lands on. *)
Theorem cutLine_moves_line_to_clipboard e above line below :
  lines e = above ++ line :: below → cy e = len above → 0 ≤ cx e →
  ∃ e' cur,
    cutLine e = Some e' ∧ clipboard e' = line
    ∧ lines e' = (if decide (above ++ below = []) then [[]] else above ++ below)
    ∧ cy e' = (if decide (below = []) then Z.max 0 (len above - 1) else len above)
    ∧ index (lines e') (cy e') = Some cur
    ∧ cx e' = Z.min (cx e) (len cur)
    ∧ dirty e' = true.
Proof.
  intros Hl Hy Hx.
  pose proof (len_nonneg above). pose proof (len_nonneg below).
  unfold cutLine. rewrite ?Hl, ?Hy.
  replace ((len above >=? 0) && (len above <? len (above ++ line :: below))) with true
    by (symmetry; len_goal; lia).
  simpl. rewrite ?Hl, ?Hy, index_at. simpl.
  rewrite (cut_out_at' above [line] below (len above) (len above + 1) (above ++ line :: below))
    by (rewrite ?len_cons, ?len_nil; first [done | lia]).
  simpl.
  assert (Hfin : ∀ e0 cur,
            index (lines e0) (cy e0) = Some cur → cx e0 = Z.min (cx e) (len cur) →
            clipboard e0 = line → dirty e0 = true →
            ∃ e', ensureVisible e0 = Some e' ∧ clipboard e' = line
                  ∧ lines e' = lines e0 ∧ cy e' = cy e0
                  ∧ index (lines e') (cy e') = Some cur
                  ∧ cx e' = Z.min (cx e) (len cur) ∧ dirty e' = true).
  { intros e0 cur Hi Hc Hclip Hd. pose proof (len_nonneg cur).
    destruct (ensureVisible_fix e0) as (oy & ->).
    { eapply cursor_in_document_intro; [exact Hi|lia|lia]. }
    eexists. split; [reflexivity|]. simpl. done. }
  destruct below as [|b bs].
  - rewrite app_nil_r. destruct above as [|a0 above0] using rev_ind.
    + simpl.
      match goal with |- context [ensureVisible ?e0] =>
        destruct (Hfin e0 []) as (e' & -> & ? & Hl' & Hy' & ? & ? & ?) end;
        [reflexivity|simpl; unfold len; simpl; lia|reflexivity|reflexivity|].
      exists e', []. simpl in *. rewrite Hl', Hy'. done.
    + clear IHabove0. pose proof (len_nonneg above0). pose proof (len_nonneg a0).
      assert (Hlen : len (above0 ++ [a0]) = len above0 + 1) by (len_goal; lia).
      rewrite Hlen. decide_inner. rewrite Hlen. decide_inner.
      replace (len above0 + 1 - 1) with (len above0) by lia.
      rewrite index_at. simpl.
      destruct (Z.gtb_spec (cx e) (len a0)) as [Hgt|Hle];
        (match goal with |- context [ensureVisible ?e0] =>
           destruct (Hfin e0 a0) as (e' & -> & ? & Hl' & Hy' & ? & ? & ?) end;
         [simpl; apply index_at|simpl; lia|reflexivity|reflexivity|];
         exists e', a0; simpl in *; rewrite Hl', Hy';
         rewrite ?decide_False by (intros Hnil; apply (f_equal length) in Hnil;
                                   rewrite length_app in Hnil; simpl in Hnil; lia);
         split; [done|]; split; [done|]; split; [done|]; split; [lia|];
       split; [apply index_at|]; done).
  - pose proof (len_nonneg bs). pose proof (len_nonneg b).
    assert (Hlen : len (above ++ b :: bs) = len above + len bs + 1) by (len_goal; lia).
    rewrite Hlen. decide_inner. rewrite Hlen. decide_inner.
    rewrite ?Hy, index_at. simpl.
    destruct (Z.gtb_spec (cx e) (len b)) as [Hgt|Hle];
      (match goal with |- context [ensureVisible ?e0] =>
         destruct (Hfin e0 b) as (e' & -> & ? & Hl' & Hy' & ? & ? & ?) end;
       [simpl; rewrite ?Hy; apply index_at|simpl; lia|reflexivity|reflexivity|];
       exists e', b; simpl in *; rewrite Hl', Hy', ?Hy;
       rewrite ?decide_False by (intros Hnil; apply (f_equal length) in Hnil;
                                 rewrite length_app in Hnil; simpl in Hnil; lia);
       split; [done|]; split; [done|]; split; [done|]; split; [lia|];
       split; [apply index_at|]; done).
Qed.

(** ** Pasting *)

Lemma paste_loop_at (pasteLines middle : list gostring) : ∀ before after k pre post e,
  pasteLines = before ++ middle ++ after → k = len before →
  for_range (length middle) k
    (λ i '(e, insertIndex),
       pasteLine ← index pasteLines i;
       ls ← insert_at (lines e) insertIndex pasteLine;
       Some (set_lines ls e, insertIndex + 1)) (set_lines (pre ++ post) e, len pre)
  = Some (set_lines (pre ++ middle ++ post) e, len pre + len middle).
Proof.
  induction middle as [|m middle IH]; intros before after k pre post e Hparts Hk.
  - simpl. rewrite len_nil, Z.add_0_r. done.
  - pose proof (len_nonneg before). pose proof (len_nonneg pre).
    cbn [length for_range].
    rewrite (index_at' before (middle ++ after) m k pasteLines Hparts Hk). simpl.
    rewrite insert_at_at. simpl.
    change (set_lines (pre ++ m :: post) (set_lines (pre ++ post) e))
      with (set_lines (pre ++ m :: post) e).
    replace (pre ++ m :: post) with ((pre ++ [m]) ++ post) by (rewrite <- app_assoc; done).
    replace (len pre + 1) with (len (pre ++ [m])) by (len_goal; lia).
    rewrite (IH (before ++ [m]) after (k + 1) (pre ++ [m]) post e).
    + rewrite <- !app_assoc. simpl. f_equal. f_equal. len_goal. lia.
    + rewrite Hparts, <- app_assoc. done.
    + len_goal. lia.
Qed.

Lemma insert_loop_at (parts middle : list gostring) : ∀ before after k pre post c e,
  parts = before ++ middle ++ after → k = len before → c + 1 = len pre →
  for_range (length middle) k
    (λ i e,
       insertLine ← index parts i;
       ls ← insert_at (lines e) (cy e + 1) insertLine;
       Some (set_cy (cy e + 1) (set_lines ls e))) (set_cy c (set_lines (pre ++ post) e))
  = Some (set_cy (c + len middle) (set_lines (pre ++ middle ++ post) e)).
Proof.
  induction middle as [|m middle IH]; intros before after k pre post c e Hparts Hk Hc.
  - simpl. rewrite len_nil, Z.add_0_r. done.
  - pose proof (len_nonneg before). pose proof (len_nonneg pre).
    cbn [length for_range].
    rewrite (index_at' before (middle ++ after) m k parts Hparts Hk). simpl.
    rewrite (insert_at_at' pre post m (c + 1) (pre ++ post) eq_refl Hc). simpl.
    change (set_cy (c + 1) (set_lines (pre ++ m :: post) (set_cy c (set_lines (pre ++ post) e))))
      with (set_cy (c + 1) (set_lines (pre ++ m :: post) e)).
    replace (pre ++ m :: post) with ((pre ++ [m]) ++ post) by (rewrite <- app_assoc; done).
    rewrite (IH (before ++ [m]) after (k + 1) (pre ++ [m]) post (c + 1) e).
    + rewrite <- !app_assoc. simpl. f_equal. f_equal. len_goal. lia.
    + rewrite Hparts, <- app_assoc. done.
    + len_goal. lia.
    + len_goal. lia.
Qed.

Lemma insertTextAtCursor_one text part e above left right below :
  lines e = above ++ (left ++ right) :: below → cy e = len above → cx e = len left →
  strings.Split text LF = [part] →
  insertTextAtCursor text e
  = ensureVisible
      (set_dirty true (set_cx (len left + len part)
         (set_lines (above ++ (left ++ part ++ right) :: below) (pushUndo e)))).
Proof.
  intros Hl Hy Hx Hsplit.
  pose proof (len_nonneg above). pose proof (len_nonneg below).
  pose proof (len_nonneg left). pose proof (len_nonneg right).
  assert (Hlen : len (lines e) = len above + len below + 1) by (rewrite Hl; len_goal; lia).
  unfold insertTextAtCursor. rewrite Hsplit. change (len [part]) with 1. simpl.
  replace (cy e <? 0) with false by (symmetry; lia). simpl.
  replace (Z.to_nat (cy e - len (lines e) + 1)) with 0%nat by lia.
  simpl. rewrite app_nil_r.
  rewrite (index_at' above below (left ++ right) (cy e) (lines e) Hl Hy). simpl.
  replace (cx e <? 0) with false by (symmetry; lia). simpl.
  replace (cx e >? len (left ++ right)) with false by (symmetry; len_goal; lia). simpl.
  rewrite (slice_to_at' left right (cx e) (left ++ right) eq_refl Hx). simpl.
  rewrite (slice_from_at' left right (cx e) (left ++ right) eq_refl Hx). simpl.
  rewrite (store_at' above below (left ++ right) (left ++ part ++ right) (cy e) (lines e) Hl Hy).
  simpl. rewrite Hx. reflexivity.
Qed.

Lemma insertTextAtCursor_many text first middle last e above left right below :
  lines e = above ++ (left ++ right) :: below → cy e = len above → cx e = len left →
  strings.Split text LF = first :: middle ++ [last] →
  insertTextAtCursor text e
  = ensureVisible
      (set_dirty true (set_cx (len last) (set_cy (len above + len middle + 1)
         (set_lines (above ++ (left ++ first) :: middle ++ (last ++ right) :: below)
            (pushUndo e))))).
Proof.
  intros Hl Hy Hx Hsplit.
  pose proof (len_nonneg above). pose proof (len_nonneg below).
  pose proof (len_nonneg left). pose proof (len_nonneg right).
  pose proof (len_nonneg middle).
  assert (Hlen : len (lines e) = len above + len below + 1) by (rewrite Hl; len_goal; lia).
  assert (Hparts : len (first :: middle ++ [last]) = len middle + 2) by (len_goal; lia).
  unfold insertTextAtCursor. rewrite Hsplit, Hparts.
  replace (len middle + 2 =? 0) with false by (symmetry; lia).
  replace (len middle + 2 =? 1) with false by (symmetry; lia).
  simpl.
  replace (cy e <? 0) with false by (symmetry; lia). simpl.
  replace (Z.to_nat (cy e - len (lines e) + 1)) with 0%nat by lia.
  simpl. rewrite app_nil_r.
  rewrite (index_at' above below (left ++ right) (cy e) (lines e) Hl Hy). simpl.
  replace (cx e <? 0) with false by (symmetry; lia). simpl.
  replace (cx e >? len (left ++ right)) with false by (symmetry; len_goal; lia). simpl.
  rewrite (slice_to_at' left right (cx e) (left ++ right) eq_refl Hx). simpl.
  rewrite (slice_from_at' left right (cx e) (left ++ right) eq_refl Hx). simpl.
  rewrite (store_at' above below (left ++ right) (left ++ first) (cy e) (lines e) Hl Hy).
  simpl. unfold for_upto.
  replace (Z.to_nat (len middle + 2 - 1 - 1)) with (length middle) by (unfold len; lia).
  replace (above ++ (left ++ first) :: below) with ((above ++ [left ++ first]) ++ below)
    by (rewrite <- app_assoc; done).
  match goal with |- context [for_range _ _ _ ?e0] =>
    change e0 with (set_cy (cy e) (set_lines ((above ++ [left ++ first]) ++ below) (pushUndo e)))
  end.
  rewrite (insert_loop_at (first :: middle ++ [last]) middle [first] [last] 1
             (above ++ [left ++ first]) below (cy e) (pushUndo e));
    [|done|done|len_goal; lia].
  simpl.
  rewrite (index_at' (first :: middle) [] last (len middle + 2 - 1) (first :: middle ++ [last]))
    by (first [done | len_goal; lia]).
  simpl.
  rewrite (insert_at_at' ((above ++ [left ++ first]) ++ middle) below (last ++ right)
             (cy e + len middle + 1) ((above ++ [left ++ first]) ++ middle ++ below))
    by (first [rewrite <- !app_assoc; done | len_goal; lia]).
  simpl.
  replace (cy e + (len middle + 2 - 1)) with (len above + len middle + 1) by lia.
  rewrite <- !app_assoc. reflexivity.
Qed.

Lemma pasteFromClipboard_one text part e above left right below :
  lines e = above ++ (left ++ right) :: below → cy e = len above → cx e = len left →
  strings.Split (strings.ReplaceAll (strings.ReplaceAll text [CR; LF] [LF]) [CR] [LF]) LF
  = [part] →
  pasteFromClipboard (Some text) e
  = ensureVisible
      (set_dirty true (set_cx (len left + len part)
         (set_lines (above ++ (left ++ part ++ right) :: below) (pushUndo e)))).
Proof.
  intros Hl Hy Hx Hsplit.
  pose proof (len_nonneg above). pose proof (len_nonneg below).
  pose proof (len_nonneg left). pose proof (len_nonneg right).
  unfold pasteFromClipboard. rewrite Hsplit. change (len [part]) with 1. simpl.
  rewrite (index_at' above below (left ++ right) (cy e) (lines e) Hl Hy). simpl.
  replace (cx e >? len (left ++ right)) with false by (symmetry; len_goal; lia). simpl.
  rewrite (slice_to_at' left right (cx e) (left ++ right) eq_refl Hx). simpl.
  rewrite (slice_from_at' left right (cx e) (left ++ right) eq_refl Hx). simpl.
  rewrite (store_at' above below (left ++ right) (left ++ part ++ right) (cy e) (lines e) Hl Hy).
  simpl. rewrite Hx. reflexivity.
Qed.

Lemma pasteFromClipboard_many text first middle last e above left right below :
  lines e = above ++ (left ++ right) :: below → cy e = len above → cx e = len left →
  strings.Split (strings.ReplaceAll (strings.ReplaceAll text [CR; LF] [LF]) [CR] [LF]) LF
  = first :: middle ++ [last] →
  pasteFromClipboard (Some text) e
  = ensureVisible
      (set_dirty true (set_cx (len last) (set_cy (len above + len middle + 1)
         (set_lines (above ++ (left ++ first) :: middle ++ (last ++ right) :: below)
            (pushUndo e))))).
Proof.
  intros Hl Hy Hx Hsplit.
  pose proof (len_nonneg above). pose proof (len_nonneg below).
  pose proof (len_nonneg left). pose proof (len_nonneg right).
  pose proof (len_nonneg middle).
  assert (Hparts : len (first :: middle ++ [last]) = len middle + 2) by (len_goal; lia).
  unfold pasteFromClipboard. rewrite Hsplit, Hparts.
  replace (len middle + 2 =? 0) with false by (symmetry; lia).
  replace (len middle + 2 =? 1) with false by (symmetry; lia).
  simpl.
  rewrite (index_at' above below (left ++ right) (cy e) (lines e) Hl Hy). simpl.
  replace (cx e >? len (left ++ right)) with false by (symmetry; len_goal; lia). simpl.
  rewrite (slice_to_at' left right (cx e) (left ++ right) eq_refl Hx). simpl.
  rewrite (slice_from_at' left right (cx e) (left ++ right) eq_refl Hx). simpl.
  rewrite (store_at' above below (left ++ right) (left ++ first) (cy e) (lines e) Hl Hy).
  simpl. unfold for_upto.
  replace (Z.to_nat (len middle + 2 - 1 - 1)) with (length middle) by (unfold len; lia).
  replace (above ++ (left ++ first) :: below) with ((above ++ [left ++ first]) ++ below)
    by (rewrite <- app_assoc; done).
  replace (cy e + 1) with (len (above ++ [left ++ first])) by (len_goal; lia).
  rewrite (paste_loop_at (first :: middle ++ [last]) middle [first] [last] 1
             (above ++ [left ++ first]) below (pushUndo e)); [|done|done].
  simpl.
  rewrite (index_at' (first :: middle) [] last (len middle + 2 - 1) (first :: middle ++ [last]))
    by (first [done | len_goal; lia]).
  simpl.
  rewrite (insert_at_at' ((above ++ [left ++ first]) ++ middle) below (last ++ right)
             (len (above ++ [left ++ first]) + len middle)
             ((above ++ [left ++ first]) ++ middle ++ below))
    by (first [rewrite <- !app_assoc; done | len_goal; lia]).
  simpl.
  replace (len (above ++ [left ++ first]) + len middle) with (len above + len middle + 1)
    by (len_goal; lia).
  rewrite <- !app_assoc. reflexivity.
Qed.

(** X14.  With the cursor in the document, pasting a clipboard text is
    the same as [insertTextAtCursor] on that text with every [CR LF] and
    every remaining [CR] turned into [LF]: both calls return the same
    state. *)
Theorem pasteFromClipboard_inserts_normalised_text text e :
  cursor_in_document e →
  pasteFromClipboard (Some text) e
  = insertTextAtCursor
      (strings.ReplaceAll (strings.ReplaceAll text [CR; LF] [LF]) [CR] [LF]) e.
Proof.
  intros (Hlen & Hcy & line & Hline & Hcx0 & Hcx1).
  destruct (split_at _ _ _ Hline) as (above & below & Hl & Hy).
  destruct (split_col line (cx e) Hcx0 Hcx1) as (left & right & -> & Hx).
  symmetry in Hy, Hx.
  pose proof (Split_nonempty
    (strings.ReplaceAll (strings.ReplaceAll text [CR; LF] [LF]) [CR] [LF]) LF) as Hne.
  destruct (strings.Split
    (strings.ReplaceAll (strings.ReplaceAll text [CR; LF] [LF]) [CR] [LF]) LF)
    as [|first rest] eqn:Hsplit; [rewrite len_nil in Hne; lia|].
  destruct rest as [|last middle _] using rev_ind.
  - rewrite (pasteFromClipboard_one text first e above left right below) by done.
    rewrite (insertTextAtCursor_one _ first e above left right below) by done.
    reflexivity.
  - rewrite (pasteFromClipboard_many text first middle last e above left right below) by done.
    rewrite (insertTextAtCursor_many _ first middle last e above left right below) by done.
    reflexivity.
Qed.


End CutAndPaste.

Section Ranges.
Context `{runewidth.Table}.

(** ** The selection range *)


End Ranges.

Section NoLine.
Context `{runewidth.Table}.

(** ** A line selection over the whole document *)

Lemma deleteSelection_all_lines e :
  selecting e = true → lineSelecting e = true → 1 ≤ len (lines e) →
  (selectStartY e = 0 ∧ cy e = len (lines e) - 1)
  ∨ (selectStartY e = len (lines e) - 1 ∧ cy e = 0) →
  ∃ e', deleteSelection e = Some e'
    ∧ lines e' = [] ∧ cx e' = 0 ∧ cy e' = 0 ∧ selecting e' = false ∧ edited e e'.
Proof.
  intros Hsel Hline Hlen Hends.
  destruct (deleteSelection_lines e [] (lines e) [])
    as (e1 & Hdel & Hl1 & Hx1 & Hy1 & Hs1 & _ & Hed); try done.
  { rewrite app_nil_r. done. }
  exists e1. done.
Qed.

(** C1, as the code has it.  From a state that satisfies the buffer
    invariant and holds a line selection over every line of the
    document, [deleteSelection] returns a state without any line, which
    breaks the invariant.  [insertRune], [newline] and
    [pasteFromClipboard] index the cursor line of that state and fail at
    run time, and so does [handleKey] on Enter, on a typed rune and on
    Ctrl+V with a readable clipboard, which call [deleteSelection] and
    then one of the three. *)
Theorem whole_document_selection_leaves_no_line env e :
  cursor_in_document e → selecting e = true → lineSelecting e = true →
  (selectStartY e = 0 ∧ cy e = len (lines e) - 1)
  ∨ (selectStartY e = len (lines e) - 1 ∧ cy e = 0) →
  (∃ e', deleteSelection e = Some e'
     ∧ lines e' = [] ∧ ¬ cursor_in_document e'
     ∧ (∀ r, insertRune r e' = None)
     ∧ newline e' = None
     ∧ (∀ text, pasteFromClipboard (Some text) e' = None))
  ∧ (∀ ev, Rune ev ≠ TAB →
       Key ev = KeyEnter
       ∨ (Key ev = KeyRune ∧ Rune ev ≠ 0 ∧ ModAlt ev = false)
       ∨ (Key ev = KeyCtrlV ∧ is_Some (clipboardRead env)) →
       handleKey env ev e = None).
Proof.
  intros (Hlen & _) Hsel Hline Hends.
  destruct (deleteSelection_all_lines e Hsel Hline Hlen Hends)
    as (e1 & Hdel & Hl1 & Hx1 & Hy1 & Hs1 & _).
  assert (Hins : ∀ r, insertRune r e1 = None).
  { intros r. unfold insertRune. simpl. rewrite Hl1, index_nil. done. }
  assert (Hnl : newline e1 = None).
  { unfold newline. simpl. rewrite Hl1, index_nil. done. }
  assert (Hpaste : ∀ text, pasteFromClipboard (Some text) e1 = None).
  { intros text. unfold pasteFromClipboard.
    pose proof (Split_nonempty
      (strings.ReplaceAll (strings.ReplaceAll text [CR; LF] [LF]) [CR] [LF]) LF) as Hne.
    replace (len (strings.Split
      (strings.ReplaceAll (strings.ReplaceAll text [CR; LF] [LF]) [CR] [LF]) LF) =? 0)
      with false by (symmetry; lia).
    simpl. rewrite Hl1, index_nil. done. }
  split.
  - exists e1. split; [done|]. split; [done|]. split; [|done].
    intros (Hlen1 & _). rewrite Hl1, len_nil in Hlen1. lia.
  - intros ev Htab Hkeys.
    assert (Hnotab : (Rune ev =? TAB) = false) by (apply Z.eqb_neq; done).
    destruct Hkeys as [Hkey|[(Hkey & Hr & Halt)|(Hkey & [text Hclip])]];
      unfold handleKey; rewrite Hkey, Hnotab; simpl.
    + rewrite Hsel, Hdel. simpl. rewrite Hnl. done.
    + replace (Rune ev =? 0) with false by (symmetry; apply Z.eqb_neq; done).
      rewrite Halt. simpl. rewrite Hsel, Hdel. simpl.
      assert (Hauto : shouldAutoCloseBracket (Rune ev) e1 = Some false).
      { unfold shouldAutoCloseBracket. rewrite Hl1, Hy1. done. }
      rewrite Hauto, Hins. destruct (_ || _); done.
    + rewrite Hsel, Hdel. simpl. rewrite Hclip, Hpaste. done.
Qed.

(** X1.  In the same state Backspace does not fail: [deleteSelection]
    takes every line away, the [ensureVisible] that ends [handleKey]
    puts one empty line back, the cursor stands at its start, the
    selection is over, and one [undo] brings back the lines and the
    cursor. *)
Theorem backspace_over_whole_document_selection env ev e :
  cursor_in_document e → selecting e = true → lineSelecting e = true →
  (selectStartY e = 0 ∧ cy e = len (lines e) - 1)
  ∨ (selectStartY e = len (lines e) - 1 ∧ cy e = 0) →
  Key ev = KeyBackspace → Rune ev ≠ TAB →
  ∃ e' e'',
    handleKey env ev e = Some e'
    ∧ lines e' = [[]] ∧ cx e' = 0 ∧ cy e' = 0 ∧ selecting e' = false
    ∧ dirty e' = true
    ∧ undo e' = Some e''
    ∧ lines e'' = lines e ∧ cx e'' = cx e ∧ cy e'' = cy e.
Proof.
  intros Hinv Hsel Hline Hends Hkey Htab.
  destruct (deleteSelection_all_lines e Hsel Hline (proj1 Hinv) Hends)
    as (e1 & Hdel & Hl1 & Hx1 & Hy1 & Hs1 & Hu1 & Hr1 & Hd1).
  assert (Hnotab : (Rune ev =? TAB) = false) by (apply Z.eqb_neq; done).
  unfold handleKey. rewrite Hkey, Hnotab. simpl.
  rewrite Hsel, andb_false_r. simpl. rewrite Hdel. simpl.
  destruct (ensureVisible_empty (clear_ctrl e1))
    as (e2 & -> & Hl2 & Hx2 & Hy2 & (Hu2 & Hr2 & Hd2) & Hs2); [done|].
  simpl in Hu2, Hr2, Hd2, Hs2.
  destruct (undo_pops e2 (undoStack e) (snapshot e)) as (e3 & Hundo & _ & _ & _ & _ & Hback).
  { rewrite Hu2. exact Hu1. }
  destruct (Hback (snapshot_ok_of e Hinv)) as (Hl3 & Hx3 & Hy3).
  exists e2, e3. rewrite Hs2, Hd2. done.
Qed.

End NoLine.

Section Loading.
Context `{runewidth.Table}.

(** ** Loading and saving: the line ends *)

#[local] Arguments first_free : simpl never.




End Loading.

Section Dirty.
Context `{runewidth.Table}.

(** ** What sets and what clears the dirty flag *)













End Dirty.

(** * The theorems at concrete inputs *)

(** The examples measure every rune as one cell. *)
#[local] Existing Instance one_cell.





(** "x\ny\nz" inserted at column 2 of the only line "ab". *)
Lemma insertTextAtCursor_multiline_witness :
  ∃ e',
    insertTextAtCursor (str "x" ++ [LF] ++ str "y" ++ [LF] ++ str "z")
      (set_cx 2 (editor_on (str "ab"))) = Some e'
    ∧ lines e' = [str "abx"; str "y"; str "z"]
    ∧ cy e' = 2 ∧ cx e' = len (str "z").
Proof.
  apply (proj2 insertTextAtCursor_multiline); vm_compute; reflexivity.
Defined.

(** "(a(b)c)" from both ends, and "((a)", where the first bracket is
    never closed. *)
Lemma findMatchingBracket_forward_witness :
  findMatchingBracket 8 (editor_on (str "(a(b)c)")) 0 0
  = Some (Some {| OpenLine := 0; OpenCol := 0; CloseLine := 0; CloseCol := 6 |})
  ∧ findMatchingBracket 8 (editor_on (str "(a(b)c)")) 0 6
    = Some (Some {| OpenLine := 0; OpenCol := 0; CloseLine := 0; CloseCol := 6 |})
  ∧ findMatchingBracket 8 (editor_on (str "((a)")) 0 0 = Some None.
Proof.
  destruct findMatchingBracket_forward as (Hgeneral & Hopen & Hclose).
  split; [|split].
  - apply Hopen. vm_compute. reflexivity.
  - apply Hclose; [vm_compute; reflexivity|lia].
  - rewrite (Hgeneral 8%nat (editor_on (str "((a)")) 0 0 (str "((a)") (ch "(") (ch ")"));
      vm_compute; reflexivity.
Defined.

(** Ctrl+A on the document that is one empty line. *)
Lemma selection_sentinel_witness :
  ∃ e',
    step (plain_key KeyCtrlA) (editor_on []) = Some e'
    ∧ selecting e' = true
    ∧ getSelectionRange e' = Some (0, 0, 0, 0)
    ∧ getSelectedText e' = Some [].
Proof.
  eexists. split; [vm_compute; reflexivity|].
  apply (proj2 (proj2 selection_sentinel) quiet_env
           {| Key := KeyCtrlA; Rune := 0; ModShift := false; ModAlt := false |}
           (editor_on [])); by vm_compute.
Defined.

(** Down and Shift+End on "a\n": the selection is active, anchor and
    cursor are both at line 1, column 0, the range is not (0,0,0,0) and
    the selected text is empty. *)
Lemma collapsed_selection_is_empty :
  ∃ e,
    run [plain_key KeyDown; shift_key KeyEnd] (editor_on (str "a" ++ [LF])) = Some e
    ∧ selecting e = true
    ∧ getSelectionRange e = Some (1, 0, 1, 0)
    ∧ getSelectedText e = Some [].
Proof.
  eexists. split; [vm_compute; reflexivity|]. repeat split; vm_compute; reflexivity.
Defined.

(** End and Shift+Left on the document "abc" select its only line.  The
    state is one of the dispatch loop and satisfies the buffer invariant;
    [deleteSelection] leaves it without a line, and the letter "x" typed
    next makes [handleKey] fail. *)
Lemma whole_document_selection_leaves_no_line_witness :
  ∃ e,
    run [plain_key KeyEnd; shift_key KeyLeft] (editor_on (str "abc")) = Some e
    ∧ reachable e
    ∧ cursor_in_document e
    ∧ selecting e = true ∧ lineSelecting e = true
    ∧ lines e = [str "abc"] ∧ selectStartY e = 0 ∧ cy e = 0
    ∧ (∃ e', deleteSelection e = Some e'
         ∧ lines e' = [] ∧ ¬ cursor_in_document e'
         ∧ (∀ r, insertRune r e' = None)
         ∧ newline e' = None
         ∧ (∀ text, pasteFromClipboard (Some text) e' = None))
    ∧ handleKey quiet_env
        {| Key := KeyRune; Rune := ch "x"; ModShift := false; ModAlt := false |} e = None
    ∧ run [plain_key KeyEnd; shift_key KeyLeft; rune_key (ch "x")] (editor_on (str "abc"))
      = None.
Proof.
  eexists. split; [vm_compute; reflexivity|].
  match goal with |- reachable ?e0 ∧ _ =>
    assert (Hreach : reachable e0)
      by (apply (run_reachable [plain_key KeyEnd; shift_key KeyLeft]
                   (editor_on (str "abc"))); [apply reachable_editor_on|];
          vm_compute; reflexivity);
    pose proof (reachable_cursor_in_document e0 Hreach) as Hinv;
    destruct (whole_document_selection_leaves_no_line quiet_env e0 Hinv eq_refl eq_refl)
      as [Hdel Hkeys]; [left; split; reflexivity|]
  end.
  split; [exact Hreach|]. split; [exact Hinv|].
  split; [reflexivity|]. split; [reflexivity|].
  split; [reflexivity|]. split; [reflexivity|]. split; [reflexivity|].
  split; [exact Hdel|]. split; [|vm_compute; reflexivity].
  apply Hkeys; [vm_compute; discriminate|].
  right. left. split; [reflexivity|]. split; [vm_compute; discriminate|reflexivity].
Defined.



(** End, Shift+Left and Backspace on the document "abc", then one
    [undo]. *)
Lemma backspace_over_whole_document_selection_witness :
  ∃ e e' e'',
    run [plain_key KeyEnd; shift_key KeyLeft] (editor_on (str "abc")) = Some e
    ∧ handleKey quiet_env
        {| Key := KeyBackspace; Rune := 0; ModShift := false; ModAlt := false |} e
      = Some e'
    ∧ lines e' = [[]] ∧ cx e' = 0 ∧ cy e' = 0 ∧ selecting e' = false
    ∧ dirty e' = true
    ∧ undo e' = Some e''
    ∧ lines e'' = [str "abc"] ∧ cx e'' = 2 ∧ cy e'' = 0.
Proof.
  eexists.
  match goal with |- ∃ e' e'', ?r = Some ?e0 ∧ _ =>
    assert (Hrun : r = Some e0) by (vm_compute; reflexivity);
    assert (Hinv : cursor_in_document e0)
      by (apply reachable_cursor_in_document;
          apply (run_reachable [plain_key KeyEnd; shift_key KeyLeft]
                   (editor_on (str "abc"))); [apply reachable_editor_on|exact Hrun]);
    destruct (backspace_over_whole_document_selection quiet_env
                {| Key := KeyBackspace; Rune := 0; ModShift := false; ModAlt := false |}
                e0 Hinv eq_refl eq_refl)
      as (e' & e'' & Hkey & Hrest);
      [left; split; reflexivity|reflexivity|vm_compute; discriminate|]
  end.
  exists e', e''. split; [exact Hrun|]. split; [exact Hkey|]. exact Hrest.
Defined.

(** "abcdefg" in a window three cells wide. *)
Lemma wrapLine_no_empty_segment_witness :
  wrapLine (set_contentWidth 3 (editor_on [])) (str "abcdefg")
  = Some [str "abc"; str "def"; str "g"]
  ∧ Forall (λ seg : gostring, seg ≠ []) [str "abc"; str "def"; str "g"]
  ∧ len [str "abc"; str "def"; str "g"] ≤ len (str "abcdefg").
Proof.
  split; [vm_compute; reflexivity|].
  apply (wrapLine_no_empty_segment (set_contentWidth 3 (editor_on [])) (str "abcdefg"));
    [discriminate|vm_compute; reflexivity].
Defined.

Lemma wrapLine_ascii_chunks_witness :
  ∃ full last,
    [str "abc"; str "def"; str "g"] = full ++ [last]
    ∧ Forall (λ seg : gostring, len seg = 3) full
    ∧ 1 ≤ len last ∧ len last ≤ 3
    ∧ concat full ++ last = str "abcdefg".
Proof.
  apply (wrapLine_ascii_chunks (set_contentWidth 3 (editor_on [])) (str "abcdefg")).
  - vm_compute. discriminate.
  - discriminate.
  - repeat constructor; vm_compute; discriminate.
  - vm_compute. reflexivity.
Defined.

(** "x" typed, and Enter pressed, between "a" and "b". *)
Lemma backspace_reverts_typing_witness :
  (∃ e1 e2,
     insertRune (ch "x") (set_cx 1 (editor_on (str "ab"))) = Some e1
     ∧ lines e1 = [str "axb"] ∧ cx e1 = 2
     ∧ backspace e1 = Some e2
     ∧ lines e2 = [str "ab"] ∧ cx e2 = 1 ∧ cy e2 = 0)
  ∧ (∃ e1 e2,
       newline (set_cx 1 (editor_on (str "ab"))) = Some e1
       ∧ lines e1 = [str "a"; str "b"] ∧ cx e1 = 0 ∧ cy e1 = 1
       ∧ backspace e1 = Some e2
       ∧ lines e2 = [str "ab"] ∧ cx e2 = 1 ∧ cy e2 = 0).
Proof.
  destruct (backspace_reverts_typing (set_cx 1 (editor_on (str "ab")))
              [] (str "a") (str "b") [] eq_refl eq_refl eq_refl) as [Hrune Hnl].
  split.
  - destruct (Hrune (ch "x")) as (e1 & e2 & H1 & Hl1 & Hx1 & _ & H2 & Hl2 & Hx2 & Hy2).
    exists e1, e2. repeat split; assumption.
  - destruct Hnl as (e1 & e2 & H1 & Hl1 & Hx1 & Hy1 & H2 & Hl2 & Hx2 & Hy2).
    exists e1, e2. repeat split; assumption.
Defined.

(** The lines "b" and "c" of "a\nb\nc\nd" selected from below. *)
Lemma deleteSelection_whole_lines_witness :
  ∃ e' e'',
    deleteSelection
      (set_lineSelecting true (set_selecting true (set_selectStartY 2
         (set_cy 1 (editor_on (str "a" ++ [LF] ++ str "b" ++ [LF] ++ str "c"
                                 ++ [LF] ++ str "d"))))))
    = Some e'
    ∧ lines e' = [str "a"; str "d"] ∧ cx e' = 0 ∧ cy e' = 1 ∧ selecting e' = false
    ∧ undo e' = Some e''
    ∧ lines e'' = [str "a"; str "b"; str "c"; str "d"] ∧ cx e'' = 0 ∧ cy e'' = 1.
Proof.
  destruct (deleteSelection_whole_lines
              (set_lineSelecting true (set_selecting true (set_selectStartY 2
                 (set_cy 1 (editor_on (str "a" ++ [LF] ++ str "b" ++ [LF] ++ str "c"
                                         ++ [LF] ++ str "d"))))))
              [str "a"] [str "b"; str "c"] [str "d"])
    as (e' & e'' & Hdel & Hl & Hx & Hy & Hs & Hu & Hl' & Hx' & Hy').
  - eapply (cursor_in_document_intro _ (str "b")); vm_compute; first [reflexivity|discriminate].
  - reflexivity.
  - reflexivity.
  - reflexivity.
  - vm_compute. discriminate.
  - right. split; reflexivity.
  - exists e', e''. repeat split; assumption.
Defined.

(** Down on "ab\ncd". *)
Lemma navigation_keeps_the_text_witness :
  ∃ e',
    handleKey quiet_env {| Key := KeyDown; Rune := 0; ModShift := false; ModAlt := false |}
      (editor_on (str "ab" ++ [LF] ++ str "cd")) = Some e'
    ∧ lines e' = [str "ab"; str "cd"] ∧ dirty e' = false
    ∧ undoStack e' = [] ∧ redoStack e' = [] ∧ clipboard e' = []
    ∧ cursor_in_document e'.
Proof.
  apply (navigation_keeps_the_text quiet_env
           {| Key := KeyDown; Rune := 0; ModShift := false; ModAlt := false |}
           (editor_on (str "ab" ++ [LF] ++ str "cd"))).
  - apply editor_on_inv.
  - vm_compute. discriminate.
  - right. left.
Defined.

(** "(" typed at the end of "f" and before the "x" of "fx". *)
Lemma opening_bracket_is_closed_witness :
  (∃ e',
     handleKey quiet_env
       {| Key := KeyRune; Rune := ch "("; ModShift := false; ModAlt := false |}
       (set_cx 1 (editor_on (str "f"))) = Some e'
     ∧ cx e' = 2 ∧ cy e' = 0 ∧ lines e' = [str "f()"])
  ∧ (∃ e',
       handleKey quiet_env
         {| Key := KeyRune; Rune := ch "("; ModShift := false; ModAlt := false |}
         (set_cx 1 (editor_on (str "fx"))) = Some e'
       ∧ cx e' = 2 ∧ cy e' = 0 ∧ lines e' = [str "f(x"]).
Proof.
  split.
  - apply (opening_bracket_is_closed quiet_env
             {| Key := KeyRune; Rune := ch "("; ModShift := false; ModAlt := false |}
             (ch "(") (set_cx 1 (editor_on (str "f"))) [] (str "f") [] []);
      try reflexivity.
    left.
  - apply (opening_bracket_is_closed quiet_env
             {| Key := KeyRune; Rune := ch "("; ModShift := false; ModAlt := false |}
             (ch "(") (set_cx 1 (editor_on (str "fx"))) [] (str "f") (str "x") []);
      try reflexivity.
    left.
Defined.

(** A search for "cd" from the start of "ab\ncd". *)
Lemma findAndJump_lands_on_match_witness :
  ∃ e',
    findAndJump (str " cd ") (editor_on (str "ab" ++ [LF] ++ str "cd")) = Some e'
    ∧ cy e' = 1 ∧ cx e' = 0
    ∧ lines e' = [str "ab"; str "cd"]
    ∧ cursor_in_document e'.
Proof.
  destruct (findAndJump_lands_on_match (str " cd ")
              (editor_on (str "ab" ++ [LF] ++ str "cd")) (editor_on_inv _))
    as (e' & Hr & Hl & Hinv & _).
  exists e'. split; [exact Hr|].
  assert (He : Some e' = findAndJump (str " cd ") (editor_on (str "ab" ++ [LF] ++ str "cd")))
    by (symmetry; exact Hr).
  vm_compute in He. injection He as ->.
  split; [reflexivity|]. split; [reflexivity|]. split; [reflexivity|]. exact Hinv.
Defined.

(** Ctrl+B with the single canvas of a fresh editor: the switch comes
    back to canvas 1 after a full turn. *)
Lemma switchToNextCanvas_cycles_witness :
  ∃ e' j saved shown,
    switchToNextCanvas (editor_on (str "ab")) = Some e'
    ∧ 1 ≤ j ∧ j ≤ MaxCanvases
    ∧ currentCanvas e' = (currentCanvas (editor_on (str "ab")) - 1 + j) mod MaxCanvases + 1
    ∧ (∀ i, 1 ≤ i → i < j →
         canvases (editor_on (str "ab"))
           !! ((currentCanvas (editor_on (str "ab")) - 1 + i) mod MaxCanvases + 1) = None)
    ∧ canvases e' = <[currentCanvas (editor_on (str "ab")) := saved]>
                      (canvases (editor_on (str "ab")))
    ∧ Canvas.lines saved = [str "ab"]
    ∧ canvases e' !! currentCanvas e' = Some shown.
Proof.
  destruct (switchToNextCanvas_cycles (editor_on (str "ab"))
              {| Canvas.filename := str "f"; Canvas.lines := [str "ab"];
                 Canvas.cx := 0; Canvas.cy := 0; Canvas.offsetX := 0; Canvas.offsetY := 0;
                 Canvas.dirty := false; Canvas.language := LangUnknown;
                 Canvas.undoStack := []; Canvas.redoStack := [] |})
    as (e' & j & saved & shown & Hr & Hj0 & Hj1 & Hcur & Hfree & Hcs & _ & Hl & _ & _ & _
        & _ & _ & Hshown & _).
  - vm_compute. reflexivity.
  - vm_compute. discriminate.
  - vm_compute. discriminate.
  - exists e', j, saved, shown. repeat split; assumption.
Defined.

(** Ctrl+X on the middle line of "a\nbc\nd" with the cursor after "b". *)
Lemma cutLine_moves_line_to_clipboard_witness :
  ∃ e' cur,
    cutLine (set_cx 1 (set_cy 1 (editor_on (str "a" ++ [LF] ++ str "bc" ++ [LF] ++ str "d"))))
    = Some e'
    ∧ clipboard e' = str "bc"
    ∧ lines e' = [str "a"; str "d"]
    ∧ cy e' = 1
    ∧ index (lines e') (cy e') = Some cur
    ∧ cx e' = Z.min 1 (len cur)
    ∧ dirty e' = true.
Proof.
  apply (cutLine_moves_line_to_clipboard
           (set_cx 1 (set_cy 1 (editor_on (str "a" ++ [LF] ++ str "bc" ++ [LF] ++ str "d"))))
           [str "a"] (str "bc") [str "d"]).
  - reflexivity.
  - reflexivity.
  - vm_compute. discriminate.
Defined.

(** The clipboard text "x\r\ny\rz" pasted into "ab". *)
Lemma pasteFromClipboard_inserts_normalised_text_witness :
  pasteFromClipboard (Some (str "x" ++ [CR; LF] ++ str "y" ++ [CR] ++ str "z"))
    (editor_on (str "ab"))
  = insertTextAtCursor (str "x" ++ [LF] ++ str "y" ++ [LF] ++ str "z") (editor_on (str "ab"))
  ∧ ∃ e', insertTextAtCursor (str "x" ++ [LF] ++ str "y" ++ [LF] ++ str "z")
            (editor_on (str "ab")) = Some e'
          ∧ lines e' = [str "x"; str "y"; str "zab"].
Proof.
  split.
  - apply (pasteFromClipboard_inserts_normalised_text
             (str "x" ++ [CR; LF] ++ str "y" ++ [CR] ++ str "z") (editor_on (str "ab"))).
    apply editor_on_inv.
  - eexists. split; vm_compute; reflexivity.
Defined.
